(** * Commentary-to-events pipeline: minute normaliser, front-matter
      splitter, lineup resolver and event classifier.

    A shallow embedding of [src/preproc.py], [src/ingest.py] and
    [src/parser.py].  Python strings are sequences of Unicode code points;
    the regular expressions of the source are kept as syntax trees and run
    by a backtracking matcher with Python's priorities (leftmost, greedy or
    lazy as written). *)

From Stdlib Require Import List Bool Arith NArith ZArith Lia Permutation.
From Stdlib Require Strings.String Strings.Ascii QArith_base.
Import ListNotations.
Import String.StringSyntax.
Delimit Scope string_scope with string.

Set Implicit Arguments.

(* ================================================================== *)
(** * Python strings *)
(* ================================================================== *)

Module Py.

(** A character is a Unicode code point, a [str] a sequence of them. *)
Definition char := N.
Definition str := list char.

(** ASCII literal of the development -> code points. *)
Fixpoint lit (s : String.string) : str :=
  match s with
  | String.EmptyString => []
  | String.String a s' => Ascii.N_of_ascii a :: lit s'
  end.

Arguments lit s%_string_scope.

Definition char_eqb (a b : char) : bool := N.eqb a b.

Fixpoint str_eqb (a b : str) : bool :=
  match a, b with
  | [], [] => true
  | x :: a', y :: b' => char_eqb x y && str_eqb a' b'
  | _, _ => false
  end.

(** [x in l] for a list of strings. *)
Definition mem (x : str) (l : list str) : bool := existsb (str_eqb x) l.

Fixpoint starts_with (p s : str) : bool :=
  match p, s with
  | [], _ => true
  | a :: p', b :: s' => char_eqb a b && starts_with p' s'
  | _ :: _, [] => false
  end.

(** [sub in s]: substring test. *)
Fixpoint contains (sub s : str) : bool :=
  starts_with sub s ||
  match s with
  | [] => false
  | _ :: s' => contains sub s'
  end.

(** [any(k in s for k in ks)]. *)
Definition any_in (ks : list str) (s : str) : bool :=
  existsb (fun k => contains k s) ks.

(** [s.count(c)] for a one-character needle. *)
Definition count_char (c : char) (s : str) : nat :=
  length (filter (char_eqb c) s).

(** [s.replace(old, empty)] for a non-empty [old]: leftmost, non-overlapping. *)
Fixpoint remove_all (old : str) (fuel : nat) (s : str) : str :=
  match fuel with
  | O => s
  | S n =>
      match s with
      | [] => []
      | c :: s' =>
          if starts_with old s
          then remove_all old n (skipn (length old) s)
          else c :: remove_all old n s'
      end
  end.

Definition replace_empty (old s : str) : str := remove_all old (length s) s.

(** Unicode white space, as [str.isspace] and the pattern [\s] see it. *)
Definition isspace (c : char) : bool :=
  ((9 <=? c) && (c <=? 13) || (28 <=? c) && (c <=? 32)
   || (c =? 133) || (c =? 160) || (c =? 5760)
   || (8192 <=? c) && (c <=? 8202)
   || (c =? 8232) || (c =? 8233) || (c =? 8239) || (c =? 8287)
   || (c =? 12288))%N.

Fixpoint lstrip (s : str) : str :=
  match s with
  | c :: s' => if isspace c then lstrip s' else s
  | [] => []
  end.

Definition rstrip (s : str) : str := rev (lstrip (rev s)).

Definition strip (s : str) : str := rstrip (lstrip s).

(** Truth value of a string, and of [None]-or-string. *)
Definition truthy (s : str) : bool :=
  match s with [] => false | _ => true end.

Definition truthy_opt (o : option str) : bool :=
  match o with Some s => truthy s | None => false end.

(** ** Unicode data

    The ASCII range is spelled out, and so are the few other characters
    the source names, all of them punctuation: the middle dot, the en and
    em dashes, the right single quote and the two curly double quotes.
    What Python takes from the Unicode database for every other code point
    is a parameter of the development: nothing below depends on its
    values. *)
Record unicode := {
  u_decimal : char -> bool;     (* category Nd, as [\d] uses it *)
  u_digit_value : char -> N;    (* the value [int] gives a decimal digit *)
  u_alnum : char -> bool;       (* [str.isalnum], as [\w] and [\b] use it *)
  u_lower : str -> str;         (* [str.lower] *)
  u_nfkd : str -> str;          (* [unicodedata.normalize("NFKD", _)] *)
  u_combining : char -> bool    (* [unicodedata.combining(_) != 0] *)
}.

Definition is_ascii (c : char) : bool := (c <? 128)%N.

Definition ascii_upper (c : char) : bool := ((65 <=? c) && (c <=? 90))%N.
Definition ascii_lower (c : char) : bool := ((97 <=? c) && (c <=? 122))%N.
Definition ascii_digit (c : char) : bool := ((48 <=? c) && (c <=? 57))%N.

Definition named_punct (c : char) : bool :=
  ((c =? 183) || (c =? 8211) || (c =? 8212) || (c =? 8217)
   || (c =? 8220) || (c =? 8221))%N.

Definition isdecimal (U : unicode) (c : char) : bool :=
  if is_ascii c then ascii_digit c
  else if named_punct c then false
  else u_decimal U c.

Definition digit_value (U : unicode) (c : char) : N :=
  if is_ascii c then (c - 48)%N else u_digit_value U c.

Definition isword (U : unicode) (c : char) : bool :=
  if is_ascii c
  then ascii_upper c || ascii_lower c || ascii_digit c || (c =? 95)%N
  else if named_punct c then false
  else u_alnum U c.

Definition lower_char (c : char) : char :=
  if ascii_upper c then (c + 32)%N else c.

Definition lower (U : unicode) (s : str) : str :=
  if forallb is_ascii s then map lower_char s else u_lower U s.

Definition nfkd (U : unicode) (s : str) : str :=
  if forallb is_ascii s then s else u_nfkd U s.

Definition combining (U : unicode) (c : char) : bool :=
  if is_ascii c then false else u_combining U c.

(** [int(s)] on a string of decimal digits. *)
Definition int_of (U : unicode) (s : str) : N :=
  fold_left (fun acc c => (10 * acc + digit_value U c)%N) s 0%N.

(** [str(n)] for a non-negative integer. *)
Fixpoint dec_digits (fuel : nat) (n : N) (acc : str) : str :=
  match fuel with
  | O => acc
  | S f =>
      let acc' := (48 + n mod 10)%N :: acc in
      if (n <? 10)%N then acc' else dec_digits f (n / 10)%N acc'
  end.

Definition str_of_N (n : N) : str := dec_digits (S (N.to_nat (N.log2 n))) n [].

End Py.

Import Py.

(* ================================================================== *)
(** * Regular expressions, as Python's [re] runs them *)
(* ================================================================== *)

Module Re.

(** Members of a bracketed set. *)
Inductive cset :=
| CChr (c : char)
| CRng (lo hi : char)
| CDigit
| CSpace.

Inductive regex :=
| Eps
| Chr (c : char)                         (* a literal character *)
| Dot                                    (* [.]: anything but a newline *)
| Cls (neg : bool) (items : list cset)   (* [[...]] and [[^...]] *)
| Seq (r1 r2 : regex)
| Alt (r1 r2 : regex)
| Star (greedy : bool) (r : regex)       (* [r*] and [r*?] *)
| Grp (i : nat) (r : regex)              (* capturing group number [i] *)
| Bol                                    (* [^] *)
| Eol                                    (* [$] *)
| Wb                                     (* [\b] *)
| NegAhead (r : regex).                  (* [(?!r)] *)

Record flags := { ignorecase : bool; multiline : bool }.

Definition no_flags := {| ignorecase := false; multiline := false |}.
Definition flag_I := {| ignorecase := true; multiline := false |}.
Definition flag_M := {| ignorecase := false; multiline := true |}.

(** Case folding of [re.IGNORECASE] on the letters the patterns name: the
    52 ASCII letters and the four other code points that fold onto them
    (U+0130, U+0131, U+017F, U+212A). *)
Definition casefold (c : char) : char :=
  if ascii_upper c then (c + 32)%N
  else if ((c =? 304) || (c =? 305))%N then 105%N
  else if (c =? 383)%N then 115%N
  else if (c =? 8490)%N then 107%N
  else c.

Definition to_upper (c : char) : char :=
  if ascii_lower c then (c - 32)%N else c.

Definition in_range (lo hi c : char) : bool := ((lo <=? c) && (c <=? hi))%N.

Definition chr_match (fl : flags) (l c : char) : bool :=
  if ignorecase fl then (casefold l =? casefold c)%N else (l =? c)%N.

Definition cset_match (U : unicode) (fl : flags) (x : cset) (c : char) : bool :=
  match x with
  | CChr l => chr_match fl l c
  | CRng lo hi =>
      in_range lo hi c ||
      (ignorecase fl &&
       (in_range lo hi (casefold c) || in_range lo hi (to_upper (casefold c))))
  | CDigit => isdecimal U c
  | CSpace => isspace c
  end.

Definition cls_match (U : unicode) (fl : flags) (neg : bool)
    (items : list cset) (c : char) : bool :=
  xorb neg (existsb (fun x => cset_match U fl x c) items).

(** Captured groups: the last text each numbered group matched. *)
Definition caps := list (nat * str).

Fixpoint cap_get (i : nat) (cp : caps) : option str :=
  match cp with
  | [] => None
  | (j, s) :: cp' => if Nat.eqb i j then Some s else cap_get i cp'
  end.

Definition cap_set (i : nat) (s : str) (cp : caps) : caps := (i, s) :: cp.

(** A matcher state is the character before the cursor (for [^] and [\b]),
    the text from the cursor on, and the groups captured so far. *)
Definition cont (A : Type) := option char -> str -> caps -> option A.

Definition at_word (U : unicode) (o : option char) : bool :=
  match o with Some c => isword U c | None => false end.

Definition at_bol (fl : flags) (pv : option char) : bool :=
  match pv with
  | None => true
  | Some c => multiline fl && (c =? 10)%N
  end.

Definition at_eol (fl : flags) (s : str) : bool :=
  match s with
  | [] => true
  | c :: s' =>
      (c =? 10)%N && (multiline fl || match s' with [] => true | _ => false end)
  end.

(** Repetition.  Every repeated body of the patterns below consumes at
    least one character, so [length s] rounds are enough at the text [s]. *)
Fixpoint star_loop (A : Type) (g : bool)
    (body : option char -> str -> caps -> cont A -> option A)
    (k : cont A) (n : nat) (pv : option char) (s : str) (cp : caps)
    : option A :=
  match n with
  | O => k pv s cp
  | S n' =>
      if g then
        match body pv s cp (star_loop g body k n') with
        | Some a => Some a
        | None => k pv s cp
        end
      else
        match k pv s cp with
        | Some a => Some a
        | None => body pv s cp (star_loop g body k n')
        end
  end.

(** The backtracking matcher, in continuation-passing style: [k] is the
    rest of the pattern, and a failure of [k] makes the current node try its
    next alternative. *)
Fixpoint run (A : Type) (U : unicode) (fl : flags) (r : regex)
    (pv : option char) (s : str) (cp : caps) (k : cont A) {struct r}
    : option A :=
  match r with
  | Eps => k pv s cp
  | Chr l =>
      match s with
      | c :: s' => if chr_match fl l c then k (Some c) s' cp else None
      | [] => None
      end
  | Dot =>
      match s with
      | c :: s' => if (c =? 10)%N then None else k (Some c) s' cp
      | [] => None
      end
  | Cls neg items =>
      match s with
      | c :: s' => if cls_match U fl neg items c then k (Some c) s' cp else None
      | [] => None
      end
  | Seq r1 r2 =>
      run U fl r1 pv s cp (fun pv' s' cp' => run U fl r2 pv' s' cp' k)
  | Alt r1 r2 =>
      match run U fl r1 pv s cp k with
      | Some a => Some a
      | None => run U fl r2 pv s cp k
      end
  | Star g r1 => star_loop g (run (A:=A) U fl r1) k (length s) pv s cp
  | Grp i r1 =>
      run U fl r1 pv s cp
        (fun pv' s' cp' =>
           k pv' s' (cap_set i (firstn (length s - length s') s) cp'))
  | Bol => if at_bol fl pv then k pv s cp else None
  | Eol => if at_eol fl s then k pv s cp else None
  | Wb =>
      if xorb (at_word U pv) (at_word U (hd_error s)) then k pv s cp else None
  | NegAhead r1 =>
      match run U fl r1 pv s cp (fun _ _ _ => Some tt) with
      | Some _ => None
      | None => k pv s cp
      end
  end.

(** ** Pattern syntax: the derived forms *)

Definition plus (g : bool) (r : regex) : regex := Seq r (Star g r).
Definition opt (r : regex) : regex := Alt r Eps.          (* [r?] *)

Fixpoint seqs (rs : list regex) : regex :=
  match rs with
  | [] => Eps
  | [r] => r
  | r :: rs' => Seq r (seqs rs')
  end.

Fixpoint alts (rs : list regex) : regex :=
  match rs with
  | [] => Eps
  | [r] => r
  | r :: rs' => Alt r (alts rs')
  end.

(** A literal word. *)
Definition word (s : String.string) : regex := seqs (map Chr (lit s)).

Arguments word s%_string_scope.

(** Set members written as ASCII: [chars ".;:"] is the three characters,
    [rng "a" "z"] the range. *)
Definition chars (s : String.string) : list cset := map CChr (lit s).

Definition rng (lo hi : String.string) : cset :=
  CRng (hd 0%N (lit lo)) (hd 0%N (lit hi)).

Arguments chars s%_string_scope.
Arguments rng (lo hi)%_string_scope.

(** [r{1,n}], greedy. *)
Fixpoint upto (n : nat) (r : regex) : regex :=
  match n with
  | O => Eps
  | S n' => opt (Seq r (upto n' r))
  end.

Definition rep1 (n : nat) (r : regex) : regex := Seq r (upto (pred n) r).

Definition digit : regex := Cls false [CDigit].
Definition space : regex := Cls false [CSpace].
Definition spaces : regex := Star true space.              (* [\s*] *)
Definition spaces1 : regex := plus true space.             (* [\s+] *)

(** ** Matches and the functions of the [re] module *)

Record rmatch := {
  m_text : str;            (* [group(0)] *)
  m_caps : caps;
  m_prev : option char;    (* the character before the end of the match *)
  m_rest : str             (* the text after the match *)
}.

Definition group (i : nat) (m : rmatch) : option str := cap_get i (m_caps m).

(** Groups that took part in the match, as the source reads them. *)
Definition group_or_empty (i : nat) (m : rmatch) : str :=
  match group i m with Some s => s | None => [] end.

(** The end of a match.  After an empty match Python searches on from the
    same place for a match that is not empty: [must_advance]. *)
Definition accept (must_advance : bool) (s : str) : cont rmatch :=
  fun pv' s' cp' =>
    if must_advance && Nat.eqb (length s') (length s) then None
    else Some {| m_text := firstn (length s - length s') s;
                 m_caps := cp'; m_prev := pv'; m_rest := s' |}.

Definition match_at (U : unicode) (fl : flags) (r : regex)
    (must_advance : bool) (pv : option char) (s : str) : option rmatch :=
  run U fl r pv s [] (accept must_advance s).

(** The leftmost match from the cursor on, with the text skipped before it. *)
Fixpoint search_from (U : unicode) (fl : flags) (r : regex)
    (must_advance : bool) (pv : option char) (s : str)
    : option (str * rmatch) :=
  match match_at U fl r must_advance pv s with
  | Some m => Some ([], m)
  | None =>
      match s with
      | [] => None
      | c :: s' =>
          match search_from U fl r false (Some c) s' with
          | Some (skipped, m) => Some (c :: skipped, m)
          | None => None
          end
      end
  end.

(** [re.match(r, s)] and [re.search(r, s)]. *)
Definition rmatch_start (U : unicode) (fl : flags) (r : regex) (s : str)
    : option rmatch := match_at U fl r false None s.

Definition search (U : unicode) (fl : flags) (r : regex) (s : str)
    : option rmatch := option_map snd (search_from U fl r false None s).

(** All non-overlapping matches, left to right, each with the text skipped
    before it, and the text left after the last.  A text of [n] characters
    has at most [2n+1] of them. *)
Fixpoint matches_from (fuel : nat) (U : unicode) (fl : flags) (r : regex)
    (must_advance : bool) (pv : option char) (s : str)
    : list (str * rmatch) * str :=
  match fuel with
  | O => ([], s)
  | S n =>
      match search_from U fl r must_advance pv s with
      | None => ([], s)
      | Some (skipped, m) =>
          let '(ms, tl) :=
            matches_from n U fl r
              (match m_text m with [] => true | _ => false end)
              (m_prev m) (m_rest m) in
          ((skipped, m) :: ms, tl)
      end
  end.

Definition finditer (U : unicode) (fl : flags) (r : regex) (s : str)
    : list (str * rmatch) * str :=
  matches_from (S (S (2 * length s))) U fl r false None s.

(** [re.findall] for a pattern without groups, with one group, with two. *)
Definition findall0 (U : unicode) (fl : flags) (r : regex) (s : str)
    : list str := map (fun x => m_text (snd x)) (fst (finditer U fl r s)).

Definition findall1 (U : unicode) (fl : flags) (r : regex) (s : str)
    : list str :=
  map (fun x => group_or_empty 1 (snd x)) (fst (finditer U fl r s)).

Definition findall2 (U : unicode) (fl : flags) (r : regex) (s : str)
    : list (str * str) :=
  map (fun x => (group_or_empty 1 (snd x), group_or_empty 2 (snd x)))
      (fst (finditer U fl r s)).

(** [r.sub(repl, s)] with a function [repl]. *)
Definition sub (U : unicode) (fl : flags) (r : regex)
    (repl : rmatch -> str) (s : str) : str :=
  let '(ms, tl) := finditer U fl r s in
  concat (map (fun x => fst x ++ repl (snd x)) ms) ++ tl.

(** [re.split(r, s)] for a pattern without groups. *)
Definition split (U : unicode) (fl : flags) (r : regex) (s : str)
    : list str :=
  let '(ms, tl) := finditer U fl r s in
  map fst ms ++ [tl].

End Re.

Import Re.

(* ================================================================== *)
(** * [src/preproc.py]: the minute normaliser *)
(* ================================================================== *)

Module Preproc.

(** The two glyphs that close a minute besides the colon: ['] and U+2019. *)
Definition apostrophes : list cset := [CChr 39%N; CChr 8217%N].

(** [^\s*(\d{1,3})(?:\+(\d{1,2}))?\s*[:'’]\s*], with [re.M]. *)
Definition MIN_LINE : regex :=
  seqs [Bol; spaces; Grp 1 (rep1 3 digit);
        opt (Seq (word "+") (Grp 2 (rep1 2 digit)));
        spaces; Cls false (CChr 58%N :: apostrophes); spaces].

(** [\b(\d{1,3})(?:\+(\d{1,2}))?['’]?\b] *)
Definition MIN_INLINE : regex :=
  seqs [Wb; Grp 1 (rep1 3 digit);
        opt (Seq (word "+") (Grp 2 (rep1 2 digit)));
        opt (Cls false apostrophes); Wb].

(** The tag [[MIN=N]] or [[MIN=N+M]]: [int(minute)], then [+extra] when
    [extra] is truthy. *)
Definition _tag (U : unicode) (minute : str) (extra : option str) : str :=
  lit "[MIN=" ++ str_of_N (int_of U minute)
  ++ (if truthy_opt extra
      then lit "+" ++ match extra with Some e => e | None => [] end
      else [])
  ++ lit "]".

Definition repl_line (U : unicode) (m : rmatch) : str :=
  _tag U (group_or_empty 1 m) (group 2 m) ++ lit " ".

Definition repl_inline (U : unicode) (m : rmatch) : str :=
  _tag U (group_or_empty 1 m) (group 2 m).

(** The two passes of [normalise_minutes], named after their patterns. *)
Definition line_pass (U : unicode) (text : str) : str :=
  sub U flag_M MIN_LINE (repl_line U) text.

Definition inline_pass (U : unicode) (text : str) : str :=
  sub U no_flags MIN_INLINE (repl_inline U) text.

Definition normalise_minutes (U : unicode) (text : str) : str :=
  let t := line_pass U text in
  let t := inline_pass U t in
  t.

(** [clean]: dashes to hyphens, Windows and old Mac line ends to [\n], runs
    of three or more newlines to two, then the minutes. *)
Definition dash_to_hyphen (c : char) : char :=
  if ((c =? 8212) || (c =? 8211))%N then 45%N else c.

Definition CRLF : regex := Seq (Chr 13%N) (opt (Chr 10%N)).
Definition NL3 : regex :=
  seqs [Chr 10%N; Chr 10%N; Chr 10%N; Star true (Chr 10%N)].

Definition clean (U : unicode) (text : str) : str :=
  let t := map dash_to_hyphen text in
  let t := sub U no_flags CRLF (fun _ => [10%N]) t in
  let t := sub U no_flags NL3 (fun _ => [10%N; 10%N]) t in
  normalise_minutes U t.

End Preproc.

(* ================================================================== *)
(** * [src/ingest.py]: front matter and lineups *)
(* ================================================================== *)

Module Ingest.

(** ** Team normalisation *)

Definition TEAM_ALIASES : list (str * str) :=
  [ (lit "man utd", lit "Manchester United");
    (lit "manchester utd", lit "Manchester United");
    (lit "man united", lit "Manchester United");
    (lit "Manchester Utd", lit "Manchester United");
    (lit "chelsea fc", lit "Chelsea") ].

(** What the source hands to [dict.get] as a key: a string, or the bound
    method object that [nm.lower] without a call denotes. *)
Inductive pykey :=
| KStr (s : str)
| KBoundMethod (name : String.string) (self : str).

Arguments KBoundMethod name%_string_scope self.

(** [d.get(key, default)] on a dictionary with string keys: a key that is
    not a string equals none of them. *)
Fixpoint dict_get (d : list (str * str)) (key : pykey) (default : str) : str :=
  match d with
  | [] => default
  | (k, v) :: d' =>
      match key with
      | KStr s => if str_eqb s k then v else dict_get d' key default
      | KBoundMethod _ _ => dict_get d' key default
      end
  end.

(** [nm = name.strip(); return TEAM_ALIASES.get(nm.lower, nm)]: the key is
    [nm.lower], the method, not [nm.lower()], its result. *)
Definition _canon_team (name : str) : str :=
  let nm := strip name in
  dict_get TEAM_ALIASES (KBoundMethod "lower" nm) nm.

(** [[.;:,·\s]+$] *)
Definition TRAILING_PUNCT : regex :=
  Seq (plus true (Cls false (chars ".;:," ++ [CChr 183%N; CSpace]))) Eol.

Definition _strip_trailing_punct (U : unicode) (s : str) : str :=
  sub U no_flags TRAILING_PUNCT (fun _ => []) (strip s).

(** ** The line shapes *)

(** [[A-Za-z0-9 .'\-]] *)
Definition name_char : regex :=
  Cls false ([rng "A" "Z"; rng "a" "z"; rng "0" "9"] ++ chars " .'-").

(** [^\s*(?!Context\s*:)([A-Za-z0-9 .'\-]+?)\s*(?:XI|Lineup|Starting XI)?\s*:\s*(.+)$],
    with [re.I]. *)
Definition TEAM_LINE : regex :=
  seqs [Bol; spaces; NegAhead (seqs [word "Context"; spaces; word ":"]);
        Grp 1 (plus false name_char); spaces;
        opt (alts [word "XI"; word "Lineup"; word "Starting XI"]);
        spaces; word ":"; spaces; Grp 2 (plus true Dot); Eol].

(** [^\s*([A-Za-z0-9 .'\-]+?)\s*(?:Subs|Substitutes|Bench)\s*:\s*(.+)$],
    with [re.I]. *)
Definition SUBS_INLINE : regex :=
  seqs [Bol; spaces; Grp 1 (plus false name_char); spaces;
        alts [word "Subs"; word "Substitutes"; word "Bench"];
        spaces; word ":"; spaces; Grp 2 (plus true Dot); Eol].

(** [^\s*(?:Subs|Substitutes|Bench)\s*:\s*(.+)$], with [re.I]. *)
Definition SUBS_BARE : regex :=
  seqs [Bol; spaces;
        alts [word "Subs"; word "Substitutes"; word "Bench"];
        spaces; word ":"; spaces; Grp 1 (plus true Dot); Eol].

Definition comma : char := 44%N.

(** ** [_extract_frontmatter] *)

(** The loop state: context lines, lineup lines, and the team a bare
    [Subs:] line attaches to. *)
Record front_state := {
  ctx : list str;
  lups : list str;
  last_team_for_bare_subs : option str
}.

Definition add_ctx (st : front_state) (ln : str) : front_state :=
  {| ctx := ctx st ++ [ln]; lups := lups st;
     last_team_for_bare_subs := last_team_for_bare_subs st |}.

Definition add_lup (st : front_state) (ln : str) (team : option str)
    : front_state :=
  {| ctx := ctx st; lups := lups st ++ [ln]; last_team_for_bare_subs := team |}.

(** One round of the loop over the front matter. *)
Definition front_step (U : unicode) (st : front_state) (ln : str)
    : front_state :=
  if negb (truthy (strip ln)) then st else
  match rmatch_start U flag_I TEAM_LINE ln with
  | Some m_team =>
      let rhs := group_or_empty 2 m_team in
      if 5 <=? count_char comma rhs
      then add_lup st (strip ln) (Some (strip (group_or_empty 1 m_team)))
      else add_ctx st (strip ln)
  | None =>
  match rmatch_start U flag_I SUBS_INLINE ln with
  | Some m_subs_inline =>
      let rhs := group_or_empty 2 m_subs_inline in
      if 3 <=? count_char comma rhs
      then add_lup st (strip ln)
                   (Some (strip (group_or_empty 1 m_subs_inline)))
      else add_ctx st (strip ln)
  | None =>
  match rmatch_start U flag_I SUBS_BARE ln,
        truthy_opt (last_team_for_bare_subs st) with
  | Some m_subs_bare, true =>
      let rhs := group_or_empty 1 m_subs_bare in
      if 3 <=? count_char comma rhs
      then add_lup st
             (match last_team_for_bare_subs st with
              | Some t => t | None => []
              end ++ lit " Subs: " ++ strip rhs)
             (last_team_for_bare_subs st)
      else add_ctx st (strip ln)
  | _, _ => add_ctx st (strip ln)
  end end end.

Definition front_start : front_state :=
  {| ctx := []; lups := []; last_team_for_bare_subs := None |}.

Definition _extract_frontmatter (U : unicode) (front : list str)
    : list str * list str :=
  let st := fold_left (front_step U) front front_start in
  (ctx st, lups st).

(** ** [_norm_names] *)

(** [,|;|\s–\s|\s-\s|\s+–\s+] *)
Definition NAME_SEP : regex :=
  alts [word ","; word ";";
        seqs [space; Chr 8211%N; space];
        seqs [space; word "-"; space];
        seqs [spaces1; Chr 8211%N; spaces1]].

Definition _norm_names (U : unicode) (csv : str) : list str :=
  filter truthy (map (_strip_trailing_punct U) (split U no_flags NAME_SEP csv)).

(** ** [parse_lineups] *)

(** The [teams] dictionary: keys in insertion order. *)
Definition team_dict := list (str * list str).

(** [teams.setdefault(team, []).extend(names)] *)
Fixpoint setdefault_extend (team : str) (names : list str) (d : team_dict)
    : team_dict :=
  match d with
  | [] => [(team, names)]
  | (k, v) :: d' =>
      if str_eqb team k then (k, v ++ names) :: d'
      else (k, v) :: setdefault_extend team names d'
  end.

Definition keys (d : team_dict) : list str := map fst d.

Record lineup_state := {
  teams : team_dict;
  last_team : option str
}.

Definition lineup_step (U : unicode) (st : lineup_state) (ln : str)
    : lineup_state :=
  match rmatch_start U flag_I SUBS_INLINE ln with
  | Some m_subs_inline =>
      let team := _canon_team (strip (group_or_empty 1 m_subs_inline)) in
      let names := _norm_names U (group_or_empty 2 m_subs_inline) in
      {| teams := setdefault_extend team names (teams st);
         last_team := Some team |}
  | None =>
  match rmatch_start U flag_I SUBS_BARE ln, truthy_opt (last_team st) with
  | Some m_bare, true =>
      let names := _norm_names U (group_or_empty 1 m_bare) in
      {| teams := setdefault_extend
                    (match last_team st with Some t => t | None => [] end)
                    names (teams st);
         last_team := last_team st |}
  | _, _ =>
  match rmatch_start U flag_I TEAM_LINE ln with
  | Some m_team =>
      let team_raw := strip (group_or_empty 1 m_team) in
      (* hard guard: never treat literal "Subs" as a team *)
      if str_eqb (lower U team_raw) (lit "subs") then st else
      let team := _canon_team team_raw in
      let names := _norm_names U (group_or_empty 2 m_team) in
      {| teams := setdefault_extend team names (teams st);
         last_team := Some team |}
  | None => st
  end end end.

(** The inner [dedup]: strip, drop empties and repeats, keep first-seen order. *)
Fixpoint dedup_from (U : unicode) (seen : list str) (seq : list str)
    : list str :=
  match seq with
  | [] => []
  | x :: seq' =>
      let x2 := _strip_trailing_punct U x in
      if truthy x2 && negb (mem x2 seen)
      then x2 :: dedup_from U (x2 :: seen) seq'
      else dedup_from U seen seq'
  end.

Definition dedup (U : unicode) (seq : list str) : list str :=
  dedup_from U [] seq.

(** The [ValueError] of [parse_lineups]; its message is a fixed sentence
    followed by [lineup_lines!r], so the exception carries the lines. *)
Inductive error :=
| ValueError (lineup_lines : list str).

Definition teams_of (U : unicode) (lineup_lines : list str) : team_dict :=
  teams (fold_left (lineup_step U) lineup_lines
           {| teams := []; last_team := None |}).

Definition parse_lineups (U : unicode) (lineup_lines : list str)
    : error + (str * list str * str * list str) :=
  match teams_of U lineup_lines with
  | (t1, r1) :: (t2, r2) :: _ => inr (t1, dedup U r1, t2, dedup U r2)
  | _ => inl (ValueError lineup_lines)
  end.

End Ingest.

(* ================================================================== *)
(** * [src/parser.py]: the event classifier *)
(* ================================================================== *)

Module Parser.

(** ** The patterns *)

Definition upper_AZ : regex := Cls false [rng "A" "Z"].
Definition lower_az : regex := Cls false [rng "a" "z"].

(** [[A-Z][a-z]+(?:\s[A-Z][a-z]+)?]: one or two capitalised words. *)
Definition NAME : regex :=
  seqs [upper_AZ; plus true lower_az;
        opt (seqs [space; upper_AZ; plus true lower_az])].

(** [\d{1,3}(?:\+\d{1,2})?] *)
Definition MINUTE : regex :=
  Seq (rep1 3 digit) (opt (Seq (word "+") (rep1 2 digit))).

(** [\[MIN=(\d{1,3}(?:\+\d{1,2})?)\]] *)
Definition MIN_TAG : regex := seqs [word "[MIN="; Grp 1 MINUTE; word "]"].

(** [\[MIN=(?:\[MIN=)?(\d{1,3})(?:\])?\]\s*\+\[MIN=(\d{1,2})\]], with [re.I]. *)
Definition ADDED_PAIR : regex :=
  seqs [word "[MIN="; opt (word "[MIN="); Grp 1 (rep1 3 digit);
        opt (word "]"); word "]"; spaces; word "+"; word "[MIN=";
        Grp 2 (rep1 2 digit); word "]"].

(** [^\s*\[MIN=(?:\[MIN=)?(\d{1,3}(?:\+\d{1,2})?)\]] *)
Definition START_MIN : regex :=
  seqs [Bol; spaces; word "[MIN="; opt (word "[MIN="); Grp 1 MINUTE; word "]"].

(** [^\s*(\d{1,3}(?:\+\d{1,2})?)\s*[\'’]]: the inline pattern of
    [_extract_minute]. *)
Definition BARE_MIN : regex :=
  seqs [Bol; spaces; Grp 1 MINUTE; spaces; Cls false Preproc.apostrophes].

(** [^(...)+] around [[A-Z][A-Z !\-]+!] and then [\s*]: a run of shouted
    labels, each closed by an exclamation mark. *)
Definition LABEL_PREFIX : regex :=
  Seq Bol
    (plus true
       (Grp 1 (seqs [upper_AZ;
                     plus true (Cls false (rng "A" "Z" :: chars " !-"));
                     word "!"; spaces]))).

Definition not_colon : regex := Cls true (chars ":").

(** [^substitution,\s*([A-Za-z0-9 .'\-]+)\s*[:.]\s*([^:]+?)\s+replaces\s+([^:]+?)[.!]?\s*$],
    with [re.I]. *)
Definition SUB_PAT_1 : regex :=
  seqs [Bol; word "substitution,"; spaces;
        Grp 1 (plus true Ingest.name_char); spaces;
        Cls false (chars ":."); spaces;
        Grp 2 (plus false not_colon); spaces1; word "replaces"; spaces1;
        Grp 3 (plus false not_colon); opt (Cls false (chars ".!"));
        spaces; Eol].

(** [\b(NAME)\s+(?:comes on|on)\s+for\s+(NAME)], with [re.I]. *)
Definition SUB_PAT_2 : regex :=
  seqs [Wb; Grp 1 NAME; spaces1; Alt (word "comes on") (word "on");
        spaces1; word "for"; spaces1; Grp 2 NAME].

Definition lazy_any : regex := Star false Dot.               (* [.*?] *)

(** [\b(?:yellow card|booked)\b.*?\b(NAME)\b], with [re.I]. *)
Definition YC_PAT_1 : regex :=
  seqs [Wb; Alt (word "yellow card") (word "booked"); Wb; lazy_any;
        Wb; Grp 1 NAME; Wb].

(** [\b(?:red card|sent off|dismissal)\b.*?\b(NAME)\b], with [re.I]. *)
Definition RC_PAT_1 : regex :=
  seqs [Wb; alts [word "red card"; word "sent off"; word "dismissal"]; Wb;
        lazy_any; Wb; Grp 1 NAME; Wb].

(** [\bsecond yellow card\b.*?\bto\s+(NAME)\b], with [re.I]. *)
Definition RC_PAT_2 : regex :=
  seqs [Wb; word "second yellow card"; Wb; lazy_any; Wb; word "to";
        spaces1; Grp 1 NAME; Wb].

(** [^corner,\s*([A-Za-z0-9 .'\-]+)] and [^offside,\s*(...)], with [re.I]. *)
Definition CORNER_PAT : regex :=
  seqs [Bol; word "corner,"; spaces; Grp 1 (plus true Ingest.name_char)].

Definition OFFSIDE_PAT : regex :=
  seqs [Bol; word "offside,"; spaces; Grp 1 (plus true Ingest.name_char)].

(** An opening quote (straight, or U+201C), then [(.+?)], then a closing
    quote (straight, or U+201D). *)
Definition QUOTE_PAT : regex :=
  seqs [Cls false [CChr 34%N; CChr 8220%N]; Grp 1 (plus false Dot);
        Cls false [CChr 34%N; CChr 8221%N]].

Definition in_parens : regex :=
  seqs [word "("; Grp 2 (plus true (Cls true (chars ")"))); word ")"].

(** [goal!\s*[^.]*?\.\s*(NAME)\s*\(([^)]+)\)], with [re.I]. *)
Definition GOAL_PAT : regex :=
  seqs [word "goal!"; spaces; Star false (Cls true (chars "."));
        word "."; spaces; Grp 1 NAME; spaces; in_parens].

(** [\bassisted by\s+(NAME)\b], with [re.I]. *)
Definition ASSIST_PAT : regex :=
  seqs [Wb; word "assisted by"; spaces1; Grp 1 NAME; Wb].

(** [\b(NAME)\s*\(([^)]+)\)] *)
Definition NAME_TEAM_PARENS : regex :=
  seqs [Wb; Grp 1 NAME; spaces; in_parens].

(** [\b[A-Z][a-z]+(?:\s[A-Z][a-z]+)?\b]: the capitalised tokens of
    [detect_player]. *)
Definition CAPS : regex := seqs [Wb; NAME; Wb].

(** [\n+]: the line splitter of [parse_events_unbiased]. *)
Definition NEWLINES : regex := plus true (Chr 10%N).

(** ** The keyword table *)

Module KEYWORDS.
Definition goal : list str :=
  map lit ["goal!"; "scores"; "finds the net"; "puts it in"; "finishes";
           "equalises"; "equalizes"; "makes it"]%string.
Definition miss : list str :=
  map lit ["misses"; "wide"; "over the bar"; "skies it"; "sitter";
           "drags it"; "fluffs"]%string.
Definition save : list str :=
  map lit ["attempt saved"; "great save"; "parries"; "denies"; "save";
           "stops"; "claims"; "palm"]%string.
Definition block : list str := map lit ["attempt blocked"; "block"]%string.
Definition offside : list str := map lit ["offside"]%string.
Definition corner : list str := map lit ["corner,"]%string.
Definition foul : list str := map lit ["foul by"; "commits a foul"]%string.
Definition freekick : list str :=
  map lit ["wins a free kick"; "free kick in"]%string.
Definition sub : list str := map lit ["substitution,"]%string.
Definition yc : list str := map lit ["yellow card"; "booked"]%string.
Definition rc : list str :=
  map lit ["red card"; "dismissal"; "sent off"; "second yellow card"]%string.
Definition disallowed : list str :=
  map lit ["ball in the net"; "flag is up"; "ruled out"; "disallowed";
           "out of play before"; "offside in the build-up"]%string.
Definition delay : list str := map lit ["delay in match"; "delay over"]%string.
Definition added : list str := map lit ["announced"; "added time"]%string.
Definition ko : list str := map lit ["kick-off"; "kicks off"]%string.
Definition ht : list str := map lit ["half time"]%string.
Definition ft : list str := map lit ["full time"]%string.
End KEYWORDS.

(** ** Minutes *)

Definition _extract_minute (U : unicode) (s : str) (fallback : option str)
    : option str :=
  if negb (truthy s) then fallback else
  match search U flag_I ADDED_PAIR s with
  | Some m_plus =>
      Some (group_or_empty 1 m_plus ++ lit "+" ++ group_or_empty 2 m_plus)
  | None =>
  match search U no_flags START_MIN s with
  | Some m0 => group 1 m0
  | None =>
  match rmatch_start U no_flags BARE_MIN s with
  | Some m => group 1 m
  | None =>
  match findall1 U no_flags MIN_TAG s with
  | h :: _ => Some h
  | [] => fallback
  end end end end.

(** ** Names and aliases *)

Definition _strip_accents (U : unicode) (s : str) : str :=
  filter (fun ch => negb (combining U ch)) (nfkd U s).

Definition _norm (U : unicode) (s : str) : str := lower U (_strip_accents U s).

(** A Python [set] of strings: no repeats. *)
Definition set_add (x : str) (l : list str) : list str :=
  if mem x l then l else l ++ [x].

Definition set_update (xs : list str) (l : list str) : list str :=
  fold_left (fun acc x => set_add x acc) xs l.

(** The alias set of a team, before [list(...)] fixes an order. *)
Definition alias_set (U : unicode) (team : str) : list str :=
  let base := _norm U team in
  let aliases := [base] in
  let t := strip (replace_empty (lit "fc") base) in
  let aliases := set_add t aliases in
  let aliases :=
    if contains (lit "united") t || contains (lit "utd") t
    then set_update (map lit ["manchester united"; "man utd";
                              "manchester utd"; "united"]%string) aliases
    else aliases in
  let aliases :=
    if contains (lit "chelsea") t
    then set_update [lit "chelsea"] aliases
    else aliases in
  aliases.

(** [list(aliases)] lists a set in the order of the string hashes, which
    changes from one process to the next: [set_order] is that order. *)
Definition build_team_aliases (U : unicode)
    (set_order : list str -> list str) (team : str) : list str :=
  set_order (alias_set U team).

(** ** Players *)

Definition score := QArith_base.Q.

Definition score_ltb (a b : score) : bool := negb (QArith_base.Qle_bool b a).

(** [process.extractOne(query, choices, scorer=...)] of rapidfuzz: the
    choice with the best score, the earliest one among equals, with its
    score and position.  The scorer itself ([fuzz.token_sort_ratio], a
    similarity between 0 and 100) is a parameter. *)
Fixpoint extractOne_from (scorer : str -> str -> score) (query : str)
    (choices : list str) (idx : nat) (best : option (str * score * nat))
    : option (str * score * nat) :=
  match choices with
  | [] => best
  | c :: cs =>
      let sc := scorer query c in
      let best' :=
        match best with
        | Some (_, b, _) => if score_ltb b sc then Some (c, sc, idx) else best
        | None => Some (c, sc, idx)
        end in
      extractOne_from scorer query cs (S idx) best'
  end.

Definition extractOne (scorer : str -> str -> score) (query : str)
    (choices : list str) : option (str * score * nat) :=
  extractOne_from scorer query choices 0 None.

Definition cut : score := QArith_base.inject_Z 86%Z.

Definition fuzzy_in (U : unicode) (scorer : str -> str -> score)
    (name : str) (roster : list str) : option str :=
  if negb (truthy name) || match roster with [] => true | _ => false end
  then None else
  let candidates := map (fun p => (p, _strip_accents U p)) roster in
  let lookup := map snd candidates in
  match extractOne scorer (_strip_accents U name) lookup with
  | Some (cand, sc, idx) =>
      if QArith_base.Qle_bool cut sc
      then option_map fst (nth_error candidates idx)
      else None
  | None => None
  end.

(** The first roster name that occurs in [low], if any. *)
Definition first_in (U : unicode) (low : str) (roster : list str)
    : option str :=
  find (fun nm => contains (lower U (_strip_accents U nm)) low) roster.

(** The capitalised tokens, in order: the first that resembles a name of
    either roster. *)
Fixpoint first_fuzzy (U : unicode) (scorer : str -> str -> score)
    (caps : list str) (roster1 roster2 : list str)
    : option str * option nat :=
  match caps with
  | [] => (None, None)
  | token :: caps' =>
      if truthy_opt (fuzzy_in U scorer token roster1) then (Some token, Some 1)
      else if truthy_opt (fuzzy_in U scorer token roster2)
      then (Some token, Some 2)
      else first_fuzzy U scorer caps' roster1 roster2
  end.

Definition detect_player (U : unicode) (scorer : str -> str -> score)
    (line : str) (roster1 roster2 : list str) : option str * option nat :=
  let low := _norm U line in
  match first_in U low roster1 with
  | Some nm => (Some nm, Some 1)
  | None =>
  match first_in U low roster2 with
  | Some nm => (Some nm, Some 2)
  | None =>
      let caps := findall0 U no_flags CAPS line in
      first_fuzzy U scorer caps roster1 roster2
  end end.

(** ** Ownership *)

Fixpoint team_of_parens (U : unicode) (found : list (str * str))
    (aliases1 aliases2 : list str) : option nat :=
  match found with
  | [] => None
  | (_name, team_in_parens) :: found' =>
      let tnorm := _norm U team_in_parens in
      if any_in aliases1 tnorm then Some 1
      else if any_in aliases2 tnorm then Some 2
      else team_of_parens U found' aliases1 aliases2
  end.

Definition _team_idx_from_parens (U : unicode) (line : str)
    (aliases1 aliases2 : list str) : option nat :=
  team_of_parens U (findall2 U no_flags NAME_TEAM_PARENS line)
    aliases1 aliases2.

(** Truth value of an index that is [None], 1 or 2. *)
Definition truthy_idx (idx : option nat) : bool :=
  match idx with Some (S _) => true | _ => false end.

Definition owns_event (U : unicode) (scorer : str -> str -> score)
    (line : str) (aliases1 aliases2 : list str) (roster1 roster2 : list str)
    : option nat :=
  let idx := _team_idx_from_parens U line aliases1 aliases2 in
  if truthy_idx idx then idx else
  let low := _norm U line in
  if any_in aliases1 low then Some 1
  else if any_in aliases2 low then Some 2
  else snd (detect_player U scorer line roster1 roster2).

(** [(scorer_name, team_idx, assist_name_or_None)] *)
Definition parse_goal (U : unicode) (line : str)
    (aliases1 aliases2 : list str)
    : option str * option nat * option str :=
  let '(scorer, team_idx) :=
    match search U flag_I GOAL_PAT line with
    | Some m =>
        let lowt := _norm U (group_or_empty 2 m) in
        (group 1 m,
         if any_in aliases1 lowt then Some 1
         else if any_in aliases2 lowt then Some 2
         else None)
    | None => (None, None)
    end in
  let assist :=
    match search U flag_I ASSIST_PAT line with
    | Some ma => group 1 ma
    | None => None
    end in
  (scorer, team_idx, assist).

(** ** Events *)

Record event := {
  t : str;
  etype : str;
  player : option str;
  note : str
}.

Definition mk (minute : str) (ety : str) (pl : option str) (nt : str)
    : event := {| t := minute; etype := ety; player := pl; note := nt |}.

Definition idx_is (idx : option nat) (n : nat) : bool :=
  match idx with Some i => Nat.eqb i n | None => false end.

(** [ours = (idx == 1) if our_is_1 else (idx == 2)] *)
Definition ours_of (our_is_1 : bool) (idx : option nat) : bool :=
  if our_is_1 then idx_is idx 1 else idx_is idx 2.

(** ['US' if ours else 'OPP'] *)
Definition us_opp (ours : bool) : str := if ours then lit "US" else lit "OPP".

(** [idx or 1] *)
Definition or_1 (idx : option nat) : option nat :=
  if truthy_idx idx then idx else Some 1.

(** [1 if _norm(team) in aliases1 else 2 if _norm(team) in aliases2 else None] *)
Definition named_team (U : unicode) (team : str) (aliases1 aliases2 : list str)
    : option nat :=
  if mem (_norm U team) aliases1 then Some 1
  else if mem (_norm U team) aliases2 then Some 2
  else None.

Definition or_else (a b : option str) : option str :=
  if truthy_opt a then a else b.

(** ** The classifier *)

Section Classifier.

Variable U : unicode.
Variable scorer : str -> str -> score.
Variables aliases1 aliases2 : list str.
Variables roster1 roster2 : list str.
Variable our_is_1 : bool.

(** The base type of a generic attempt: the [elif] chain after the
    disallowed-goal test. *)
Definition attempt_type (low : str) : option str :=
  if any_in KEYWORDS.save low then Some (lit "SAVE")
  else if any_in KEYWORDS.block low then Some (lit "BLOCK")
  else if any_in KEYWORDS.miss low then Some (lit "MISS")
  else if any_in KEYWORDS.foul low then Some (lit "FOUL")
  else if any_in KEYWORDS.freekick low then Some (lit "FREEKICK")
  else None.

(** The type an attempt is reported under. *)
Definition mapped_type (ety : str) (ours : bool) : str :=
  if str_eqb ety (lit "GOAL")
  then (if ours then lit "OUR_GOAL" else lit "OPP_GOAL")
  else if str_eqb ety (lit "MISS")
  then (if ours then lit "OUR_BIG_CHANCE_MISSED"
        else lit "OPP_BIG_CHANCE_MISSED")
  else if mem ety (map lit ["SAVE"; "BLOCK"; "FOUL"; "FREEKICK"]%string)
  then ety ++ lit "_" ++ us_opp ours
  else ety.

Definition sub_event (minute onp offp line_wo_label : str) (idx : option nat)
    : event :=
  let ours := ours_of our_is_1 idx in
  mk minute (lit "SUB_" ++ us_opp ours) (Some onp)
     (onp ++ lit " on for " ++ offp ++ lit ". " ++ line_wo_label).

(** Goals: the structured pattern, else general ownership, else team 1. *)
Definition goal_event (minute line : str) : event :=
  let '(scorer_name, idx0, assist) := parse_goal U line aliases1 aliases2 in
  let idx :=
    match idx0 with
    | None =>
        or_1 (owns_event U scorer line aliases1 aliases2 roster1 roster2)
    | Some _ => idx0
    end in
  let ety := if idx_is idx 1 then lit "OUR_GOAL" else lit "OPP_GOAL" in
  let pl :=
    or_else scorer_name (fst (detect_player U scorer line roster1 roster2)) in
  mk minute ety pl line.

(** Red cards, direct or second yellow. *)
Definition rc_event (minute line : str) : event :=
  let who0 := _team_idx_from_parens U line aliases1 aliases2 in
  let nm :=
    match search U flag_I RC_PAT_2 line with
    | Some m2 => group 1 m2
    | None =>
        match search U flag_I RC_PAT_1 line with
        | Some m1 => group 1 m1
        | None => None
        end
    end in
  let who_idx :=
    match who0 with
    | None =>
        or_1 (owns_event U scorer line aliases1 aliases2 roster1 roster2)
    | Some _ => who0
    end in
  let ety := if idx_is who_idx 1 then lit "RC_US" else lit "RC_OPP" in
  mk minute ety nm line.

(** Yellow cards. *)
Definition yc_event (minute line : str) : event :=
  let who0 := _team_idx_from_parens U line aliases1 aliases2 in
  let nm :=
    match search U no_flags NAME_TEAM_PARENS line with
    | Some m_par => group 1 m_par
    | None =>
        match search U flag_I YC_PAT_1 line with
        | Some m1 => group 1 m1
        | None => None
        end
    end in
  let who_idx :=
    match who0 with
    | None =>
        or_1 (owns_event U scorer line aliases1 aliases2 roster1 roster2)
    | Some _ => who0
    end in
  let ety := if idx_is who_idx 1 then lit "YC_US" else lit "YC_OPP" in
  mk minute ety nm line.

(** A corner or an offside named with its team. *)
Definition prefixed_event (kind : str) (minute line_wo_label : str)
    (m : rmatch) : event :=
  let team := strip (group_or_empty 1 m) in
  let idx := named_team U team aliases1 aliases2 in
  let ours := ours_of our_is_1 idx in
  mk minute (kind ++ us_opp ours) None line_wo_label.

Definition disallowed_event (minute line_wo_label : str) : event :=
  let idx :=
    owns_event U scorer line_wo_label aliases1 aliases2 roster1 roster2 in
  let ours := ours_of our_is_1 idx in
  mk minute (lit "DISALLOWED_GOAL_" ++ us_opp ours) None line_wo_label.

Definition attempt_event (minute line_wo_label : str) (label : option str)
    (ety : str) : event :=
  let '(pl, idx0) := detect_player U scorer line_wo_label roster1 roster2 in
  let idx :=
    if negb (truthy_idx idx0)
    then owns_event U scorer line_wo_label aliases1 aliases2 roster1 roster2
    else idx0 in
  let ours := ours_of our_is_1 idx in
  let mapped := mapped_type ety ours in
  let nt :=
    match label with
    | Some lb =>
        if truthy lb
        then lit "[" ++ strip lb ++ lit "] " ++ line_wo_label
        else line_wo_label
    | None => line_wo_label
    end in
  mk minute mapped pl nt.

(** Steps 4 to 12 on one line: what is appended after the quotes. *)
Definition classify (minute line line_wo_label : str) (label : option str)
    : list event :=
  let low := _norm U line_wo_label in
  if any_in KEYWORDS.ko low
  then [mk minute (lit "KICK_OFF") None line]
  else if any_in KEYWORDS.ht low || any_in KEYWORDS.ft low then []
  else if contains (lit "delay in match") low
  then [mk minute (lit "DELAY") None line]
  else if contains (lit "delay over") low
  then [mk minute (lit "RESUME") None line]
  else if contains (lit "added time") low || contains (lit "has announced") low
  then [mk minute (lit "ADDED_TIME") None line]
  else
  match rmatch_start U flag_I SUB_PAT_1 line_wo_label with
  | Some msub1 =>
      let team := strip (group_or_empty 1 msub1) in
      let onp := strip (group_or_empty 2 msub1) in
      let offp := strip (group_or_empty 3 msub1) in
      [sub_event minute onp offp line_wo_label
         (named_team U team aliases1 aliases2)]
  | None =>
  match search U flag_I SUB_PAT_2 line_wo_label with
  | Some msub2 =>
      let onp := strip (group_or_empty 1 msub2) in
      let offp := strip (group_or_empty 2 msub2) in
      [sub_event minute onp offp line_wo_label
         (snd (detect_player U scorer line_wo_label roster1 roster2))]
  | None =>
  if any_in KEYWORDS.goal low then [goal_event minute line]
  else if any_in KEYWORDS.rc low then [rc_event minute line]
  else if any_in KEYWORDS.yc low
  then (if contains (lit "second yellow card") low then []
        else [yc_event minute line])
  else
  match rmatch_start U flag_I CORNER_PAT line_wo_label with
  | Some mcorner => [prefixed_event (lit "CORNER_") minute line_wo_label mcorner]
  | None =>
  match rmatch_start U flag_I OFFSIDE_PAT line_wo_label with
  | Some moff => [prefixed_event (lit "OFFSIDE_") minute line_wo_label moff]
  | None =>
  if any_in KEYWORDS.disallowed low
  then [disallowed_event minute line_wo_label]
  else
  match attempt_type low with
  | Some ety => [attempt_event minute line_wo_label label ety]
  | None =>
      if truthy_opt label
      then [mk minute (lit "LABEL") None line_wo_label]
      else []
  end end end end end.

(** The quotes of a line, each an event of its own. *)
Definition quote_events (minute line_wo_label : str) : list event :=
  map (fun q => mk minute (lit "QUOTE") None (strip q))
      (findall1 U no_flags QUOTE_PAT line_wo_label).

(** The shouted prefix of a line, stripped, and the line without it. *)
Definition split_label (line : str) : option str * str :=
  match rmatch_start U no_flags LABEL_PREFIX line with
  | Some lp => (Some (strip (m_text lp)), m_rest lp)
  | None => (None, line)
  end.

(** One round of the loop: the carried minute, and the events appended. *)
Definition process_line (cur_min : option str) (line : str)
    : option str * list event :=
  let minute := _extract_minute U line cur_min in
  match minute with
  | None => (cur_min, [])
  | Some mn =>
      if negb (truthy mn) then (cur_min, []) else
      let '(label, line_wo_label) := split_label line in
      (minute,
       quote_events mn line_wo_label ++ classify mn line line_wo_label label)
  end.

(** The loop, from a carried minute and the events so far. *)
Fixpoint run_lines (cur_min : option str) (events : list event)
    (lines : list str) : option str * list event :=
  match lines with
  | [] => (cur_min, events)
  | line :: lines' =>
      let '(cur_min', new) := process_line cur_min line in
      run_lines cur_min' (events ++ new) lines'
  end.

End Classifier.

(** [[ln.strip() for ln in re.split(r"\n+", text) if ln.strip()]] *)
Definition split_lines (U : unicode) (text : str) : list str :=
  map strip (filter (fun ln => truthy (strip ln))
                    (split U no_flags NEWLINES text)).

Definition parse_events_unbiased (U : unicode)
    (set_order : list str -> list str) (scorer : str -> str -> score)
    (text : str) (team1 : str) (roster1 : list str)
    (team2 : str) (roster2 : list str) (our_team : str) : list event :=
  let aliases1 := build_team_aliases U set_order team1 in
  let aliases2 := build_team_aliases U set_order team2 in
  let our_is_1 := mem (_norm U our_team) aliases1 in
  let lines := split_lines U text in
  snd (run_lines U scorer aliases1 aliases2 roster1 roster2 our_is_1
         None [] lines).

End Parser.

(* ================================================================== *)
(** * More of Python's strings *)
(* ================================================================== *)

Module PyMore.

(** The line boundaries of [str.splitlines]. *)
Definition is_linebreak (c : char) : bool :=
  ((10 <=? c) && (c <=? 13) || (28 <=? c) && (c <=? 30)
   || (c =? 133) || (c =? 8232) || (c =? 8233))%N.

(** [s.splitlines()]: [cur] is the line being read, backwards, and
    [after_cr] says that the last character was a carriage return, which a
    line feed then completes. *)
Fixpoint splitlines_from (cur : str) (after_cr : bool) (s : str) : list str :=
  match s with
  | [] => match cur with [] => [] | _ => [rev cur] end
  | c :: s' =>
      if after_cr && (c =? 10)%N then splitlines_from cur false s'
      else if is_linebreak c
      then rev cur :: splitlines_from [] (c =? 13)%N s'
      else splitlines_from (c :: cur) false s'
  end.

Definition splitlines (s : str) : list str := splitlines_from [] false s.

(** [s.split(c)] for a one-character separator. *)
Fixpoint split_char (c : char) (s : str) : list str :=
  match s with
  | [] => [[]]
  | x :: s' =>
      if char_eqb c x then [] :: split_char c s'
      else match split_char c s' with
           | f :: fs => (x :: f) :: fs
           | [] => [[x]]
           end
  end.

(** [s.endswith(p)] *)
Definition ends_with (p s : str) : bool := starts_with (rev p) (rev s).

(** The digits of [int(s)]: decimal digits, with single underscores
    allowed between two of them. *)
Fixpoint int_digits (U : unicode) (acc : N) (after_digit : bool) (s : str)
    : option N :=
  match s with
  | [] => if after_digit then Some acc else None
  | c :: s' =>
      if (c =? 95)%N
      then (if after_digit then int_digits U acc false s' else None)
      else if isdecimal U c
      then int_digits U (10 * acc + digit_value U c)%N true s'
      else None
  end.

(** The blanks [int] drops around a number: those of [str.isspace] but
    for the separators U+001C to U+001F, which [int] does not take. *)
Definition int_space (c : char) : bool :=
  isspace c && negb ((28 <=? c) && (c <=? 31))%N.

Fixpoint int_lstrip (s : str) : str :=
  match s with
  | [] => []
  | c :: s' => if int_space c then int_lstrip s' else s
  end.

Definition int_strip (s : str) : str := rev (int_lstrip (rev (int_lstrip s))).

(** [sys.get_int_max_str_digits()], which the program leaves at its
    default. *)
Definition MAX_STR_DIGITS : N := 4300.

(** The digits the limit counts: underscores are left out. *)
Definition digit_count (s : str) : N :=
  N.of_nat (length (filter (fun c => negb (c =? 95)%N) s)).

(** The number written by [body], the text after the sign. *)
Definition int_body (U : unicode) (body : str) : option N :=
  if (MAX_STR_DIGITS <? digit_count body)%N then None
  else int_digits U 0 false body.

(** [int(s)] for a string: blanks around it are dropped, a sign may come
    first; [None] stands for the [ValueError]. *)
Definition int_str (U : unicode) (s : str) : option Z :=
  match int_strip s with
  | 45%N :: body => option_map (fun n => (- Z.of_N n)%Z) (int_body U body)
  | 43%N :: body => option_map Z.of_N (int_body U body)
  | body => option_map Z.of_N (int_body U body)
  end.

End PyMore.

(* ================================================================== *)
(** * [src/ingest.py]: the section splitter and the lineup fallback *)
(* ================================================================== *)

Module Splitter.

Import Ingest.

(** [\d{1,3}(?:\+\d{1,2})?] *)
Definition MINUTE : regex :=
  Seq (rep1 3 digit) (opt (Seq (word "+") (rep1 2 digit))).

(** The three glyphs that close a raw minute. *)
Definition closers : regex := Cls false (CChr 58%N :: Preproc.apostrophes).

(** [^\s*(?: MINUTE [:'’] | \[MIN= MINUTE \] )], with [re.M]. *)
Definition MIN_LINE_OR_TAG : regex :=
  seqs [Bol; spaces;
        Alt (Seq MINUTE closers) (seqs [word "[MIN="; MINUTE; word "]"])].

(** The first index at which [p] holds. *)
Fixpoint first_index (p : str -> bool) (lines : list str) : option nat :=
  match lines with
  | [] => None
  | ln :: lines' =>
      if p ln then Some 0 else option_map S (first_index p lines')
  end.

Definition is_minute_line (U : unicode) (ln : str) : bool :=
  match rmatch_start U flag_M MIN_LINE_OR_TAG ln with
  | Some _ => true
  | None => false
  end.

(** [(context_lines, lineup_lines, commentary_lines)] *)
Definition split_sections (U : unicode) (raw : str)
    : list str * list str * list str :=
  let lines := map rstrip (PyMore.splitlines raw) in
  match first_index (is_minute_line U) lines with
  | None =>
      let '(ctx, lups) := _extract_frontmatter U lines in
      (ctx, lups, [])
  | Some first_min_idx =>
      let front := firstn first_min_idx lines in
      let comm := skipn first_min_idx lines in
      let '(ctx, lups) := _extract_frontmatter U front in
      (ctx, lups, filter (fun ln => truthy (strip ln)) comm)
  end.

(** [^\s*\[MIN= MINUTE \]\s*] and [^\s* MINUTE [:'’]\s*]: the minute in
    front of a commentary line. *)
Definition MIN_TAG_PREFIX : regex :=
  seqs [Bol; spaces; word "[MIN="; MINUTE; word "]"; spaces].

Definition MIN_RAW_PREFIX : regex :=
  seqs [Bol; spaces; MINUTE; closers; spaces].

Record fallback_state := {
  lineup_like : list str;
  fb_last_team : option str
}.

(** One round of the loop of [extract_lineups_from_commentary]. *)
Definition fallback_step (U : unicode) (st : fallback_state) (ln : str)
    : fallback_state :=
  if negb (truthy (strip ln)) then st else
  let core := sub U no_flags MIN_TAG_PREFIX (fun _ => []) ln in
  let core := strip (sub U no_flags MIN_RAW_PREFIX (fun _ => []) core) in
  match rmatch_start U flag_I SUBS_INLINE core with
  | Some m_subs =>
      let team := _canon_team (strip (group_or_empty 1 m_subs)) in
      let rhs := strip (group_or_empty 2 m_subs) in
      if 3 <=? count_char comma rhs
      then {| lineup_like := lineup_like st ++ [team ++ lit " Subs: " ++ rhs];
              fb_last_team := Some team |}
      else st
  | None =>
  match rmatch_start U flag_I SUBS_BARE core with
  | Some m_bare =>
      match fb_last_team st with
      | Some lt =>
          if truthy lt then
            let rhs := strip (group_or_empty 1 m_bare) in
            if 3 <=? count_char comma rhs
            then {| lineup_like :=
                      lineup_like st ++ [_canon_team lt ++ lit " Subs: " ++ rhs];
                    fb_last_team := fb_last_team st |}
            else st
          else st
      | None => st
      end
  | None =>
  match rmatch_start U flag_I TEAM_LINE core with
  | Some m_team =>
      let team := _canon_team (strip (group_or_empty 1 m_team)) in
      let rhs := strip (group_or_empty 2 m_team) in
      if 5 <=? count_char comma rhs
      then {| lineup_like := lineup_like st ++ [team ++ lit ": " ++ rhs];
              fb_last_team := Some team |}
      else st
  | None => st
  end end end.

Definition extract_lineups_from_commentary (U : unicode)
    (comm_lines : list str) : list str :=
  lineup_like (fold_left (fallback_step U) comm_lines
                 {| lineup_like := []; fb_last_team := None |}).

End Splitter.

(* ================================================================== *)
(** * [src/memory.py]: the match memory *)
(* ================================================================== *)

Module Memory.

Import Parser.

(** What a timeline holds: an event, that is a dictionary with its type,
    or anything else, which [build_memory] steps over. *)
Inductive item :=
| Event (e : event)
| Other.

(** A [defaultdict(int)], keys in insertion order. *)
Definition ledger := list (str * N).

(** [d[k] += n] *)
Fixpoint ledger_add (k : str) (n : N) (d : ledger) : ledger :=
  match d with
  | [] => [(k, n)]
  | (k', v) :: d' =>
      if str_eqb k k' then (k', (v + n)%N) :: d'
      else (k', v) :: ledger_add k n d'
  end.

(** The counters of the loop. *)
Record tally := {
  hero : ledger;
  blame : ledger;
  ref_heat : N;
  quotes : list str;
  pressure_for : N;
  pressure_against : N
}.

Definition tally_start : tally :=
  {| hero := []; blame := []; ref_heat := 0; quotes := [];
     pressure_for := 0; pressure_against := 0 |}.

Definition is_type (e : event) (s : String.string) : bool :=
  str_eqb (etype e) (lit s).

Arguments is_type e s%_string_scope.

(** One round of the loop over the events. *)
Definition tally_step (U : unicode) (tl : tally) (it : item) : tally :=
  match it with
  | Other => tl
  | Event e =>
      let et := etype e in
      let pl := player e in
      let nt := lower U (note e) in
      let named := truthy_opt pl in
      let who := match pl with Some p => p | None => [] end in
      let goal := is_type e "OUR_GOAL" && named in
      let miss := is_type e "OUR_BIG_CHANCE_MISSED" && named in
      let corner_us :=
        starts_with (lit "CORNER_") et && PyMore.ends_with (lit "_US") et in
      let corner_opp :=
        starts_with (lit "CORNER_") et
        && negb (PyMore.ends_with (lit "_US") et) in
      let dis_us :=
        starts_with (lit "DISALLOWED_GOAL_") et
        && PyMore.ends_with (lit "_US") et in
      let dis_opp :=
        starts_with (lit "DISALLOWED_GOAL_") et
        && negb (PyMore.ends_with (lit "_US") et) in
      {| hero := if goal then ledger_add who 2 (hero tl) else hero tl;
         blame := if miss then ledger_add who 1 (blame tl) else blame tl;
         ref_heat :=
           (ref_heat tl
            + (if is_type e "YC_US" || is_type e "RC_US" then 1 else 0)
            + (if contains (lit "deflect") nt || contains (lit "controvers") nt
                  || contains (lit "var") nt then 1 else 0))%N;
         quotes :=
           if is_type e "QUOTE" then quotes tl ++ [note e] else quotes tl;
         pressure_for :=
           (pressure_for tl + (if goal then 2 else 0) + (if miss then 1 else 0)
            + (if corner_us then 1 else 0) + (if dis_us then 1 else 0))%N;
         pressure_against :=
           (pressure_against tl
            + (if is_type e "OPP_GOAL" then 2 else 0)
            + (if is_type e "OPP_BIG_CHANCE_MISSED" then 1 else 0)
            + (if corner_opp then 1 else 0) + (if dis_opp then 1 else 0))%N |}
  end.

(** The dictionary [build_memory] returns. *)
Record memory := {
  match_id : str;
  team : str;
  teams : list str;
  rosters : list (str * list str);
  timeline : list item;
  hero_ledger : ledger;
  blame_ledger : ledger;
  mem_ref_heat : N;
  mem_pressure_for : N;
  mem_pressure_against : N;
  context : list str;
  mem_quotes : list str
}.

Definition build_memory (U : unicode) (match_id our_team : str)
    (team1 : str) (roster1 : list str) (team2 : str) (roster2 : list str)
    (events : list item) (context_lines : list str) : memory :=
  let tl := fold_left (tally_step U) events tally_start in
  {| match_id := match_id;
     team := our_team;
     teams := [team1; team2];
     rosters := if str_eqb team1 team2 then [(team1, roster2)]
                else [(team1, roster1); (team2, roster2)];
     timeline := events;
     hero_ledger := hero tl;
     blame_ledger := blame tl;
     mem_ref_heat := ref_heat tl;
     mem_pressure_for := pressure_for tl;
     mem_pressure_against := pressure_against tl;
     context := context_lines;
     mem_quotes := quotes tl |}.

End Memory.

(* ================================================================== *)
(** * [src/analytics.py]: the value of a minute, the statistics *)
(* ================================================================== *)

Module Analytics.

Import Parser.

(** [_minute_val]: [45+2] is 47, [12] is 12; [None] stands for the
    [ValueError] of [int] or of unpacking a split that is not a pair. *)
Definition _minute_val (U : unicode) (m : str) : option Z :=
  if contains (lit "+") m then
    match PyMore.split_char 43%N m with
    | [base; extra] =>
        match PyMore.int_str U base, PyMore.int_str U extra with
        | Some b, Some e => Some (b + e)%Z
        | _, _ => None
        end
    | _ => None
    end
  else PyMore.int_str U m.

(** [s or d] for a string that may be [None]. *)
Definition or_str (o : option str) (d : str) : str :=
  match o with
  | Some s => if truthy s then s else d
  | None => d
  end.

(** [a < b] on strings: by code points, a proper prefix first. *)
Fixpoint str_ltb (a b : str) : bool :=
  match a, b with
  | _, [] => false
  | [], _ :: _ => true
  | x :: a', y :: b' => (x <? y)%N || ((x =? y)%N && str_ltb a' b')
  end.

(** [p < q] on pairs of a minute and a name. *)
Definition pair_ltb (p q : Z * str) : bool :=
  (fst p <? fst q)%Z || ((fst p =? fst q)%Z && str_ltb (snd p) (snd q)).

(** [sorted(l)]: stable, ascending. *)
Fixpoint insert_sorted (x : Z * str) (l : list (Z * str)) : list (Z * str) :=
  match l with
  | [] => [x]
  | y :: l' => if pair_ltb x y then x :: l else y :: insert_sorted x l'
  end.

Definition sorted (l : list (Z * str)) : list (Z * str) :=
  fold_right insert_sorted [] (rev l).

(** [max(l, key=...)] from a first element on: the first of the greatest. *)
Fixpoint max_from (A : Type) (key : A -> Z) (best : A) (l : list A) : A :=
  match l with
  | [] => best
  | x :: l' => max_from key (if (key best <? key x)%Z then x else best) l'
  end.

(** [max(l, key=..., default=None)] *)
Definition max_by (A : Type) (key : A -> Z) (l : list A) : option A :=
  match l with
  | [] => None
  | x :: l' => Some (max_from key x l')
  end.

(** The counters of the loop. *)
Record counts := {
  c_goals_for : N;
  c_goals_against : N;
  scorers_for : list (Z * str);
  scorers_against : list (Z * str);
  c_cards_us : N;
  c_cards_opp : N;
  c_misses_us : N;
  c_misses_opp : N
}.

Definition counts_start : counts :=
  {| c_goals_for := 0; c_goals_against := 0;
     scorers_for := []; scorers_against := [];
     c_cards_us := 0; c_cards_opp := 0; c_misses_us := 0; c_misses_opp := 0 |}.

Definition is_type (e : event) (s : String.string) : bool :=
  str_eqb (etype e) (lit s).

Arguments is_type e s%_string_scope.

(** One round of the loop of [compute_stats]; [None] stands for the
    exception: the [ValueError] of [_minute_val], or the error of
    [e["etype"]] on an item that is no event. *)
Definition count_step (U : unicode) (c : counts) (it : Memory.item)
    : option counts :=
  match it with
  | Memory.Other => None
  | Memory.Event e =>
      let pl := or_str (player e) (lit "Unknown") in
      let tm := if truthy (t e) then t e else lit "0" in
      match _minute_val U tm with
      | None => None
      | Some minute =>
          Some
            (if is_type e "OUR_GOAL" then
               {| c_goals_for := c_goals_for c + 1;
                  c_goals_against := c_goals_against c;
                  scorers_for := scorers_for c ++ [(minute, pl)];
                  scorers_against := scorers_against c;
                  c_cards_us := c_cards_us c; c_cards_opp := c_cards_opp c;
                  c_misses_us := c_misses_us c;
                  c_misses_opp := c_misses_opp c |}
             else if is_type e "OPP_GOAL" then
               {| c_goals_for := c_goals_for c;
                  c_goals_against := c_goals_against c + 1;
                  scorers_for := scorers_for c;
                  scorers_against := scorers_against c ++ [(minute, pl)];
                  c_cards_us := c_cards_us c; c_cards_opp := c_cards_opp c;
                  c_misses_us := c_misses_us c;
                  c_misses_opp := c_misses_opp c |}
             else if is_type e "YC_US" || is_type e "RC_US" then
               {| c_goals_for := c_goals_for c;
                  c_goals_against := c_goals_against c;
                  scorers_for := scorers_for c;
                  scorers_against := scorers_against c;
                  c_cards_us := c_cards_us c + 1; c_cards_opp := c_cards_opp c;
                  c_misses_us := c_misses_us c;
                  c_misses_opp := c_misses_opp c |}
             else if is_type e "YC_OPP" || is_type e "RC_OPP" then
               {| c_goals_for := c_goals_for c;
                  c_goals_against := c_goals_against c;
                  scorers_for := scorers_for c;
                  scorers_against := scorers_against c;
                  c_cards_us := c_cards_us c; c_cards_opp := c_cards_opp c + 1;
                  c_misses_us := c_misses_us c;
                  c_misses_opp := c_misses_opp c |}
             else if is_type e "OUR_BIG_CHANCE_MISSED" then
               {| c_goals_for := c_goals_for c;
                  c_goals_against := c_goals_against c;
                  scorers_for := scorers_for c;
                  scorers_against := scorers_against c;
                  c_cards_us := c_cards_us c; c_cards_opp := c_cards_opp c;
                  c_misses_us := c_misses_us c + 1;
                  c_misses_opp := c_misses_opp c |}
             else if is_type e "OPP_BIG_CHANCE_MISSED" then
               {| c_goals_for := c_goals_for c;
                  c_goals_against := c_goals_against c;
                  scorers_for := scorers_for c;
                  scorers_against := scorers_against c;
                  c_cards_us := c_cards_us c; c_cards_opp := c_cards_opp c;
                  c_misses_us := c_misses_us c;
                  c_misses_opp := c_misses_opp c + 1 |}
             else c)
      end
  end.

Fixpoint count_loop (U : unicode) (c : counts) (events : list Memory.item)
    : option counts :=
  match events with
  | [] => Some c
  | it :: events' =>
      match count_step U c it with
      | Some c' => count_loop U c' events'
      | None => None
      end
  end.

(** The events of the timeline that satisfy [p]; an item that is no
    event raises. *)
Fixpoint events_where (p : event -> bool) (events : list Memory.item)
    : option (list event) :=
  match events with
  | [] => Some []
  | Memory.Other :: _ => None
  | Memory.Event e :: events' =>
      match events_where p events' with
      | Some l => Some (if p e then e :: l else l)
      | None => None
      end
  end.

(** Each candidate with [_minute_val(e["t"])], the key of [max]. *)
Fixpoint with_minutes (U : unicode) (l : list event)
    : option (list (Z * event)) :=
  match l with
  | [] => Some []
  | e :: l' =>
      match _minute_val U (t e), with_minutes U l' with
      | Some v, Some r => Some ((v, e) :: r)
      | _, _ => None
      end
  end.

(** [max(candidates, key=lambda e: _minute_val(e["t"]), default=None)],
    with the value of its minute. *)
Definition latest (U : unicode) (p : event -> bool)
    (events : list Memory.item) : option (option (Z * event)) :=
  match events_where p events with
  | None => None
  | Some l =>
      match with_minutes U l with
      | None => None
      | Some keyed => Some (max_by fst keyed)
      end
  end.

(** [(e["t"], e.get("note", ...))]: an event always has its note. *)
Definition moment (e : event) : str * str := (t e, note e).

(** The key moment: the last goal of ours after a win; after a loss the
    last goal of theirs, or our last miss when it is later; after a draw
    the last goal. *)
Definition key_moment_of (U : unicode) (gf ga : N)
    (events : list Memory.item) : option (option (str * str)) :=
  if (ga <? gf)%N then
    match latest U (fun e => is_type e "OUR_GOAL") events with
    | None => None
    | Some last => Some (option_map (fun x => moment (snd x)) last)
    end
  else if (gf <? ga)%N then
    match latest U (fun e => is_type e "OPP_GOAL") events,
          latest U (fun e => is_type e "OUR_BIG_CHANCE_MISSED") events with
    | Some last_opp, Some last_us_miss =>
        let cand :=
          match last_us_miss, last_opp with
          | Some miss, None => Some miss
          | Some miss, Some opp =>
              if (fst opp <? fst miss)%Z then Some miss else Some opp
          | None, _ => last_opp
          end in
        Some (option_map (fun x => moment (snd x)) cand)
    | _, _ => None
    end
  else
    match latest U (fun e => is_type e "OUR_GOAL" || is_type e "OPP_GOAL")
            events with
    | None => None
    | Some last_goal => Some (option_map (fun x => moment (snd x)) last_goal)
    end.

(** The players our events name: [e.get("player")] for the events whose
    type starts with [OUR_] and that name one. *)
Fixpoint us_names (events : list Memory.item) : list str :=
  match events with
  | [] => []
  | Memory.Other :: events' => us_names events'
  | Memory.Event e :: events' =>
      if starts_with (lit "OUR_") (etype e) && truthy_opt (player e)
      then match player e with
           | Some p => p :: us_names events'
           | None => us_names events'
           end
      else us_names events'
  end.

(** [Counter(names)]: counts, keys in the order of first occurrence. *)
Definition counter (names : list str) : Memory.ledger :=
  fold_left (fun d n => Memory.ledger_add n 1 d) names [].

(** The first key of the greatest value: [max(d.items(), key=kv[1])[0]],
    and [Counter.most_common(1)[0][0]] as well. *)
Definition top_key (d : Memory.ledger) : option str :=
  option_map fst (max_by (fun kv => Z.of_N (snd kv)) d).

(** Man of the match: the top of the hero ledger; else our earliest
    scorer; else the name our events give most; else a fixed phrase. *)
Definition motm_of (hero : Memory.ledger) (scorers_for : list (Z * str))
    (events : list Memory.item) : str :=
  match top_key hero with
  | Some k => k
  | None =>
      match sorted scorers_for with
      | first :: _ => snd first
      | [] =>
          match top_key (counter (us_names events)) with
          | Some k => k
          | None => lit "a standout Blue"
          end
      end
  end.

(** The dictionary [compute_stats] returns. *)
Record stats := {
  scoreline : str;
  goals_for : N;
  goals_against : N;
  our_scorers : list str;
  opp_scorers : list str;
  cards_us : N;
  cards_opp : N;
  misses_us : N;
  misses_opp : N;
  motm : str;
  key_moment : option (str * str);
  ref_heat : N
}.

(** [compute_stats] on a memory as [build_memory] makes it, with all its
    keys; [None] stands for an exception. *)
Definition compute_stats (U : unicode) (memory : Memory.memory)
    : option stats :=
  let events := Memory.timeline memory in
  match count_loop U counts_start events with
  | None => None
  | Some c =>
      let gf := c_goals_for c in
      let ga := c_goals_against c in
      match key_moment_of U gf ga events with
      | None => None
      | Some km =>
          Some {| scoreline := str_of_N gf ++ lit "-" ++ str_of_N ga;
                  goals_for := gf;
                  goals_against := ga;
                  our_scorers := map snd (sorted (scorers_for c));
                  opp_scorers := map snd (sorted (scorers_against c));
                  cards_us := c_cards_us c;
                  cards_opp := c_cards_opp c;
                  misses_us := c_misses_us c;
                  misses_opp := c_misses_opp c;
                  motm := motm_of (Memory.hero_ledger memory) (scorers_for c)
                            events;
                  key_moment := km;
                  ref_heat := Memory.mem_ref_heat memory |}
      end
  end.

End Analytics.

(* ================================================================== *)
(** * [src/bias_mode.py]: the mode of the persona *)
(* ================================================================== *)

Module BiasMode.

Inductive mode :=
| SUPPORTIVE
| RANT.

(** [select_mode]; [None] stands for an exception of [compute_stats]. *)
Definition select_mode (U : unicode) (memory : Memory.memory) : option mode :=
  match Analytics.compute_stats U memory with
  | None => None
  | Some stats =>
      let gf := Z.of_N (Analytics.goals_for stats) in
      let ga := Z.of_N (Analytics.goals_against stats) in
      let pa := Z.of_N (Memory.mem_pressure_against memory) in
      let pf := Z.of_N (Memory.mem_pressure_for memory) in
      let cards_us := Z.of_N (Analytics.cards_us stats) in
      if (ga <=? gf)%Z then Some SUPPORTIVE else
      let margin := (ga - gf)%Z in
      if (2 <=? margin)%Z then Some RANT
      else if (margin =? 1)%Z
              && ((3 <=? pa - pf)%Z || (2 <=? cards_us)%Z || (3 <=? ga)%Z)
      then Some RANT
      else Some SUPPORTIVE
  end.

End BiasMode.

(* ================================================================== *)
(** * [run_from_text.py]: from the raw text to the memory *)
(* ================================================================== *)

Module Run.

(** ["\n".join(lines)] *)
Fixpoint join_lines (lines : list str) : str :=
  match lines with
  | [] => []
  | [ln] => ln
  | ln :: lines' => ln ++ 10%N :: join_lines lines'
  end.

(** The lineups: from the front matter, else from the commentary; the
    error of the front matter again when the commentary gives no line. *)
Definition lineups (U : unicode) (lineup_lines comm_lines_raw : list str)
    : Ingest.error + (str * list str * str * list str) :=
  match Ingest.parse_lineups U lineup_lines with
  | inr r => inr r
  | inl e =>
      match Splitter.extract_lineups_from_commentary U comm_lines_raw with
      | [] => inl e
      | cand => Ingest.parse_lineups U cand
      end
  end.

(** The body of [main] between reading the text and writing the memory:
    [our] is the option [--our], [match_id] the option [--match_id]. *)
Definition main (U : unicode) (set_order : list str -> list str)
    (scorer : str -> str -> Parser.score)
    (raw : str) (our : option str) (match_id : str)
    : Ingest.error + Memory.memory :=
  let '(ctx_lines, lineup_lines, comm_lines_raw) :=
    Splitter.split_sections U raw in
  match lineups U lineup_lines comm_lines_raw with
  | inl e => inl e
  | inr (team1, roster1, team2, roster2) =>
      let our_team := Analytics.or_str our team1 in
      let comm_text_clean := Preproc.clean U (join_lines comm_lines_raw) in
      let events :=
        Parser.parse_events_unbiased U set_order scorer comm_text_clean
          team1 roster1 team2 roster2 our_team in
      inr (Memory.build_memory U match_id our_team team1 roster1
             team2 roster2 (map Memory.Event events) ctx_lines)
  end.

End Run.

(* ================================================================== *)
(** * Fixed inputs for the examples *)
(* ================================================================== *)

Module Sample.

(** A Unicode database with nothing outside ASCII.  The examples are
    ASCII text, on which the database is never consulted. *)
Definition ascii_only : unicode :=
  {| u_decimal := fun _ => false;
     u_digit_value := fun _ => 0%N;
     u_alnum := fun _ => false;
     u_lower := fun s => s;
     u_nfkd := fun s => s;
     u_combining := fun _ => false |}.

(** Two orders in which a set may be listed. *)
Definition as_built (l : list str) : list str := l.
Definition reversed (l : list str) : list str := rev l.

(** A scorer that finds nothing similar. *)
Definition no_similarity (a b : str) : Parser.score := QArith_base.inject_Z 0.

End Sample.

(* ================================================================== *)
(** * Notions the properties are stated with *)
(* ================================================================== *)

Module Notions.

(** [s.split(c)]: the fields between the occurrences of [c]. *)
Fixpoint split_on (c : char) (s : str) : list str :=
  match s with
  | [] => [[]]
  | x :: s' =>
      if char_eqb c x then [] :: split_on c s'
      else match split_on c s' with
           | f :: fs => (x :: f) :: fs
           | [] => [[x]]
           end
  end.

(** The number of comma-separated entries of a list written as text. *)
Definition entries (rhs : str) : nat := length (split_on Ingest.comma rhs).

(** Card events. *)
Definition is_red (e : Parser.event) : bool :=
  str_eqb (Parser.etype e) (lit "RC_US") || str_eqb (Parser.etype e) (lit "RC_OPP").

Definition is_yellow (e : Parser.event) : bool :=
  str_eqb (Parser.etype e) (lit "YC_US") || str_eqb (Parser.etype e) (lit "YC_OPP").

Definition is_card (e : Parser.event) : bool := is_red e || is_yellow e.

Definition count_cards (evs : list Parser.event) : nat :=
  length (filter is_card evs).

Definition is_some (A : Type) (o : option A) : bool :=
  match o with Some _ => true | None => false end.

(** Group [i] takes part in every match of [r]. *)
Fixpoint always_sets (i : nat) (r : regex) : bool :=
  match r with
  | Grp j r1 => Nat.eqb i j || always_sets i r1
  | Seq r1 r2 => always_sets i r1 || always_sets i r2
  | Alt r1 r2 => always_sets i r1 && always_sets i r2
  | _ => false
  end.

(** A line that a step before the cards takes: kick-off, half or full
    time, delay, added time, a substitution, a goal. *)
Definition taken_before_cards (U : unicode) (line_wo_label : str) : bool :=
  let low := Parser._norm U line_wo_label in
  any_in Parser.KEYWORDS.ko low
  || any_in Parser.KEYWORDS.ht low || any_in Parser.KEYWORDS.ft low
  || contains (lit "delay in match") low
  || contains (lit "delay over") low
  || contains (lit "added time") low || contains (lit "has announced") low
  || is_some (rmatch_start U flag_I Parser.SUB_PAT_1 line_wo_label)
  || is_some (search U flag_I Parser.SUB_PAT_2 line_wo_label)
  || any_in Parser.KEYWORDS.goal low.

(** Every match of [r] reads at least one character; [stars_consume]: the
    body of every repetition in [r] does. *)
Fixpoint consuming (r : regex) : bool :=
  match r with
  | Chr _ | Dot | Cls _ _ => true
  | Seq r1 r2 => consuming r1 || consuming r2
  | Alt r1 r2 => consuming r1 && consuming r2
  | Grp _ r1 => consuming r1
  | _ => false
  end.

Fixpoint stars_consume (r : regex) : bool :=
  match r with
  | Star _ r1 => consuming r1 && stars_consume r1
  | Seq r1 r2 | Alt r1 r2 => stars_consume r1 && stars_consume r2
  | Grp _ r1 | NegAhead r1 => stars_consume r1
  | _ => true
  end.

(** The patterns of the three source files. *)
Definition all_patterns : list regex :=
  [ Preproc.MIN_LINE; Preproc.MIN_INLINE; Preproc.CRLF; Preproc.NL3;
    Ingest.TRAILING_PUNCT; Ingest.TEAM_LINE; Ingest.SUBS_INLINE;
    Ingest.SUBS_BARE; Ingest.NAME_SEP;
    Parser.MIN_TAG; Parser.ADDED_PAIR; Parser.START_MIN; Parser.BARE_MIN;
    Parser.LABEL_PREFIX; Parser.SUB_PAT_1; Parser.SUB_PAT_2;
    Parser.YC_PAT_1; Parser.RC_PAT_1; Parser.RC_PAT_2; Parser.CORNER_PAT;
    Parser.OFFSIDE_PAT; Parser.QUOTE_PAT; Parser.GOAL_PAT; Parser.ASSIST_PAT;
    Parser.NAME_TEAM_PARENS; Parser.CAPS; Parser.NEWLINES ].

(** What a successful run leaves in the captures: the groups it had, and
    the groups the pattern always sets. *)
Definition caps_grow (r : regex) (cp cp' : caps) : Prop :=
  forall i, always_sets i r = true \/ is_some (cap_get i cp) = true ->
            is_some (cap_get i cp') = true.

(** The character before the cursor once [s] has been read. *)
Definition prev_after (pv : option char) (s : str) : option char :=
  fold_left (fun _ c => Some c) s pv.

(** The shape of a line that opens with a minute: ASCII digits, an
    apostrophe (straight, or U+2019), blanks that are not newlines, and a
    rest that holds no newline and does not open with a blank. *)
Definition all_digits (s : str) : bool := forallb ascii_digit s.

Definition apostrophe (q : char) : bool := ((q =? 39) || (q =? 8217))%N.

Definition blank_in_line (c : char) : bool := isspace c && negb (c =? 10)%N.

Definition one_line (s : str) : bool := forallb (fun c => negb (c =? 10)%N) s.

Definition starts_solid (s : str) : bool :=
  match s with c :: _ => negb (isspace c) | [] => true end.

Definition starts_nondigit (U : unicode) (s : str) : bool :=
  match s with c :: _ => negb (isdecimal U c) | [] => true end.

(** The ten ASCII digits, and the test that printing the number a minute
    denotes gives the minute back, leading zeros apart. *)
Definition digit_chars : str := [48; 49; 50; 51; 52; 53; 54; 55; 56; 57]%N.


(** The groups [MIN_LINE] captures on a minute [n] with stoppage [extra]. *)
Definition minute_caps (n : str) (extra : option str) : caps :=
  match extra with
  | Some m => [(2, m); (1, n)]
  | None => [(1, n)]
  end.

(** A stoppage part, when there is one, is one or two ASCII digits. *)
Definition extra_ok (extra : option str) : bool :=
  match extra with
  | Some m => all_digits m && (1 <=? length m) && (length m <=? 2)
  | None => true
  end.

(** The stoppage part of a minute, [+M] or nothing, as text. *)
Definition plus_text (extra : option str) : str :=
  match extra with Some m => lit "+" ++ m | None => [] end.

(** Two lists with the same members. *)
Definition same_members (l l' : list str) : Prop :=
  forall x, In x l <-> In x l'.

(** The minute a line resolves to, given the one carried to it: what
    the rules find when that is a non-empty minute, nothing otherwise. *)
Definition resolved (U : unicode) (carried : option str) (line : str)
    : option str :=
  match Parser._extract_minute U line carried with
  | Some mn => if truthy mn then Some mn else None
  | None => None
  end.

(** The specification's [current_minute] after some lines, written from
    its words and not from the loop: the minute of the last line that
    resolved one, and the minute carried in when no line did. *)
Fixpoint carried_minute (U : unicode) (cur : option str) (lines : list str)
    : option str :=
  match lines with
  | [] => cur
  | line :: lines' =>
      match resolved U cur line with
      | Some mn => carried_minute U (Some mn) lines'
      | None => carried_minute U cur lines'
      end
  end.

End Notions.

(* ================================================================== *)
(** * More sample parameters *)
(* ================================================================== *)

Module MoreSample.

(** A scorer that knows equal strings only. *)
Definition exact_only (a b : str) : Parser.score :=
  if str_eqb a b then QArith_base.inject_Z 100 else QArith_base.inject_Z 0.

(** A short match report: a line of context, the two lineups, three
    minutes of commentary. *)
Definition report : str :=
  lit "Villa Park, Saturday" ++ [10%N]
  ++ lit "Leeds United: Meslier, Ayling, Cooper, Struijk, Firpo, Adams"
  ++ [10%N]
  ++ lit "Aston Villa: Martinez, Cash, Konsa, Mings, Digne, Luiz" ++ [10%N]
  ++ lit "12' Goal! Leeds United 1, Aston Villa 0. Patrick Bamford (Leeds United) from close range."
  ++ [10%N]
  ++ lit "45+2' Mings (Aston Villa) is shown the yellow card." ++ [10%N]
  ++ lit "60' Goal! Leeds United 1, Aston Villa 1. Ollie Watkins (Aston Villa) header."
  ++ [10%N].

(** A timeline written by hand: two goals of ours, one of theirs. *)
Definition timeline : list Memory.item :=
  [ Memory.Event (Parser.mk (lit "12") (lit "OUR_GOAL")
                    (Some (lit "Bamford")) (lit "Goal! Bamford."));
    Memory.Event (Parser.mk (lit "45+2") (lit "OPP_GOAL")
                    None (lit "Goal! Own goal."));
    Memory.Event (Parser.mk (lit "7") (lit "OUR_GOAL")
                    (Some (lit "Ayling")) (lit "Goal! Ayling.")) ].

Definition memory : Memory.memory :=
  Memory.build_memory Sample.ascii_only (lit "trial") (lit "Leeds United")
    (lit "Leeds United") [] (lit "Aston Villa") [] timeline [].

(** Three goals of theirs, none of ours. *)
Definition heavy_defeat : Memory.memory :=
  Memory.build_memory Sample.ascii_only (lit "trial") (lit "Leeds United")
    (lit "Leeds United") [] (lit "Aston Villa") []
    [ Memory.Event (Parser.mk (lit "3") (lit "OPP_GOAL") None (lit "Goal!"));
      Memory.Event (Parser.mk (lit "30") (lit "OPP_GOAL") None (lit "Goal!"));
      Memory.Event (Parser.mk (lit "90+1") (lit "OPP_GOAL") None
                      (lit "Goal!")) ] [].

End MoreSample.

(* ================================================================== *)
(** * Notions for the further properties *)
(* ================================================================== *)

Module MoreNotions.

Import Notions.

(** The pattern holds a group numbered [i]. *)
Fixpoint has_group (i : nat) (r : regex) : bool :=
  match r with
  | Grp j r1 => Nat.eqb i j || has_group i r1
  | Seq r1 r2 | Alt r1 r2 => has_group i r1 || has_group i r2
  | Star _ r1 => has_group i r1
  | NegAhead r1 => has_group i r1
  | _ => false
  end.

(** Every match of the pattern reads a decimal digit. *)
Fixpoint reads_digit (r : regex) : bool :=
  match r with
  | Cls false [CDigit] => true
  | Seq r1 r2 => reads_digit r1 || reads_digit r2
  | Alt r1 r2 => reads_digit r1 && reads_digit r2
  | Grp _ r1 => reads_digit r1
  | _ => false
  end.

(** [t] lies inside [s]. *)
Definition infix (t s : str) : Prop := exists a b, s = a ++ t ++ b.

(** What a run has done when it reaches its continuation: it has read
    [pre]; the groups outside [G] are as they were; a group that changed
    holds a part of [pre]. *)
Definition Reads (G : nat -> bool) (pre : str)
    (pv : option char) (s : str) (cp : caps)
    (pv' : option char) (s' : str) (cp' : caps) : Prop :=
  s = pre ++ s'
  /\ pv' = prev_after pv pre
  /\ (forall i, G i = false -> cap_get i cp' = cap_get i cp)
  /\ (forall i t, cap_get i cp' = Some t ->
                  cap_get i cp = Some t \/ infix t pre).

(** Neither a carriage return nor an en or em dash. *)
Definition plain (c : char) : Prop :=
  c <> 13%N /\ c <> 8211%N /\ c <> 8212%N.

(** The texts a pattern can read, whatever stands around them: the
    assertions ([^], [$], [\b], a lookahead) read nothing. *)
Inductive lang (U : unicode) (fl : flags) : regex -> str -> Prop :=
| lang_eps : lang U fl Eps []
| lang_chr l c : chr_match fl l c = true -> lang U fl (Chr l) [c]
| lang_dot c : (c =? 10)%N = false -> lang U fl Dot [c]
| lang_cls neg items c :
    cls_match U fl neg items c = true -> lang U fl (Cls neg items) [c]
| lang_seq r1 r2 a b :
    lang U fl r1 a -> lang U fl r2 b -> lang U fl (Seq r1 r2) (a ++ b)
| lang_alt_l r1 r2 a : lang U fl r1 a -> lang U fl (Alt r1 r2) a
| lang_alt_r r1 r2 a : lang U fl r2 a -> lang U fl (Alt r1 r2) a
| lang_star_nil g r : lang U fl (Star g r) []
| lang_star_cons g r a b :
    lang U fl r a -> lang U fl (Star g r) b -> lang U fl (Star g r) (a ++ b)
| lang_grp i r a : lang U fl r a -> lang U fl (Grp i r) a
| lang_bol : lang U fl Bol []
| lang_eol : lang U fl Eol []
| lang_wb : lang U fl Wb []
| lang_ahead r : lang U fl (NegAhead r) [].

(** [Grp i r'] stands in the pattern, outside every lookahead. *)
Fixpoint grp_in (i : nat) (r' r : regex) : Prop :=
  match r with
  | Grp j r1 => (i = j /\ r' = r1) \/ grp_in i r' r1
  | Seq r1 r2 | Alt r1 r2 => grp_in i r' r1 \/ grp_in i r' r2
  | Star _ r1 => grp_in i r' r1
  | _ => False
  end.

(** A group that is set holds what it had, or a text of a pattern that
    carries its number. *)
Definition caps_from (U : unicode) (fl : flags) (r : regex)
    (cp cp' : caps) : Prop :=
  forall i t, cap_get i cp' = Some t ->
    cap_get i cp = Some t \/ exists r', grp_in i r' r /\ lang U fl r' t.

(** A non-empty run of decimal digits. *)
Definition digits (U : unicode) (d : str) : bool :=
  truthy d && forallb (isdecimal U) d.

(** A minute as the events carry it: [N] of one to three digits, or
    [N+M] with [M] of one or two. *)
Definition minute_shape (U : unicode) (m : str) : Prop :=
  exists b, digits U b = true /\ length b <= 3
    /\ (m = b
        \/ exists e, digits U e = true /\ length e <= 2
                     /\ m = b ++ 43%N :: e).

(** The types an event can carry: what the classifier gives a line, and
    the quotes. *)
Definition classified_types : list str :=
  map lit ["KICK_OFF"; "DELAY"; "RESUME"; "ADDED_TIME"; "SUB_US"; "SUB_OPP";
           "OUR_GOAL"; "OPP_GOAL"; "RC_US"; "RC_OPP"; "YC_US"; "YC_OPP";
           "CORNER_US"; "CORNER_OPP"; "OFFSIDE_US"; "OFFSIDE_OPP";
           "DISALLOWED_GOAL_US"; "DISALLOWED_GOAL_OPP";
           "SAVE_US"; "SAVE_OPP"; "BLOCK_US"; "BLOCK_OPP";
           "OUR_BIG_CHANCE_MISSED"; "OPP_BIG_CHANCE_MISSED";
           "FOUL_US"; "FOUL_OPP"; "FREEKICK_US"; "FREEKICK_OPP";
           "LABEL"]%string.

Definition event_types : list str := classified_types ++ [lit "QUOTE"].

Definition is_quote (e : Parser.event) : bool :=
  str_eqb (Parser.etype e) (lit "QUOTE").

(** A text without a decimal digit. *)
Definition digitless (U : unicode) (s : str) : Prop :=
  forallb (fun c => negb (isdecimal U c)) s = true.

(** A line that is not blank. *)
Definition nonblank (ln : str) : bool := truthy (strip ln).

(** Every match of the pattern reads the character [c], written as
    itself in the pattern. *)
Fixpoint reads_char (c : char) (r : regex) : bool :=
  match r with
  | Chr l => (l =? c)%N
  | Seq r1 r2 => reads_char c r1 || reads_char c r2
  | Alt r1 r2 => reads_char c r1 && reads_char c r2
  | Grp _ r1 => reads_char c r1
  | _ => false
  end.

(** A name is clean: not empty, and without comma or semicolon. *)
Definition clean_name (x : str) : Prop :=
  x <> [] /\ ~ In 44%N x /\ ~ In 59%N x.

(** The names collected for the teams hold no comma and no semicolon. *)
Definition clean_values (d : Ingest.team_dict) : Prop :=
  forall k v x, In (k, v) d -> In x v -> ~ In 44%N x /\ ~ In 59%N x.

(** The dictionary [d'] continues [d]: the same teams in the same
    order, each with its names and maybe more after them, and maybe more
    teams after these. *)
Definition grows (d d' : Ingest.team_dict) : Prop :=
  exists d1 extra,
    d' = d1 ++ extra
    /\ Forall2 (fun a b => fst a = fst b
                           /\ exists more, snd b = snd a ++ more) d d1.

(** Every match of the pattern reads a character that is no blank:
    one written in the pattern, or one of a set of such. *)
Definition solid_item (x : cset) : bool :=
  match x with
  | CChr l => negb (isspace l)
  | _ => false
  end.

Fixpoint reads_solid (r : regex) : bool :=
  match r with
  | Chr l => negb (isspace l)
  | Cls false items => forallb solid_item items
  | Seq r1 r2 => reads_solid r1 || reads_solid r2
  | Alt r1 r2 => reads_solid r1 && reads_solid r2
  | Grp _ r1 => reads_solid r1
  | _ => false
  end.

(** The sum of a ledger. *)
Definition ledger_total (d : Memory.ledger) : N :=
  fold_right (fun kv acc => (snd kv + acc)%N) 0%N d.

(** How many events of a timeline satisfy [p]. *)
Definition count_events (p : Parser.event -> bool) (items : list Memory.item)
    : N :=
  N.of_nat (length (filter (fun it => match it with
                                      | Memory.Event e => p e
                                      | Memory.Other => false
                                      end) items)).

(** The notes of the quotes of a timeline, in order. *)
Definition quote_notes (items : list Memory.item) : list str :=
  flat_map (fun it => match it with
                      | Memory.Event e =>
                          if is_quote e then [Parser.note e] else []
                      | Memory.Other => []
                      end) items.

Definition named (e : Parser.event) : bool := truthy_opt (Parser.player e).

Definition our_goal (e : Parser.event) : bool :=
  Memory.is_type e "OUR_GOAL" && named e.

Definition our_miss (e : Parser.event) : bool :=
  Memory.is_type e "OUR_BIG_CHANCE_MISSED" && named e.

(** A type that begins with [pre] and ends with [_US]. *)
Definition for_us (pre : String.string) (e : Parser.event) : bool :=
  starts_with (lit pre) (Parser.etype e)
  && PyMore.ends_with (lit "_US") (Parser.etype e).

Arguments for_us pre%_string_scope e.

(** What a line of the lineup fallback looks like: a team, the word for
    the bench or nothing, a colon, and a list with commas enough. *)
Definition lineup_like_line (ln : str) : Prop :=
  exists team rhs,
    (ln = team ++ lit " Subs: " ++ rhs
     /\ 3 <= count_char Ingest.comma rhs)
    \/ (ln = team ++ lit ": " ++ rhs
        /\ 5 <= count_char Ingest.comma rhs).

(** The events of a timeline, the items that are none left out. *)
Definition events_of (items : list Memory.item) : list Parser.event :=
  flat_map (fun it => match it with
                      | Memory.Event e => [e]
                      | Memory.Other => []
                      end) items.

(** The names [compute_stats] lists for the goals of one side: the
    player of each, [Unknown] when there is none. *)
Definition scorer_names (ty : String.string) (items : list Memory.item)
    : list str :=
  map (fun e => Analytics.or_str (Parser.player e) (lit "Unknown"))
      (filter (fun e => Analytics.is_type e ty) (events_of items)).

Arguments scorer_names ty%_string_scope items.

Definition has_type (ty : String.string) (e : Parser.event) : bool :=
  Analytics.is_type e ty.

Arguments has_type ty%_string_scope e.

Definition card_of (side : String.string) (e : Parser.event) : bool :=
  str_eqb (Parser.etype e) (lit "YC_" ++ lit side)
  || str_eqb (Parser.etype e) (lit "RC_" ++ lit side).

Arguments card_of side%_string_scope e.

(** A timeline of events only, each with a minute that is not empty and
    has a value. *)
Definition valued (U : unicode) (items : list Memory.item) : Prop :=
  forall it, In it items ->
    exists e v, it = Memory.Event e /\ Parser.t e <> []
                /\ Analytics._minute_val U (Parser.t e) = Some v.

(** One shouted label: a capital, more, an exclamation mark, blanks. *)
Definition label_piece : regex :=
  Grp 1 (seqs [Parser.upper_AZ;
               plus true (Cls false (rng "A" "Z" :: chars " !-"));
               word "!"; spaces]).

(** The number a minute of digits denotes, printed: one to three ASCII
    digits again, which print as themselves. *)
Definition renders_ok (U : unicode) (n : str) : bool :=
  let k := str_of_N (int_of U n) in
  all_digits k && (1 <=? length k) && (length k <=? 3)
  && str_eqb (str_of_N (int_of U k)) k.

End MoreNotions.

(* ================================================================== *)
(** * Strings and lists *)
(* ================================================================== *)

Lemma str_eqb_eq (a b : str) : str_eqb a b = true <-> a = b.
Proof.
  revert b; induction a as [|x a IH]; intros [|y b]; simpl; split;
    try congruence; try discriminate.
  - intros H. apply andb_true_iff in H as [H1 H2].
    apply N.eqb_eq in H1. apply IH in H2. congruence.
  - intros H. injection H as -> ->. apply andb_true_iff. split.
    + apply N.eqb_refl.
    + apply IH. reflexivity.
Qed.

Lemma str_eqb_refl (a : str) : str_eqb a a = true.
Proof. apply str_eqb_eq. reflexivity. Qed.

Lemma str_eqb_neq (a b : str) : str_eqb a b = false <-> a <> b.
Proof.
  split.
  - intros H E. apply str_eqb_eq in E. congruence.
  - intros H. destruct (str_eqb a b) eqn:E; [|reflexivity].
    apply str_eqb_eq in E. contradiction.
Qed.

Lemma mem_In (x : str) (l : list str) : mem x l = true <-> In x l.
Proof.
  unfold mem. rewrite existsb_exists. split.
  - intros [y [Hy He]]. apply str_eqb_eq in He. subst. exact Hy.
  - intros H. exists x. split; [exact H | apply str_eqb_refl].
Qed.

Lemma split_on_nonempty (c : char) (s : str) : Notions.split_on c s <> [].
Proof.
  induction s as [|x s IH]; simpl.
  - discriminate.
  - destruct (char_eqb c x); [discriminate|].
    destruct (Notions.split_on c s); discriminate.
Qed.

Lemma split_on_length (c : char) (s : str) :
  length (Notions.split_on c s) = S (count_char c s).
Proof.
  unfold count_char.
  induction s as [|x s IH]; simpl.
  - reflexivity.
  - destruct (char_eqb c x); simpl.
    + f_equal. exact IH.
    + destruct (Notions.split_on c s) eqn:E.
      * exfalso. exact (split_on_nonempty _ _ E).
      * simpl in *. exact IH.
Qed.

Lemma entries_count (rhs : str) :
  Notions.entries rhs = S (count_char Ingest.comma rhs).
Proof. apply split_on_length. Qed.

(* ================================================================== *)
(** * Front matter and lineups *)
(* ================================================================== *)

Section FrontMatter.

Import Ingest Notions.

Variable U : unicode.

(** C4, as amended.  A non-blank front-matter line of the shape
    [Name: list] is a lineup line exactly when the text after the colon
    holds at least five commas, that is at least six comma-separated
    entries; with fewer it is a context line.  Here [m] is the match of
    [TEAM_LINE] on the line: group 1 the name, group 2 the list. *)
Theorem team_line_is_lineup_from_six_entries
    (st : front_state) (ln : str) (m : rmatch) :
  truthy (strip ln) = true ->
  rmatch_start U flag_I TEAM_LINE ln = Some m ->
  front_step U st ln =
    (if 6 <=? entries (group_or_empty 2 m)
     then add_lup st (strip ln) (Some (strip (group_or_empty 1 m)))
     else add_ctx st (strip ln))
  /\ _extract_frontmatter U [ln] =
     (if 6 <=? entries (group_or_empty 2 m)
      then ([], [strip ln])
      else ([strip ln], [])).
Proof.
  intros Hne Hm.
  assert (Hstep : forall st0, front_step U st0 ln =
            (if 6 <=? entries (group_or_empty 2 m)
             then add_lup st0 (strip ln) (Some (strip (group_or_empty 1 m)))
             else add_ctx st0 (strip ln))).
  { intros st0. unfold front_step. rewrite Hne, Hm. simpl negb. cbv iota.
    rewrite entries_count. reflexivity. }
  split.
  - apply Hstep.
  - unfold _extract_frontmatter. simpl fold_left. rewrite Hstep.
    destruct (6 <=? entries (group_or_empty 2 m)); reflexivity.
Qed.

(** [_canon_team] hands the method [nm.lower] to the table, so that no key
    is ever found and the name comes back stripped, whatever it is. *)
Lemma canon_team_is_strip (name : str) : _canon_team name = strip name.
Proof. reflexivity. Qed.

(** ** The teams dictionary *)

Lemma keys_setdefault_extend (team : str) (names : list str) (d : team_dict) :
  keys (setdefault_extend team names d) =
  if mem team (keys d) then keys d else keys d ++ [team].
Proof.
  induction d as [|[k v] d IH]; simpl.
  - reflexivity.
  - destruct (str_eqb team k) eqn:E; simpl.
    + reflexivity.
    + unfold keys in *. rewrite IH.
      destruct (mem team (map fst d)); reflexivity.
Qed.

Lemma NoDup_snoc (A : Type) (l : list A) (x : A) :
  NoDup l -> ~ In x l -> NoDup (l ++ [x]).
Proof.
  intros Hl Hx. apply NoDup_rev in Hl.
  rewrite <- (rev_involutive (l ++ [x])). apply NoDup_rev.
  rewrite rev_app_distr. simpl. constructor.
  - rewrite <- in_rev. exact Hx.
  - exact Hl.
Qed.

Lemma setdefault_extend_NoDup (team : str) (names : list str) (d : team_dict) :
  NoDup (keys d) -> NoDup (keys (setdefault_extend team names d)).
Proof.
  intros H. rewrite keys_setdefault_extend.
  destruct (mem team (keys d)) eqn:E.
  - exact H.
  - apply NoDup_snoc; [exact H|].
    intros Hin. apply mem_In in Hin. congruence.
Qed.

Lemma lineup_step_NoDup (st : lineup_state) (ln : str) :
  NoDup (keys (teams st)) -> NoDup (keys (teams (lineup_step U st ln))).
Proof.
  intros H. unfold lineup_step.
  destruct (rmatch_start U flag_I SUBS_INLINE ln).
  { simpl. apply setdefault_extend_NoDup, H. }
  destruct (rmatch_start U flag_I SUBS_BARE ln);
    destruct (truthy_opt (last_team st));
    try (simpl; apply setdefault_extend_NoDup, H);
    destruct (rmatch_start U flag_I TEAM_LINE ln); try exact H;
    destruct (str_eqb _ _); try exact H;
    simpl; apply setdefault_extend_NoDup, H.
Qed.

Lemma fold_lineup_NoDup (lines : list str) (st : lineup_state) :
  NoDup (keys (teams st)) ->
  NoDup (keys (teams (fold_left (lineup_step U) lines st))).
Proof.
  revert st. induction lines as [|ln lines IH]; intros st H; simpl.
  - exact H.
  - apply IH, lineup_step_NoDup, H.
Qed.

Lemma teams_of_NoDup (lines : list str) : NoDup (keys (teams_of U lines)).
Proof. unfold teams_of. apply fold_lineup_NoDup. simpl. constructor. Qed.


End FrontMatter.

Section FrontMatterExamples.

Import Ingest Sample.

(** The witness of C4 as amended: six entries make a lineup line. *)
Lemma six_entries_lineup_witness :
  _extract_frontmatter ascii_only [lit "Chelsea XI: A, B, C, D, E, F"]
  = ([], [lit "Chelsea XI: A, B, C, D, E, F"]).
Proof.
  edestruct (team_line_is_lineup_from_six_entries ascii_only front_start
               (lit "Chelsea XI: A, B, C, D, E, F")) as [_ H].
  - reflexivity.
  - vm_compute. reflexivity.
  - rewrite H. vm_compute. reflexivity.
Defined.

(** The counterexample to C4 as stated: a list of exactly five entries
    after the name is kept as context, not as a lineup line. *)
Lemma five_entries_are_context :
  Notions.entries (lit "A, B, C, D, E") = 5
  /\ _extract_frontmatter ascii_only [lit "Arsenal: A, B, C, D, E"]
     = ([lit "Arsenal: A, B, C, D, E"], []).
Proof. split; vm_compute; reflexivity. Qed.

(** C5, the code at the failing input.  The alias table is never
    consulted: every name comes back as it was, stripped; and two lineup
    lines headed by two aliases of one club give two teams. *)
Theorem aliases_of_one_club_make_two_teams :
  (forall name, _canon_team name = strip name)
  /\ _canon_team (lit "man utd") = lit "man utd"
  /\ parse_lineups ascii_only
       [lit "man utd: A, B, C, D, E, F";
        lit "Manchester United: G, H, I, J, K, L"]
     = inr (lit "man utd", map lit ["A"; "B"; "C"; "D"; "E"; "F"]%string,
            lit "Manchester United",
            map lit ["G"; "H"; "I"; "J"; "K"; "L"]%string).
Proof.
  split; [exact canon_team_is_strip|].
  split; vm_compute; reflexivity.
Qed.

End FrontMatterExamples.

(* ================================================================== *)
(** * The matcher *)
(* ================================================================== *)

Section Matcher.

Import Notions.

Variable U : unicode.
Variable fl : flags.

Lemma cap_get_set_same (i : nat) (s : str) (cp : caps) :
  cap_get i (cap_set i s cp) = Some s.
Proof. unfold cap_set. simpl. rewrite Nat.eqb_refl. reflexivity. Qed.

Lemma cap_get_set_keeps (i j : nat) (s : str) (cp : caps) :
  is_some (cap_get i cp) = true -> is_some (cap_get i (cap_set j s cp)) = true.
Proof.
  intros H. unfold cap_set. simpl. destruct (Nat.eqb i j); [reflexivity|exact H].
Qed.

Lemma star_loop_passes (A : Type) (g : bool)
    (body : option char -> str -> caps -> cont A -> option A) (k : cont A) :
  (forall (k' : cont A) pv s cp a,
      body pv s cp k' = Some a ->
      exists pv' s' cp', k' pv' s' cp' = Some a /\
        forall i, is_some (cap_get i cp) = true -> is_some (cap_get i cp') = true) ->
  forall n pv s cp a,
    star_loop g body k n pv s cp = Some a ->
    exists pv' s' cp', k pv' s' cp' = Some a /\
      forall i, is_some (cap_get i cp) = true -> is_some (cap_get i cp') = true.
Proof.
  intros Hbody. induction n as [|n IH]; intros pv s cp a H; simpl in H.
  - exists pv, s, cp. split; [exact H | auto].
  - assert (Hmore : forall a0, body pv s cp (star_loop g body k n) = Some a0 ->
              exists pv' s' cp', k pv' s' cp' = Some a0 /\
                forall i, is_some (cap_get i cp) = true ->
                          is_some (cap_get i cp') = true).
    { intros a0 Hb. apply Hbody in Hb as (pv1 & s1 & cp1 & Hk1 & Hg1).
      apply IH in Hk1 as (pv2 & s2 & cp2 & Hk2 & Hg2).
      exists pv2, s2, cp2. split; [exact Hk2 | auto]. }
    destruct g.
    + destruct (body pv s cp (star_loop true body k n)) eqn:Eb.
      * injection H as <-. apply Hmore. reflexivity.
      * exists pv, s, cp. split; [exact H | auto].
    + destruct (k pv s cp) eqn:Ek.
      * injection H as <-. exists pv, s, cp. split; [exact Ek | auto].
      * apply Hmore. exact H.
Qed.

(** The bound on the rounds of a repetition is enough for every pattern of
    the source: no repeated body can match the empty text. *)
Lemma every_repetition_consumes :
  forallb stars_consume all_patterns = true.
Proof. reflexivity. Qed.

(** A run that succeeds has reached its continuation, with the captures
    grown. *)
Lemma run_passes (r : regex) :
  forall (A : Type) (k : cont A) pv s cp a,
    run U fl r pv s cp k = Some a ->
    exists pv' s' cp', k pv' s' cp' = Some a /\ caps_grow r cp cp'.
Proof.
  induction r as [ | l | | neg items | r1 IH1 r2 IH2 | r1 IH1 r2 IH2
                 | g r1 IH1 | j r1 IH1 | | | | r1 IH1 ];
    intros A k pv s cp a H; simpl in H.
  - exists pv, s, cp. split; [exact H|]. intros i [Hi|Hi]; [discriminate|exact Hi].
  - destruct s as [|c s']; [discriminate|].
    destruct (chr_match fl l c); [|discriminate].
    exists (Some c), s', cp. split; [exact H|].
    intros i [Hi|Hi]; [discriminate|exact Hi].
  - destruct s as [|c s']; [discriminate|].
    destruct (c =? 10)%N; [discriminate|].
    exists (Some c), s', cp. split; [exact H|].
    intros i [Hi|Hi]; [discriminate|exact Hi].
  - destruct s as [|c s']; [discriminate|].
    destruct (cls_match U fl neg items c); [|discriminate].
    exists (Some c), s', cp. split; [exact H|].
    intros i [Hi|Hi]; [discriminate|exact Hi].
  - apply IH1 in H as (pv1 & s1 & cp1 & H1 & G1).
    apply IH2 in H1 as (pv2 & s2 & cp2 & H2 & G2).
    exists pv2, s2, cp2. split; [exact H2|].
    intros i [Hi|Hi].
    + simpl in Hi. apply orb_true_iff in Hi as [Hi|Hi].
      * apply G2. right. apply G1. left. exact Hi.
      * apply G2. left. exact Hi.
    + apply G2. right. apply G1. right. exact Hi.
  - destruct (run U fl r1 pv s cp k) eqn:E1.
    + injection H as <-. apply IH1 in E1 as (pv1 & s1 & cp1 & H1 & G1).
      exists pv1, s1, cp1. split; [exact H1|].
      intros i [Hi|Hi].
      * simpl in Hi. apply andb_true_iff in Hi as [Hi _]. apply G1. left. exact Hi.
      * apply G1. right. exact Hi.
    + apply IH2 in H as (pv2 & s2 & cp2 & H2 & G2).
      exists pv2, s2, cp2. split; [exact H2|].
      intros i [Hi|Hi].
      * simpl in Hi. apply andb_true_iff in Hi as [_ Hi]. apply G2. left. exact Hi.
      * apply G2. right. exact Hi.
  - apply star_loop_passes in H.
    + destruct H as (pv1 & s1 & cp1 & H1 & G1).
      exists pv1, s1, cp1. split; [exact H1|].
      intros i [Hi|Hi]; [discriminate|apply G1, Hi].
    + intros k' pv0 s0 cp0 a0 Hb.
      apply IH1 in Hb as (pv1 & s1 & cp1 & H1 & G1).
      exists pv1, s1, cp1. split; [exact H1|].
      intros i Hi. apply G1. right. exact Hi.
  - apply IH1 in H as (pv1 & s1 & cp1 & H1 & G1).
    eexists pv1, s1, _. split; [exact H1|].
    intros i [Hi|Hi].
    + simpl in Hi. apply orb_true_iff in Hi as [Hi|Hi].
      * apply Nat.eqb_eq in Hi. subst j. rewrite cap_get_set_same. reflexivity.
      * apply cap_get_set_keeps, G1. left. exact Hi.
    + apply cap_get_set_keeps, G1. right. exact Hi.
  - destruct (at_bol fl pv); [|discriminate].
    exists pv, s, cp. split; [exact H|]. intros i [Hi|Hi]; [discriminate|exact Hi].
  - destruct (at_eol fl s); [|discriminate].
    exists pv, s, cp. split; [exact H|]. intros i [Hi|Hi]; [discriminate|exact Hi].
  - destruct (xorb _ _); [|discriminate].
    exists pv, s, cp. split; [exact H|]. intros i [Hi|Hi]; [discriminate|exact Hi].
  - destruct (run U fl r1 pv s cp _); [discriminate|].
    exists pv, s, cp. split; [exact H|]. intros i [Hi|Hi]; [discriminate|exact Hi].
Qed.

Lemma match_at_group (r : regex) (i : nat) adv pv s m :
  always_sets i r = true ->
  match_at U fl r adv pv s = Some m ->
  group i m = Some (group_or_empty i m).
Proof.
  intros Hi H. unfold match_at in H.
  apply run_passes in H as (pv' & s' & cp' & Hk & G).
  unfold accept in Hk. destruct (adv && _); [discriminate|].
  injection Hk as <-. unfold group_or_empty, group. simpl.
  specialize (G i (or_introl Hi)).
  destruct (cap_get i cp'); [reflexivity|discriminate].
Qed.

Lemma search_from_group (r : regex) (i : nat) s :
  always_sets i r = true ->
  forall adv pv sk m, search_from U fl r adv pv s = Some (sk, m) ->
  group i m = Some (group_or_empty i m).
Proof.
  intros Hi. induction s as [|c s IH]; intros adv pv sk m H; simpl in H.
  - destruct (match_at U fl r adv pv []) eqn:E; [|discriminate].
    injection H as _ <-. eapply match_at_group; eassumption.
  - destruct (match_at U fl r adv pv (c :: s)) eqn:E.
    + injection H as _ <-. eapply match_at_group; eassumption.
    + destruct (search_from U fl r false (Some c) s) as [[sk' m']|] eqn:E';
        [|discriminate].
      injection H as _ <-. eapply IH. eassumption.
Qed.

Lemma search_group (r : regex) (i : nat) s m :
  always_sets i r = true ->
  search U fl r s = Some m ->
  group i m = Some (group_or_empty i m).
Proof.
  intros Hi H. unfold search in H.
  destruct (search_from U fl r false None s) as [[sk m']|] eqn:E;
    [|discriminate].
  injection H as <-. eapply search_from_group; eassumption.
Qed.

Lemma matches_from_step (r0 : regex) (n : nat) adv pv s :
  matches_from (S n) U fl r0 adv pv s =
  match search_from U fl r0 adv pv s with
  | None => ([], s)
  | Some (skipped, m) =>
      let '(ms, tl) :=
        matches_from n U fl r0
          (match m_text m with [] => true | _ => false end)
          (m_prev m) (m_rest m) in
      ((skipped, m) :: ms, tl)
  end.
Proof. reflexivity. Qed.


End Matcher.

(* ================================================================== *)
(** * The classifier: minutes *)
(* ================================================================== *)

Section Minutes.

Import Parser Notions.

Variable U : unicode.
Variable scorer : str -> str -> score.
Variables aliases1 aliases2 : list str.
Variables roster1 roster2 : list str.
Variable our_is_1 : bool.

Local Abbreviation process :=
  (process_line U scorer aliases1 aliases2 roster1 roster2 our_is_1).
Local Abbreviation classify_line :=
  (classify U scorer aliases1 aliases2 roster1 roster2 our_is_1).


(** ** Every event of a line carries the minute of the line *)

Lemma t_sub_event mn onp offp lwl idx :
  t (sub_event our_is_1 mn onp offp lwl idx) = mn.
Proof. reflexivity. Qed.

Lemma t_goal_event mn line :
  t (goal_event U scorer aliases1 aliases2 roster1 roster2 mn line) = mn.
Proof.
  unfold goal_event.
  destruct (parse_goal U line aliases1 aliases2) as [[a b] c]. reflexivity.
Qed.

Lemma t_rc_event mn line :
  t (rc_event U scorer aliases1 aliases2 roster1 roster2 mn line) = mn.
Proof. reflexivity. Qed.

Lemma t_yc_event mn line :
  t (yc_event U scorer aliases1 aliases2 roster1 roster2 mn line) = mn.
Proof. reflexivity. Qed.

Lemma t_attempt_event mn lwl label ety :
  t (attempt_event U scorer aliases1 aliases2 roster1 roster2 our_is_1
       mn lwl label ety) = mn.
Proof.
  unfold attempt_event.
  destruct (detect_player U scorer lwl roster1 roster2) as [pl idx0].
  reflexivity.
Qed.

Lemma classify_minute mn line lwl label e :
  In e (classify_line mn line lwl label) -> t e = mn.
Proof.
  unfold classify.
  repeat match goal with
  | |- In _ (if ?c then _ else _) -> _ => destruct c
  | |- In _ (match ?x with Some _ => _ | None => _ end) -> _ => destruct x
  end;
  simpl; intros H; try contradiction;
  destruct H as [<-|[]];
  auto using t_sub_event, t_goal_event, t_rc_event, t_yc_event,
             t_attempt_event.
Qed.

Lemma quote_events_minute mn lwl e :
  In e (quote_events U mn lwl) -> t e = mn.
Proof.
  unfold quote_events. rewrite in_map_iff. intros [q [<- _]]. reflexivity.
Qed.


Lemma process_line_events cur line :
  forall e, In e (snd (process cur line)) ->
            Some (t e) = fst (process cur line) /\ t e <> [].
Proof.
  intros e. unfold process_line.
  destruct (_extract_minute U line cur) as [mn|]; [|intros []].
  destruct mn as [|c mn]; [intros []|]. simpl negb. cbv iota.
  destruct (split_label U line) as [label lwl]. simpl.
  rewrite in_app_iff. intros [H|H].
  - apply quote_events_minute in H. rewrite H. split; [reflexivity|discriminate].
  - apply classify_minute in H. rewrite H. split; [reflexivity|discriminate].
Qed.



Lemma split_lines_truthy (text line : str) :
  In line (split_lines U text) -> truthy line = true.
Proof.
  unfold split_lines. rewrite in_map_iff. intros [ln [<- Hin]].
  apply filter_In in Hin as [_ H]. exact H.
Qed.

(** ** The minute the loop carries from line to line *)

Local Abbreviation loop :=
  (run_lines U scorer aliases1 aliases2 roster1 roster2 our_is_1).

(** What one round hands on: the resolved minute, else the one it got. *)
Lemma process_line_hands_on cur line :
  fst (process cur line)
  = match resolved U cur line with Some mn => Some mn | None => cur end.
Proof.
  unfold process_line, resolved.
  destruct (_extract_minute U line cur) as [mn|]; [|reflexivity].
  destruct (truthy mn); [|reflexivity]. simpl.
  destruct (split_label U line). reflexivity.
Qed.

Lemma carried_minute_step cur line lines :
  carried_minute U cur (line :: lines)
  = carried_minute U (fst (process cur line)) lines.
Proof.
  rewrite process_line_hands_on. cbn [carried_minute].
  destruct (resolved U cur line); reflexivity.
Qed.

Lemma carried_minute_app pre : forall cur post,
  carried_minute U cur (pre ++ post)
  = carried_minute U (carried_minute U cur pre) post.
Proof.
  induction pre as [|line pre IH]; intros cur post; [reflexivity|].
  cbn [app]. rewrite !carried_minute_step. apply IH.
Qed.





End Minutes.


Section MinutesExamples.

Import Parser Sample.


End MinutesExamples.

(* ================================================================== *)
(** * The classifier: cards *)
(* ================================================================== *)

Section Cards.

Import Parser Notions.

Variable U : unicode.
Variable scorer : str -> str -> score.
Variables aliases1 aliases2 : list str.
Variables roster1 roster2 : list str.
Variable our_is_1 : bool.

Local Abbreviation process :=
  (process_line U scorer aliases1 aliases2 roster1 roster2 our_is_1).
Local Abbreviation classify_line :=
  (classify U scorer aliases1 aliases2 roster1 roster2 our_is_1).
Local Abbreviation red_card :=
  (rc_event U scorer aliases1 aliases2 roster1 roster2).

Lemma sub_event_no_card mn onp offp lwl idx :
  is_card (sub_event our_is_1 mn onp offp lwl idx) = false.
Proof.
  unfold sub_event, is_card, is_red, is_yellow. simpl.
  destruct (ours_of our_is_1 idx); reflexivity.
Qed.

Lemma goal_event_no_card mn line :
  is_card (goal_event U scorer aliases1 aliases2 roster1 roster2 mn line)
  = false.
Proof.
  unfold goal_event.
  destruct (parse_goal U line aliases1 aliases2) as [[a b] c].
  unfold is_card, is_red, is_yellow. simpl.
  destruct (idx_is _ 1); reflexivity.
Qed.

Lemma rc_event_red mn line :
  is_red (red_card mn line) = true /\ is_yellow (red_card mn line) = false.
Proof.
  unfold rc_event, is_red, is_yellow. simpl.
  destruct (idx_is _ 1); split; reflexivity.
Qed.

Lemma rc_event_type mn line :
  etype (red_card mn line) = lit "RC_US"
  \/ etype (red_card mn line) = lit "RC_OPP".
Proof.
  unfold rc_event. simpl. destruct (idx_is _ 1); [left|right]; reflexivity.
Qed.

Lemma quote_events_no_card mn lwl :
  filter is_card (quote_events U mn lwl) = [].
Proof.
  unfold quote_events.
  induction (findall1 U no_flags QUOTE_PAT lwl) as [|q qs IH]; simpl.
  - reflexivity.
  - exact IH.
Qed.

Lemma second_yellow_is_rc_keyword (low : str) :
  contains (lit "second yellow card") low = true ->
  any_in KEYWORDS.rc low = true.
Proof.
  intros H. unfold any_in. apply existsb_exists.
  exists (lit "second yellow card"). split; [|exact H].
  unfold KEYWORDS.rc. apply in_map. simpl. auto.
Qed.

(** What [classify] gives on a line with the second-yellow phrase: the red
    card, unless a step before the cards takes the line, and then nothing
    that is a card. *)
Lemma classify_second_yellow mn line lwl label :
  contains (lit "second yellow card") (_norm U lwl) = true ->
  (taken_before_cards U lwl = false /\
   classify_line mn line lwl label = [red_card mn line])
  \/ (taken_before_cards U lwl = true /\
      filter is_card (classify_line mn line lwl label) = []).
Proof.
  intros Hsy. apply second_yellow_is_rc_keyword in Hsy.
  unfold classify, taken_before_cards.
  destruct (any_in KEYWORDS.ko (_norm U lwl)); [right; split; reflexivity|].
  destruct (any_in KEYWORDS.ht (_norm U lwl)); [right; split; reflexivity|].
  destruct (any_in KEYWORDS.ft (_norm U lwl)); [right; split; reflexivity|].
  destruct (contains (lit "delay in match") (_norm U lwl));
    [right; split; reflexivity|].
  destruct (contains (lit "delay over") (_norm U lwl));
    [right; split; reflexivity|].
  destruct (contains (lit "added time") (_norm U lwl));
    [right; split; reflexivity|].
  destruct (contains (lit "has announced") (_norm U lwl));
    [right; split; reflexivity|].
  destruct (rmatch_start U flag_I SUB_PAT_1 lwl).
  { right. split; [reflexivity|]. cbn [orb filter]. rewrite sub_event_no_card. reflexivity. }
  destruct (search U flag_I SUB_PAT_2 lwl).
  { right. split; [reflexivity|]. cbn [orb filter]. rewrite sub_event_no_card. reflexivity. }
  destruct (any_in KEYWORDS.goal (_norm U lwl)).
  { right. split; [reflexivity|]. cbn [orb filter]. rewrite goal_event_no_card. reflexivity. }
  rewrite Hsy. left. split; reflexivity.
Qed.

End Cards.

(** C8, as amended.  Take a line whose minute resolves and whose text,
    without its label and normalised, holds the phrase "second yellow
    card".  No event of the line is a yellow card, and at most one is a
    card.  If no step before the cards takes the line (kick-off, half or
    full time, delay, added time, a substitution, a goal), its events are
    its quotes followed by exactly one card, a red one of type RC_US or
    RC_OPP. *)
Theorem second_yellow_is_one_red_card
    (U : unicode) (scorer : str -> str -> Parser.score)
    (aliases1 aliases2 roster1 roster2 : list str) (our_is_1 : bool)
    (cur : option str) (line mn : str) :
  Parser._extract_minute U line cur = Some mn ->
  truthy mn = true ->
  contains (lit "second yellow card")
    (Parser._norm U (snd (Parser.split_label U line))) = true ->
  let evs :=
    snd (Parser.process_line U scorer aliases1 aliases2 roster1 roster2
           our_is_1 cur line) in
  let red :=
    Parser.rc_event U scorer aliases1 aliases2 roster1 roster2 mn line in
  (forall e, In e evs -> Notions.is_yellow e = false)
  /\ Notions.count_cards evs <= 1
  /\ (Notions.taken_before_cards U (snd (Parser.split_label U line)) = false ->
      evs = Parser.quote_events U mn (snd (Parser.split_label U line)) ++ [red]
      /\ Notions.count_cards evs = 1
      /\ (Parser.etype red = lit "RC_US" \/ Parser.etype red = lit "RC_OPP")).
Proof.
  intros Hmin Hmn Hsy evs red.
  assert (Hevs : evs =
            Parser.quote_events U mn (snd (Parser.split_label U line)) ++
            Parser.classify U scorer aliases1 aliases2 roster1 roster2 our_is_1
              mn line (snd (Parser.split_label U line))
              (fst (Parser.split_label U line))).
  { subst evs. unfold Parser.process_line. rewrite Hmin, Hmn. simpl negb.
    cbv iota. destruct (Parser.split_label U line); reflexivity. }
  pose proof (rc_event_red U scorer aliases1 aliases2 roster1 roster2 mn line)
    as [Hred Hny].
  assert (Hcard : Notions.is_card red = true).
  { unfold Notions.is_card. subst red. rewrite Hred. reflexivity. }
  destruct (classify_second_yellow U scorer aliases1 aliases2 roster1 roster2
              our_is_1 mn line (snd (Parser.split_label U line))
              (fst (Parser.split_label U line)) Hsy)
    as [[Hfree Hcl] | [Htaken Hcl]].
  - rewrite Hcl in Hevs. fold red in Hevs.
    assert (Hcount : Notions.count_cards evs = 1).
    { rewrite Hevs. unfold Notions.count_cards.
      rewrite filter_app, quote_events_no_card. simpl. rewrite Hcard.
      reflexivity. }
    split; [|split].
    + intros e He. rewrite Hevs in He. apply in_app_iff in He as [He|He].
      * unfold Parser.quote_events in He. apply in_map_iff in He as [q [<- _]].
        reflexivity.
      * destruct He as [<-|[]]. exact Hny.
    + rewrite Hcount. apply le_n.
    + intros _. split; [exact Hevs|]. split; [exact Hcount|].
      apply rc_event_type.
  - assert (Hnone : filter Notions.is_card evs = []).
    { rewrite Hevs, filter_app, quote_events_no_card, Hcl. reflexivity. }
    split; [|split].
    + intros e He.
      destruct (Notions.is_yellow e) eqn:Ey; [|reflexivity].
      assert (Hin : In e (filter Notions.is_card evs)).
      { apply filter_In. split; [exact He|].
        unfold Notions.is_card. rewrite Ey. apply orb_true_r. }
      rewrite Hnone in Hin. destruct Hin.
    + unfold Notions.count_cards. rewrite Hnone. simpl. apply Nat.le_0_l.
    + intros Hfree. rewrite Hfree in Htaken. discriminate.
Qed.

Section CardsExamples.

Import Parser Sample.

(** The witness of C8 as amended: a second yellow card that no earlier
    step takes is one red card. *)
Lemma second_yellow_witness :
  Notions.count_cards
    (snd (process_line ascii_only no_similarity
            [lit "arsenal"] [lit "chelsea"] [] [] true None
            (lit "[MIN=90] Second yellow card to Smith (Chelsea) for a bad foul.")))
  = 1.
Proof.
  refine (proj1 (proj2 (proj2 (proj2
    (second_yellow_is_one_red_card ascii_only no_similarity
       [lit "arsenal"] [lit "chelsea"] [] [] true None
       (lit "[MIN=90] Second yellow card to Smith (Chelsea) for a bad foul.")
       (mn := lit "90") _ _ _)) _))).
  all: vm_compute; reflexivity.
Defined.

(** The counterexample to C8 as stated: the phrase "added time" comes
    first in the decision list, so this second yellow card gives an
    ADDED_TIME event and no card at all. *)
Lemma second_yellow_taken_by_added_time :
  parse_events_unbiased ascii_only as_built no_similarity
    (lit "[MIN=90] Second yellow card to Smith (Chelsea) in added time.")
    (lit "Arsenal") [] (lit "Chelsea") [] (lit "Arsenal")
  = [ {| t := lit "90"; etype := lit "ADDED_TIME"; player := None;
         note := lit "[MIN=90] Second yellow card to Smith (Chelsea) in added time." |} ]
  /\ Notions.count_cards
       (parse_events_unbiased ascii_only as_built no_similarity
          (lit "[MIN=90] Second yellow card to Smith (Chelsea) in added time.")
          (lit "Arsenal") [] (lit "Chelsea") [] (lit "Arsenal"))
     = 0.
Proof. split; vm_compute; reflexivity. Qed.

End CardsExamples.

(* ================================================================== *)
(** * The classifier: the order of the alias sets *)
(* ================================================================== *)

Section AliasOrder.

Import Parser Notions.

Lemma existsb_same_members (f : str -> bool) (l l' : list str) :
  same_members l l' -> existsb f l = existsb f l'.
Proof.
  intros H.
  destruct (existsb f l) eqn:E; destruct (existsb f l') eqn:E';
    try reflexivity; exfalso.
  - apply existsb_exists in E as [x [Hx Hf]].
    assert (existsb f l' = true) by (apply existsb_exists; exists x; split;
      [apply H, Hx | exact Hf]).
    congruence.
  - apply existsb_exists in E' as [x [Hx Hf]].
    assert (existsb f l = true) by (apply existsb_exists; exists x; split;
      [apply H, Hx | exact Hf]).
    congruence.
Qed.

Lemma any_in_same_members (l l' : list str) (s : str) :
  same_members l l' -> any_in l s = any_in l' s.
Proof. intros H. unfold any_in. apply existsb_same_members, H. Qed.

Lemma mem_same_members (l l' : list str) (x : str) :
  same_members l l' -> mem x l = mem x l'.
Proof. intros H. unfold mem. apply existsb_same_members, H. Qed.

Lemma Permutation_same_members (l l' : list str) :
  Permutation l l' -> same_members l l'.
Proof.
  intros H x. split; intros Hx.
  - eapply Permutation_in; eassumption.
  - eapply Permutation_in; [apply Permutation_sym|]; eassumption.
Qed.

Variable U : unicode.
Variable scorer : str -> str -> score.
Variables al1 al1' al2 al2' : list str.
Variables roster1 roster2 : list str.
Variable our_is_1 : bool.
Hypothesis H1 : same_members al1 al1'.
Hypothesis H2 : same_members al2 al2'.

Ltac same_aliases :=
  repeat first
    [ rewrite (fun s => any_in_same_members s H1)
    | rewrite (fun s => any_in_same_members s H2)
    | rewrite (fun x => mem_same_members x H1)
    | rewrite (fun x => mem_same_members x H2) ].

Lemma team_of_parens_same found :
  team_of_parens U found al1 al2 = team_of_parens U found al1' al2'.
Proof.
  induction found as [|[nm tm] found IH]; simpl; [reflexivity|].
  same_aliases. rewrite IH. reflexivity.
Qed.

Lemma team_idx_from_parens_same line :
  _team_idx_from_parens U line al1 al2 = _team_idx_from_parens U line al1' al2'.
Proof. unfold _team_idx_from_parens. apply team_of_parens_same. Qed.

Lemma owns_event_same line :
  owns_event U scorer line al1 al2 roster1 roster2
  = owns_event U scorer line al1' al2' roster1 roster2.
Proof.
  unfold owns_event. rewrite team_idx_from_parens_same. same_aliases.
  reflexivity.
Qed.

Lemma parse_goal_same line :
  parse_goal U line al1 al2 = parse_goal U line al1' al2'.
Proof.
  unfold parse_goal. destruct (search U flag_I GOAL_PAT line); [|reflexivity].
  same_aliases. reflexivity.
Qed.

Lemma named_team_same team :
  named_team U team al1 al2 = named_team U team al1' al2'.
Proof. unfold named_team. same_aliases. reflexivity. Qed.

Lemma goal_event_same mn line :
  goal_event U scorer al1 al2 roster1 roster2 mn line
  = goal_event U scorer al1' al2' roster1 roster2 mn line.
Proof.
  unfold goal_event. rewrite parse_goal_same, owns_event_same. reflexivity.
Qed.

Lemma rc_event_same mn line :
  rc_event U scorer al1 al2 roster1 roster2 mn line
  = rc_event U scorer al1' al2' roster1 roster2 mn line.
Proof.
  unfold rc_event. rewrite team_idx_from_parens_same, owns_event_same.
  reflexivity.
Qed.

Lemma yc_event_same mn line :
  yc_event U scorer al1 al2 roster1 roster2 mn line
  = yc_event U scorer al1' al2' roster1 roster2 mn line.
Proof.
  unfold yc_event. rewrite team_idx_from_parens_same, owns_event_same.
  reflexivity.
Qed.

Lemma prefixed_event_same kind mn lwl m :
  prefixed_event U al1 al2 our_is_1 kind mn lwl m
  = prefixed_event U al1' al2' our_is_1 kind mn lwl m.
Proof. unfold prefixed_event. rewrite named_team_same. reflexivity. Qed.

Lemma disallowed_event_same mn lwl :
  disallowed_event U scorer al1 al2 roster1 roster2 our_is_1 mn lwl
  = disallowed_event U scorer al1' al2' roster1 roster2 our_is_1 mn lwl.
Proof. unfold disallowed_event. rewrite owns_event_same. reflexivity. Qed.

Lemma attempt_event_same mn lwl label ety :
  attempt_event U scorer al1 al2 roster1 roster2 our_is_1 mn lwl label ety
  = attempt_event U scorer al1' al2' roster1 roster2 our_is_1 mn lwl label ety.
Proof.
  unfold attempt_event.
  destruct (detect_player U scorer lwl roster1 roster2) as [pl idx0].
  rewrite owns_event_same. reflexivity.
Qed.

Lemma classify_same mn line lwl label :
  classify U scorer al1 al2 roster1 roster2 our_is_1 mn line lwl label
  = classify U scorer al1' al2' roster1 roster2 our_is_1 mn line lwl label.
Proof.
  unfold classify.
  repeat match goal with
  | |- (if ?c then _ else _) = _ => destruct c
  | |- match ?x with Some _ => _ | None => _ end = _ => destruct x
  end;
  rewrite ?named_team_same, ?goal_event_same, ?rc_event_same, ?yc_event_same,
          ?prefixed_event_same, ?disallowed_event_same, ?attempt_event_same;
  reflexivity.
Qed.

Lemma process_line_same cur line :
  process_line U scorer al1 al2 roster1 roster2 our_is_1 cur line
  = process_line U scorer al1' al2' roster1 roster2 our_is_1 cur line.
Proof.
  unfold process_line.
  destruct (_extract_minute U line cur) as [mn|]; [|reflexivity].
  destruct (negb (truthy mn)); [reflexivity|].
  destruct (split_label U line) as [label lwl].
  rewrite classify_same. reflexivity.
Qed.

Lemma run_lines_same lines :
  forall cur events,
    run_lines U scorer al1 al2 roster1 roster2 our_is_1 cur events lines
    = run_lines U scorer al1' al2' roster1 roster2 our_is_1 cur events lines.
Proof.
  induction lines as [|line lines IH]; intros cur events; simpl.
  - reflexivity.
  - rewrite process_line_same.
    destruct (process_line U scorer al1' al2' roster1 roster2 our_is_1 cur line).
    apply IH.
Qed.

End AliasOrder.

(** C9.  The classifier is a function of its arguments but for one thing:
    the order in which the two alias sets are listed, which Python fixes
    per process.  That order does not reach the result: two runs on the
    same text, teams, rosters and designator give the same events in the
    same order, however each run lists its sets. *)
Theorem parse_events_deterministic
    (U : unicode) (order order' : list str -> list str)
    (scorer : str -> str -> Parser.score)
    (text team1 : str) (roster1 : list str) (team2 : str)
    (roster2 : list str) (our_team : str) :
  (forall l, Permutation (order l) l) ->
  (forall l, Permutation (order' l) l) ->
  Parser.parse_events_unbiased U order scorer text team1 roster1
    team2 roster2 our_team
  = Parser.parse_events_unbiased U order' scorer text team1 roster1
      team2 roster2 our_team.
Proof.
  intros Ho Ho'.
  assert (Hs : forall team,
             Notions.same_members (Parser.build_team_aliases U order team)
                                  (Parser.build_team_aliases U order' team)).
  { intros team. unfold Parser.build_team_aliases.
    apply Permutation_same_members.
    eapply Permutation_trans; [apply Ho|]. apply Permutation_sym, Ho'. }
  unfold Parser.parse_events_unbiased.
  rewrite (mem_same_members _ (Hs team1)).
  rewrite (run_lines_same U scorer roster1 roster2 _ (Hs team1) (Hs team2)).
  reflexivity.
Qed.

(** The designator is looked at once: two designators on which the
    membership test agrees give the same events. *)
Lemma designator_tested_once
    (U : unicode) (order : list str -> list str)
    (scorer : str -> str -> Parser.score)
    (text team1 : str) (roster1 : list str) (team2 : str)
    (roster2 : list str) (our_team our_team' : str) :
  mem (Parser._norm U our_team) (Parser.build_team_aliases U order team1)
  = mem (Parser._norm U our_team') (Parser.build_team_aliases U order team1) ->
  Parser.parse_events_unbiased U order scorer text team1 roster1
    team2 roster2 our_team
  = Parser.parse_events_unbiased U order scorer text team1 roster1
      team2 roster2 our_team'.
Proof.
  intros H. unfold Parser.parse_events_unbiased. rewrite H. reflexivity.
Qed.

(** C10, as amended.  The designator enters by one test: is its normalised
    form a member of team 1's alias list?  Any designator that is not, be
    it misspelt or unrelated, gives the events that team 2's own name
    gives, provided that name is not an alias of team 1 either. *)
Theorem unrecognised_designator_is_team2
    (U : unicode) (order : list str -> list str)
    (scorer : str -> str -> Parser.score)
    (text team1 : str) (roster1 : list str) (team2 : str)
    (roster2 : list str) (our_team : str) :
  mem (Parser._norm U our_team) (Parser.build_team_aliases U order team1)
  = false ->
  mem (Parser._norm U team2) (Parser.build_team_aliases U order team1)
  = false ->
  Parser.parse_events_unbiased U order scorer text team1 roster1
    team2 roster2 our_team
  = Parser.parse_events_unbiased U order scorer text team1 roster1
      team2 roster2 team2.
Proof.
  intros Hour H2. apply designator_tested_once. rewrite Hour, H2. reflexivity.
Qed.

Section DesignatorExamples.

Import Parser Sample.

(** The witness of C9: the sets listed as built, and listed backwards. *)
Lemma parse_events_deterministic_witness :
  parse_events_unbiased ascii_only as_built no_similarity
    (lit "[MIN=3] Man Utd have the ball in the net but the flag is up.")
    (lit "Manchester United") [] (lit "Chelsea") [] (lit "Man Utd")
  = parse_events_unbiased ascii_only reversed no_similarity
      (lit "[MIN=3] Man Utd have the ball in the net but the flag is up.")
      (lit "Manchester United") [] (lit "Chelsea") [] (lit "Man Utd").
Proof.
  apply parse_events_deterministic.
  - intros l. apply Permutation_refl.
  - intros l. apply Permutation_sym, Permutation_rev.
Defined.

(** The witness of C10: a misspelt team 1 is read as team 2. *)
Lemma unrecognised_designator_witness :
  parse_events_unbiased ascii_only as_built no_similarity
    (lit "[MIN=60] Arsenal have a goal ruled out.")
    (lit "Arsenal") [] (lit "Chelsea") [] (lit "Arsnal")
  = parse_events_unbiased ascii_only as_built no_similarity
      (lit "[MIN=60] Arsenal have a goal ruled out.")
      (lit "Arsenal") [] (lit "Chelsea") [] (lit "Chelsea").
Proof.
  apply unrecognised_designator_is_team2; vm_compute; reflexivity.
Defined.

(** The counterexample to C10 as stated.  Team 1 is Sheffield United,
    whose alias list takes in "manchester united"; team 2 is Manchester
    United.  "Leeds" is no alias of team 1, yet it does not give the events
    that team 2's name gives: that name passes the test and selects the
    side of team 1. *)
Lemma team2_name_among_team1_aliases :
  mem (_norm ascii_only (lit "Leeds"))
      (build_team_aliases ascii_only as_built (lit "Sheffield United")) = false
  /\ parse_events_unbiased ascii_only as_built no_similarity
       (lit "[MIN=5] Sheffield United have the ball in the net but the flag is up.")
       (lit "Sheffield United") [] (lit "Manchester United") [] (lit "Leeds")
     = [ {| t := lit "5"; etype := lit "DISALLOWED_GOAL_OPP"; player := None;
            note := lit "[MIN=5] Sheffield United have the ball in the net but the flag is up." |} ]
  /\ parse_events_unbiased ascii_only as_built no_similarity
       (lit "[MIN=5] Sheffield United have the ball in the net but the flag is up.")
       (lit "Sheffield United") [] (lit "Manchester United") []
       (lit "Manchester United")
     = [ {| t := lit "5"; etype := lit "DISALLOWED_GOAL_US"; player := None;
            note := lit "[MIN=5] Sheffield United have the ball in the net but the flag is up." |} ].
Proof. repeat split; vm_compute; reflexivity. Qed.

(** C1, the code at the failing input.  Team 2 scores and team 2 is our
    team, yet the goal is labelled OPP_GOAL: the label of a goal is OUR_GOAL
    for team 1 and OPP_GOAL for team 2, whatever the designator. *)
Theorem goal_label_ignores_designator
    (U : unicode) (scorer : str -> str -> score) (our_team : str) :
  parse_events_unbiased U as_built scorer
    (lit "[MIN=12] Goal! Arsenal 0, Chelsea 1. Cole Palmer (Chelsea) right footed shot.")
    (lit "Arsenal") [lit "Saka"] (lit "Chelsea") [lit "Palmer"] our_team
  = [ {| t := lit "12"; etype := lit "OPP_GOAL";
         player := Some (lit "Cole Palmer");
         note := lit "[MIN=12] Goal! Arsenal 0, Chelsea 1. Cole Palmer (Chelsea) right footed shot." |} ].
Proof. vm_compute. reflexivity. Qed.

(** C2, the code at the failing inputs.  Nothing on these lines names a
    team or a player, and our team is team 1; the disallowed goal and the
    save are labelled _OPP, not _US: these two steps have no default. *)
Theorem unresolved_owner_is_opponent
    (U : unicode) (scorer : str -> str -> score) :
  parse_events_unbiased U as_built scorer
    (lit "[MIN=30] the flag is up.")
    (lit "Arsenal") [lit "Saka"] (lit "Chelsea") [lit "Palmer"] (lit "Arsenal")
  = [ {| t := lit "30"; etype := lit "DISALLOWED_GOAL_OPP"; player := None;
         note := lit "[MIN=30] the flag is up." |} ]
  /\ parse_events_unbiased U as_built scorer
       (lit "[MIN=31] great save by the keeper.")
       (lit "Arsenal") [lit "Saka"] (lit "Chelsea") [lit "Palmer"] (lit "Arsenal")
     = [ {| t := lit "31"; etype := lit "SAVE_OPP"; player := None;
            note := lit "[MIN=31] great save by the keeper." |} ].
Proof. split; vm_compute; reflexivity. Qed.

End DesignatorExamples.

(* ================================================================== *)
(** * The normaliser on a line that opens with a minute *)
(* ================================================================== *)

Section LinePass.
Import Preproc Notions.
Variable U : unicode.
Variable fl : flags.

Lemma run_seq (A : Type) r1 r2 pv s cp (k : cont A) :
  run U fl (Seq r1 r2) pv s cp k
  = run U fl r1 pv s cp (fun pv' s' cp' => run U fl r2 pv' s' cp' k).
Proof. reflexivity. Qed.

Lemma run_alt (A : Type) r1 r2 pv s cp (k : cont A) :
  run U fl (Alt r1 r2) pv s cp k
  = match run U fl r1 pv s cp k with
    | Some a => Some a
    | None => run U fl r2 pv s cp k
    end.
Proof. reflexivity. Qed.

Lemma run_grp (A : Type) i r pv s cp (k : cont A) :
  run U fl (Grp i r) pv s cp k
  = run U fl r pv s cp
      (fun pv' s' cp' =>
         k pv' s' (cap_set i (firstn (length s - length s') s) cp')).
Proof. reflexivity. Qed.

Lemma run_star (A : Type) g r pv s cp (k : cont A) :
  run U fl (Star g r) pv s cp k
  = star_loop g (run (A:=A) U fl r) k (length s) pv s cp.
Proof. reflexivity. Qed.

Lemma run_cls_cons (A : Type) neg items pv c s cp (k : cont A) :
  run U fl (Cls neg items) pv (c :: s) cp k
  = if cls_match U fl neg items c then k (Some c) s cp else None.
Proof. reflexivity. Qed.

Lemma run_cls_nil (A : Type) neg items pv cp (k : cont A) :
  run U fl (Cls neg items) pv [] cp k = None.
Proof. reflexivity. Qed.

Lemma star_greedy_S (A : Type) body (k : cont A) n pv s cp :
  star_loop true body k (S n) pv s cp
  = match body pv s cp (star_loop true body k n) with
    | Some a => Some a
    | None => k pv s cp
    end.
Proof. reflexivity. Qed.

Lemma ascii_digit_decimal d : ascii_digit d = true -> isdecimal U d = true.
Proof.
  intros H. unfold isdecimal, is_ascii. unfold ascii_digit in H.
  apply andb_true_iff in H as [H1 H2]. apply N.leb_le in H1, H2.
  assert (H3 : (d <? 128)%N = true) by (apply N.ltb_lt; lia).
  rewrite H3. unfold ascii_digit. apply andb_true_iff. split; apply N.leb_le; lia.
Qed.

Lemma ascii_digit_cases d :
  ascii_digit d = true ->
  In d [48; 49; 50; 51; 52; 53; 54; 55; 56; 57]%N.
Proof.
  intros H. unfold ascii_digit in H.
  apply andb_true_iff in H as [H1 H2]. apply N.leb_le in H1, H2.
  simpl. lia.
Qed.

Lemma ascii_digit_solid d : ascii_digit d = true -> isspace d = false.
Proof.
  intros H. apply ascii_digit_cases in H. simpl in H.
  repeat (destruct H as [<-|H]; [reflexivity|]). contradiction.
Qed.

Lemma digit_match d : ascii_digit d = true -> cls_match U fl false [CDigit] d = true.
Proof.
  intros H. unfold cls_match. cbn [existsb cset_match].
  rewrite (ascii_digit_decimal _ H). reflexivity.
Qed.

Lemma digit_match_decimal c : cls_match U fl false [CDigit] c = isdecimal U c.
Proof.
  unfold cls_match. cbn [existsb cset_match]. rewrite orb_false_r. reflexivity.
Qed.

Lemma space_match c : cls_match U fl false [CSpace] c = isspace c.
Proof.
  unfold cls_match. cbn [existsb cset_match]. rewrite orb_false_r. reflexivity.
Qed.

(** [\s*] reads nothing where the text does not open with a blank. *)
Lemma run_spaces_stop (A : Type) pv s cp (k : cont A) :
  starts_solid s = true -> run U fl spaces pv s cp k = k pv s cp.
Proof.
  intros H. unfold spaces. rewrite run_star. destruct s as [|c s].
  - reflexivity.
  - cbn [length]. rewrite star_greedy_S. unfold space. rewrite run_cls_cons.
    rewrite space_match. simpl in H. apply negb_true_iff in H. rewrite H. reflexivity.
Qed.

Lemma star_spaces_all (A : Type) (k : cont A) rest cp a :
  starts_solid rest = true ->
  forall ws n pv,
    length ws <= n -> forallb isspace ws = true ->
    k (prev_after pv ws) rest cp = Some a ->
    star_loop true (run U fl space) k n pv (ws ++ rest) cp = Some a.
Proof.
  intros Hrest. induction ws as [|w ws IH]; intros n pv Hn Hws Hk.
  - cbn [app]. destruct n; [exact Hk|].
    rewrite star_greedy_S. unfold space.
    destruct rest as [|c rest].
    + rewrite run_cls_nil. exact Hk.
    + rewrite run_cls_cons, space_match. simpl in Hrest.
      apply negb_true_iff in Hrest. rewrite Hrest. exact Hk.
  - destruct n as [|n]; [simpl in Hn; lia|].
    cbn [app]. rewrite star_greedy_S. unfold space at 1.
    rewrite run_cls_cons, space_match.
    simpl in Hws. apply andb_true_iff in Hws as [Hw Hws]. rewrite Hw.
    rewrite (IH n (Some w)); [reflexivity | simpl in Hn; lia | exact Hws | exact Hk].
Qed.

(** [\s*] reads all the blanks before a text that does not open with one. *)
Lemma run_spaces_all (A : Type) (k : cont A) ws rest pv cp a :
  starts_solid rest = true -> forallb isspace ws = true ->
  k (prev_after pv ws) rest cp = Some a ->
  run U fl spaces pv (ws ++ rest) cp k = Some a.
Proof.
  intros Hrest Hws Hk. unfold spaces. rewrite run_star.
  apply star_spaces_all; try assumption.
  rewrite length_app. lia.
Qed.

Lemma run_upto_digits (A : Type) (k : cont A) tail cp a :
  starts_nondigit U tail = true ->
  forall m n pv,
    length n <= m -> all_digits n = true ->
    k (prev_after pv n) tail cp = Some a ->
    run U fl (upto m digit) pv (n ++ tail) cp k = Some a.
Proof.
  intros Htail. induction m as [|m IH]; intros n pv Hn Hd Hk.
  - destruct n; [|simpl in Hn; lia]. exact Hk.
  - cbn [upto]. unfold opt. rewrite run_alt, run_seq. unfold digit at 1.
    destruct n as [|d n].
    + cbn [app]. destruct tail as [|c tail].
      * rewrite run_cls_nil. exact Hk.
      * rewrite run_cls_cons, digit_match_decimal. simpl in Htail.
        apply negb_true_iff in Htail. rewrite Htail. exact Hk.
    + cbn [app]. simpl in Hd. apply andb_true_iff in Hd as [Hd Hds].
      rewrite run_cls_cons, (digit_match _ Hd).
      rewrite (IH n (Some d)); [reflexivity | simpl in Hn; lia | exact Hds | exact Hk].
Qed.

(** A group of one to [m] digits reads all of [n] before a non-digit. *)
Lemma run_group_digits (A : Type) (k : cont A) i m n tail pv cp a :
  starts_nondigit U tail = true ->
  n <> [] -> length n <= m -> all_digits n = true ->
  k (prev_after pv n) tail (cap_set i n cp) = Some a ->
  run U fl (Grp i (rep1 m digit)) pv (n ++ tail) cp k = Some a.
Proof.
  intros Htail Hne Hn Hd Hk.
  destruct n as [|d n]; [contradiction|].
  rewrite run_grp. unfold rep1. rewrite run_seq. unfold digit at 1.
  cbn [app]. simpl in Hd. apply andb_true_iff in Hd as [Hd Hds].
  rewrite run_cls_cons, (digit_match _ Hd).
  apply run_upto_digits; try assumption.
  - simpl in Hn. lia.
  - rewrite <- Hk. f_equal. f_equal.
    change (d :: n ++ tail) with ((d :: n) ++ tail).
    rewrite length_app.
    replace (length (d :: n) + length tail - length tail) with (length (d :: n) + 0) by lia.
    rewrite firstn_app_2. simpl. rewrite app_nil_r. reflexivity.
Qed.


Lemma run_alt_first (A : Type) r1 r2 pv s cp (k : cont A) a :
  run U fl r1 pv s cp k = Some a -> run U fl (Alt r1 r2) pv s cp k = Some a.
Proof. intros H. rewrite run_alt, H. reflexivity. Qed.

End LinePass.

Section LinePassMinute.
Import Preproc Notions.
Variable U : unicode.

Lemma apostrophe_cases q : apostrophe q = true -> q = 39%N \/ q = 8217%N.
Proof.
  unfold apostrophe. intros H. apply orb_true_iff in H as [H|H];
    apply N.eqb_eq in H; auto.
Qed.

Lemma all_digits_solid n : n <> [] -> all_digits n = true -> starts_solid n = true.
Proof.
  destruct n as [|d n]; [contradiction|]. intros _ H. simpl in *.
  apply andb_true_iff in H as [H _]. rewrite (ascii_digit_solid _ H). reflexivity.
Qed.

Lemma starts_solid_app n tail : n <> [] -> starts_solid n = true -> starts_solid (n ++ tail) = true.
Proof. destruct n; [contradiction|]. intros _ H. exact H. Qed.

Lemma blank_in_line_space ws : forallb blank_in_line ws = true -> forallb isspace ws = true.
Proof.
  induction ws as [|w ws IH]; simpl; [reflexivity|].
  intros H. apply andb_true_iff in H as [H1 H2]. unfold blank_in_line in H1.
  apply andb_true_iff in H1 as [H1 _]. rewrite H1. simpl. apply IH, H2.
Qed.

Lemma prev_after_in_line ws : forall q,
  forallb blank_in_line ws = true -> q <> 10%N ->
  exists p, prev_after (Some q) ws = Some p /\ p <> 10%N.
Proof.
  induction ws as [|w ws IH]; intros q Hws Hq; simpl.
  - exists q. split; [reflexivity|exact Hq].
  - simpl in Hws. apply andb_true_iff in Hws as [Hw Hws].
    apply IH; [exact Hws|].
    unfold blank_in_line in Hw. apply andb_true_iff in Hw as [_ Hw].
    apply negb_true_iff in Hw. apply N.eqb_neq in Hw. exact Hw.
Qed.

(** No line starts inside a line: a pattern anchored by [^] is not found
    past the first character. *)
Lemma search_from_inside_line r rest : forall adv p,
  p <> 10%N -> one_line rest = true ->
  search_from U flag_M (Seq Bol r) adv (Some p) rest = None.
Proof.
  induction rest as [|c rest IH]; intros adv p Hp Hl.
  - cbn [search_from]. unfold match_at. rewrite run_seq. cbn [run at_bol].
    apply N.eqb_neq in Hp. rewrite Hp. reflexivity.
  - cbn [search_from]. unfold match_at. rewrite run_seq. cbn [run at_bol].
    pose proof Hp as Hp'. apply N.eqb_neq in Hp'. rewrite Hp'. cbn [multiline flag_M andb].
    simpl in Hl. apply andb_true_iff in Hl as [Hc Hl].
    rewrite IH; [reflexivity | | exact Hl].
    apply negb_true_iff in Hc. apply N.eqb_neq in Hc. exact Hc.
Qed.

Lemma search_from_after r rest adv pv p :
  pv = Some p -> p <> 10%N -> one_line rest = true ->
  search_from U flag_M (Seq Bol r) adv pv rest = None.
Proof. intros ->. apply search_from_inside_line. Qed.

(** One match at the start and none after it: [sub] replaces that one. *)
Lemma sub_first_only fl r (repl : rmatch -> str) line m :
  match_at U fl r false None line = Some m ->
  m_text m <> [] ->
  search_from U fl r false (m_prev m) (m_rest m) = None ->
  sub U fl r repl line = repl m ++ m_rest m.
Proof.
  intros Hm Ht Hs. unfold sub, finditer.
  assert (Hsf : search_from U fl r false None line = Some ([], m)).
  { destruct line; cbn [search_from]; rewrite Hm; reflexivity. }
  rewrite matches_from_step, Hsf.
  destruct (m_text m) as [|c0 t0] eqn:Et; [contradiction|].
  rewrite matches_from_step, Hs.
  cbn [map concat fst snd app]. rewrite app_nil_r. reflexivity.
Qed.

Lemma run_bol_start (A : Type) s cp (k : cont A) :
  run U flag_M Bol None s cp k = k None s cp.
Proof. reflexivity. Qed.

Lemma run_plus_skip (A : Type) r q s pv cp (k : cont A) :
  apostrophe q = true ->
  run U flag_M (opt (Seq (word "+") r)) pv (q :: s) cp k = k pv (q :: s) cp.
Proof.
  intros Hq. unfold opt. rewrite run_alt, run_seq.
  apply apostrophe_cases in Hq as [-> | ->]; reflexivity.
Qed.

Lemma apostrophe_closes q :
  apostrophe q = true ->
  cls_match U flag_M false (CChr 58%N :: apostrophes) q = true
  /\ isspace q = false /\ isdecimal U q = false /\ q <> 10%N.
Proof.
  intros Hq. apply apostrophe_cases in Hq as [-> | ->];
    repeat split; try reflexivity; discriminate.
Qed.

(** The rest of [MIN_LINE] once the digits are read: the apostrophe and the
    blanks after it. *)
Lemma run_close_minute (A : Type) (k : cont A) q ws rest pv cp a :
  apostrophe q = true ->
  forallb blank_in_line ws = true -> starts_solid rest = true ->
  k (prev_after (Some q) ws) rest cp = Some a ->
  run U flag_M
    (Seq spaces (Seq (Cls false (CChr 58%N :: apostrophes)) spaces))
    pv (q :: ws ++ rest) cp k = Some a.
Proof.
  intros Hq Hws Hrest Hk.
  destruct (apostrophe_closes _ Hq) as (Hc & Hs & _ & _).
  rewrite run_seq, run_spaces_stop by (simpl; rewrite Hs; reflexivity).
  rewrite run_seq, run_cls_cons, Hc.
  apply run_spaces_all; try assumption.
  apply blank_in_line_space, Hws.
Qed.

Lemma match_minute_line n extra q ws rest :
  all_digits n = true -> n <> [] -> length n <= 3 ->
  extra_ok extra = true ->
  apostrophe q = true ->
  forallb blank_in_line ws = true -> starts_solid rest = true ->
  let line := n ++ plus_text extra ++ q :: ws ++ rest in
  match_at U flag_M MIN_LINE false None line
  = Some {| m_text := firstn (length line - length rest) line;
            m_caps := minute_caps n extra;
            m_prev := prev_after (Some q) ws;
            m_rest := rest |}.
Proof.
  intros Hn Hne Hlen Hex Hq Hws Hrest line.
  destruct (apostrophe_closes _ Hq) as (_ & _ & Hqd & _).
  unfold match_at, MIN_LINE. cbn [seqs].
  rewrite run_seq, run_bol_start.
  rewrite run_seq, run_spaces_stop
    by (apply starts_solid_app; [exact Hne | apply all_digits_solid; assumption]).
  rewrite run_seq. subst line.
  destruct extra as [m|]; cbn [plus_text app minute_caps].
  - unfold extra_ok in Hex.
    apply andb_true_iff in Hex as [Hex Hm2]. apply andb_true_iff in Hex as [Hmd Hm1].
    apply Nat.leb_le in Hm1, Hm2.
    apply run_group_digits; try assumption; [reflexivity|].
    rewrite run_seq. unfold opt. apply run_alt_first.
    rewrite run_seq. change (lit "+" ++ m ++ q :: ws ++ rest)
      with (43%N :: m ++ q :: ws ++ rest).
    change (run U flag_M (word "+") ?pv (43%N :: ?s) ?cp ?k)
      with (k (Some 43%N) s cp). cbv beta.
    apply run_group_digits; try assumption.
    + simpl. rewrite Hqd. reflexivity.
    + destruct m; [simpl in Hm1; lia | discriminate].
    + apply run_close_minute; try assumption. reflexivity.
  - apply run_group_digits; try assumption.
    + simpl. rewrite Hqd. reflexivity.
    + rewrite run_seq, run_plus_skip by assumption.
      apply run_close_minute; try assumption. reflexivity.
Qed.


Lemma firstn_prefix (pre rest : str) :
  firstn (length (pre ++ rest) - length rest) (pre ++ rest) = pre.
Proof.
  rewrite length_app.
  replace (length pre + length rest - length rest) with (length pre + 0) by lia.
  rewrite firstn_app_2. simpl. apply app_nil_r.
Qed.



End LinePassMinute.


Section NormaliserExamples.

Import Preproc Sample.



End NormaliserExamples.

(* ================================================================== *)
(** * The matcher: what a match has read *)
(* ================================================================== *)

Section MatcherReads.

Import Notions MoreNotions.

Variable U : unicode.
Variable fl : flags.

Lemma prev_after_app pv a b :
  prev_after (prev_after pv a) b = prev_after pv (a ++ b).
Proof. unfold prev_after. rewrite fold_left_app. reflexivity. Qed.

Lemma infix_app_l t a b : infix t a -> infix t (a ++ b).
Proof.
  intros (x & y & ->). exists x, (y ++ b). rewrite <- !app_assoc. reflexivity.
Qed.

Lemma infix_app_r t a b : infix t b -> infix t (a ++ b).
Proof.
  intros (x & y & ->). exists (a ++ x), y. rewrite <- !app_assoc. reflexivity.
Qed.

Lemma infix_refl t : infix t t.
Proof. exists [], []. rewrite app_nil_r. reflexivity. Qed.

Lemma Reads_refl G pv s cp : Reads G [] pv s cp pv s cp.
Proof. repeat split; auto. Qed.

Lemma Reads_trans G p1 p2 pv s cp pv1 s1 cp1 pv2 s2 cp2 :
  Reads G p1 pv s cp pv1 s1 cp1 -> Reads G p2 pv1 s1 cp1 pv2 s2 cp2 ->
  Reads G (p1 ++ p2) pv s cp pv2 s2 cp2.
Proof.
  intros (E1 & P1 & K1 & I1) (E2 & P2 & K2 & I2). repeat split.
  - rewrite E1, E2, app_assoc. reflexivity.
  - rewrite P2, P1. apply prev_after_app.
  - intros i Hi. rewrite (K2 i Hi). apply K1, Hi.
  - intros i t Ht. destruct (I2 i t Ht) as [H|H].
    + destruct (I1 i t H) as [H'|H']; [left; exact H'|].
      right. apply infix_app_l, H'.
    + right. apply infix_app_r, H.
Qed.

Lemma Reads_weaken (G G' : nat -> bool) pre pv s cp pv' s' cp' :
  (forall i, G' i = false -> G i = false) ->
  Reads G pre pv s cp pv' s' cp' -> Reads G' pre pv s cp pv' s' cp'.
Proof.
  intros HG (E & P & K & I). repeat split; auto.
Qed.

Lemma Reads_one G c pv s cp : Reads G [c] pv (c :: s) cp (Some c) s cp.
Proof. repeat split; auto. Qed.

Lemma star_loop_reads (A : Type) (g : bool) (G : nat -> bool)
    (body : option char -> str -> caps -> cont A -> option A) (k : cont A) :
  (forall (k' : cont A) pv s cp a,
      body pv s cp k' = Some a ->
      exists pre pv' s' cp',
        Reads G pre pv s cp pv' s' cp' /\ k' pv' s' cp' = Some a) ->
  forall n pv s cp a,
    star_loop g body k n pv s cp = Some a ->
    exists pre pv' s' cp',
      Reads G pre pv s cp pv' s' cp' /\ k pv' s' cp' = Some a.
Proof.
  intros Hbody. induction n as [|n IH]; intros pv s cp a H; simpl in H.
  - exists [], pv, s, cp. split; [apply Reads_refl | exact H].
  - assert (Hmore : forall a0, body pv s cp (star_loop g body k n) = Some a0 ->
              exists pre pv' s' cp',
                Reads G pre pv s cp pv' s' cp' /\ k pv' s' cp' = Some a0).
    { intros a0 Hb. apply Hbody in Hb as (p1 & pv1 & s1 & cp1 & R1 & Hk1).
      apply IH in Hk1 as (p2 & pv2 & s2 & cp2 & R2 & Hk2).
      exists (p1 ++ p2), pv2, s2, cp2. split; [|exact Hk2].
      eapply Reads_trans; eassumption. }
    destruct g.
    + destruct (body pv s cp (star_loop true body k n)) eqn:Eb.
      * injection H as <-. apply Hmore. reflexivity.
      * exists [], pv, s, cp. split; [apply Reads_refl | exact H].
    + destruct (k pv s cp) eqn:Ek.
      * injection H as <-. exists [], pv, s, cp.
        split; [apply Reads_refl | exact Ek].
      * apply Hmore. exact H.
Qed.

(** A run that succeeds has read a prefix of the text and handed the rest
    to its continuation; the groups of other patterns are untouched, a
    group it set holds a part of what it read, and a pattern that needs a
    digit has read one. *)
Lemma run_reads (r : regex) :
  forall (A : Type) (k : cont A) pv s cp a,
    run U fl r pv s cp k = Some a ->
    exists pre pv' s' cp',
      Reads (fun i => has_group i r) pre pv s cp pv' s' cp'
      /\ k pv' s' cp' = Some a
      /\ (reads_digit r = true ->
          exists c, In c pre /\ isdecimal U c = true).
Proof.
  induction r as [ | l | | neg items | r1 IH1 r2 IH2 | r1 IH1 r2 IH2
                 | g r1 IH1 | j r1 IH1 | | | | r1 IH1 ];
    intros A k pv s cp a H; simpl in H.
  - exists [], pv, s, cp. split; [apply Reads_refl|]. split; [exact H|discriminate].
  - destruct s as [|c s']; [discriminate|].
    destruct (chr_match fl l c); [|discriminate].
    exists [c], (Some c), s', cp. split; [apply Reads_one|].
    split; [exact H|discriminate].
  - destruct s as [|c s']; [discriminate|].
    destruct (c =? 10)%N; [discriminate|].
    exists [c], (Some c), s', cp. split; [apply Reads_one|].
    split; [exact H|discriminate].
  - destruct s as [|c s']; [discriminate|].
    destruct (cls_match U fl neg items c) eqn:Ec; [|discriminate].
    exists [c], (Some c), s', cp. split; [apply Reads_one|].
    split; [exact H|].
    intros Hd. exists c. split; [left; reflexivity|].
    simpl in Hd. destruct neg; [discriminate|].
    destruct items as [|[ | | | ] [|]]; try discriminate.
    unfold cls_match in Ec. simpl in Ec. rewrite orb_false_r in Ec. exact Ec.
  - apply IH1 in H as (p1 & pv1 & s1 & cp1 & R1 & H1 & D1).
    apply IH2 in H1 as (p2 & pv2 & s2 & cp2 & R2 & H2 & D2).
    exists (p1 ++ p2), pv2, s2, cp2. split; [|split; [exact H2|]].
    + eapply Reads_trans.
      * eapply Reads_weaken; [|exact R1].
        intros i Hi. simpl in Hi. apply orb_false_iff in Hi. apply Hi.
      * eapply Reads_weaken; [|exact R2].
        intros i Hi. simpl in Hi. apply orb_false_iff in Hi. apply Hi.
    + intros Hd. simpl in Hd. apply orb_true_iff in Hd as [Hd|Hd].
      * destruct (D1 Hd) as [c [Hc Hdc]]. exists c. split; [|exact Hdc].
        apply in_or_app. left. exact Hc.
      * destruct (D2 Hd) as [c [Hc Hdc]]. exists c. split; [|exact Hdc].
        apply in_or_app. right. exact Hc.
  - destruct (run U fl r1 pv s cp k) eqn:E1.
    + injection H as <-. apply IH1 in E1 as (p1 & pv1 & s1 & cp1 & R1 & H1 & D1).
      exists p1, pv1, s1, cp1. split; [|split; [exact H1|]].
      * eapply Reads_weaken; [|exact R1].
        intros i Hi. simpl in Hi. apply orb_false_iff in Hi. apply Hi.
      * intros Hd. simpl in Hd. apply andb_true_iff in Hd. apply D1, Hd.
    + apply IH2 in H as (p2 & pv2 & s2 & cp2 & R2 & H2 & D2).
      exists p2, pv2, s2, cp2. split; [|split; [exact H2|]].
      * eapply Reads_weaken; [|exact R2].
        intros i Hi. simpl in Hi. apply orb_false_iff in Hi. apply Hi.
      * intros Hd. simpl in Hd. apply andb_true_iff in Hd. apply D2, Hd.
  - apply star_loop_reads with (G := fun i => has_group i r1) in H.
    + destruct H as (p1 & pv1 & s1 & cp1 & R1 & H1).
      exists p1, pv1, s1, cp1. split; [exact R1|]. split; [exact H1|discriminate].
    + intros k' pv0 s0 cp0 a0 Hb.
      apply IH1 in Hb as (p1 & pv1 & s1 & cp1 & R1 & H1 & _).
      exists p1, pv1, s1, cp1. split; assumption.
  - apply IH1 in H as (p1 & pv1 & s1 & cp1 & R1 & H1 & D1).
    destruct R1 as (E & P & K & I).
    assert (Ef : firstn (length s - length s1) s = p1).
    { rewrite E, length_app.
      replace (length p1 + length s1 - length s1) with (length p1 + 0) by lia.
      rewrite firstn_app_2. simpl. apply app_nil_r. }
    rewrite Ef in H1.
    exists p1, pv1, s1, (cap_set j p1 cp1). split; [|split; [exact H1|exact D1]].
    repeat split; auto.
    + intros i Hi. simpl in Hi. apply orb_false_iff in Hi as [Hij Hi].
      unfold cap_set. simpl. rewrite Hij. apply K, Hi.
    + intros i t Ht. unfold cap_set in Ht. simpl in Ht.
      destruct (Nat.eqb i j).
      * injection Ht as <-. right. apply infix_refl.
      * apply I, Ht.
  - destruct (at_bol fl pv); [|discriminate].
    exists [], pv, s, cp. split; [apply Reads_refl|]. split; [exact H|discriminate].
  - destruct (at_eol fl s); [|discriminate].
    exists [], pv, s, cp. split; [apply Reads_refl|]. split; [exact H|discriminate].
  - destruct (xorb _ _); [|discriminate].
    exists [], pv, s, cp. split; [apply Reads_refl|]. split; [exact H|discriminate].
  - destruct (run U fl r1 pv s cp _); [discriminate|].
    exists [], pv, s, cp. split; [apply Reads_refl|]. split; [exact H|discriminate].
Qed.

End MatcherReads.

Section MatcherSplits.

Import Notions MoreNotions.

Variable U : unicode.
Variable fl : flags.
Variable r : regex.

(** A match splits the text into what it read and the rest. *)
Lemma match_at_reads adv pv s m :
  match_at U fl r adv pv s = Some m ->
  s = m_text m ++ m_rest m
  /\ m_prev m = prev_after pv (m_text m)
  /\ (forall i t, group i m = Some t -> infix t (m_text m))
  /\ (adv = true -> m_text m <> [])
  /\ (reads_digit r = true ->
      exists c, In c (m_text m) /\ isdecimal U c = true).
Proof.
  intros H. unfold match_at in H.
  apply run_reads in H as (pre & pv' & s' & cp' & (E & P & K & I) & Hk & D).
  unfold accept in Hk.
  destruct (adv && Nat.eqb (length s') (length s)) eqn:Ea; [discriminate|].
  injection Hk as <-. cbn [m_text m_rest m_prev m_caps group].
  assert (Ef : firstn (length s - length s') s = pre).
  { rewrite E, length_app.
    replace (length pre + length s' - length s') with (length pre + 0) by lia.
    rewrite firstn_app_2. simpl. apply app_nil_r. }
  rewrite Ef. repeat split; auto.
  - intros i t Ht. destruct (I i t Ht) as [Hc|Hc]; [discriminate|exact Hc].
  - intros -> ->. simpl in E. subst s'. simpl in Ea.
    rewrite Nat.eqb_refl in Ea. discriminate.
Qed.

Lemma search_from_reads s : forall adv pv skipped m,
  search_from U fl r adv pv s = Some (skipped, m) ->
  s = skipped ++ m_text m ++ m_rest m
  /\ m_prev m = prev_after pv (skipped ++ m_text m)
  /\ (forall i t, group i m = Some t -> infix t (m_text m))
  /\ (reads_digit r = true ->
      exists c, In c (m_text m) /\ isdecimal U c = true).
Proof.
  induction s as [|c s IH]; intros adv pv skipped m H; simpl in H.
  - destruct (match_at U fl r adv pv []) eqn:E; [|discriminate].
    injection H as <- <-.
    apply match_at_reads in E as (E1 & E2 & E3 & _ & E5). auto.
  - destruct (match_at U fl r adv pv (c :: s)) eqn:E.
    + injection H as <- <-.
      apply match_at_reads in E as (E1 & E2 & E3 & _ & E5). auto.
    + destruct (search_from U fl r false (Some c) s) as [[sk' m']|] eqn:E';
        [|discriminate].
      injection H as <- <-.
      apply IH in E' as (E1 & E2 & E3 & E5).
      repeat split; auto; subst s; auto.
Qed.

(** The matches of a text and the stretches between them make up the
    text, in order. *)
Lemma matches_from_reads n : forall adv pv s ms tl,
  matches_from n U fl r adv pv s = (ms, tl) ->
  s = concat (map (fun x => fst x ++ m_text (snd x)) ms) ++ tl.
Proof.
  induction n as [|n IH]; intros adv pv s ms tl H; simpl in H.
  - injection H as <- <-. reflexivity.
  - destruct (search_from U fl r adv pv s) as [[sk m]|] eqn:E.
    + destruct (matches_from n U fl r _ (m_prev m) (m_rest m)) as [ms' tl'] eqn:E'.
      injection H as <- <-.
      apply IH in E'. apply search_from_reads in E as (E1 & _).
      simpl. rewrite <- !app_assoc. rewrite <- E'. exact E1.
    + injection H as <- <-. reflexivity.
Qed.

(** [sub] that puts every match back gives the text back. *)
Lemma sub_identity s : sub U fl r (fun m => m_text m) s = s.
Proof.
  unfold sub, finditer.
  destruct (matches_from _ U fl r false None s) as [ms tl] eqn:E.
  apply matches_from_reads in E. symmetry. exact E.
Qed.

(** A pattern that is found nowhere: nothing is replaced, nothing split. *)
Lemma sub_no_match repl s :
  search_from U fl r false None s = None -> sub U fl r repl s = s.
Proof.
  intros H. unfold sub, finditer. rewrite matches_from_step, H. reflexivity.
Qed.

Lemma no_digit_no_search s :
  reads_digit r = true ->
  forallb (fun c => negb (isdecimal U c)) s = true ->
  forall adv pv, search_from U fl r adv pv s = None.
Proof.
  intros Hr. induction s as [|c s IH]; intros Hs adv pv.
  - simpl. destruct (match_at U fl r adv pv []) as [m|] eqn:E; [|reflexivity].
    apply match_at_reads in E as (E1 & _ & _ & _ & E5).
    destruct (E5 Hr) as [x [Hx _]].
    destruct (m_text m); [destruct Hx | discriminate].
  - simpl. destruct (match_at U fl r adv pv (c :: s)) as [m|] eqn:E.
    + exfalso. apply match_at_reads in E as (E1 & _ & _ & _ & E5).
      destruct (E5 Hr) as [x [Hx Hd]].
      rewrite forallb_forall in Hs.
      assert (Hin : In x (c :: s)) by (rewrite E1; apply in_or_app; left; exact Hx).
      apply Hs in Hin. rewrite Hd in Hin. discriminate.
    + simpl in Hs. apply andb_true_iff in Hs as [_ Hs].
      rewrite IH by exact Hs. reflexivity.
Qed.

End MatcherSplits.

(** X1.  A text without a decimal digit goes through the minute
    normaliser unchanged: both of its patterns need a digit. *)
Theorem normalise_minutes_without_digits (U : unicode) (text : str) :
  forallb (fun c => negb (isdecimal U c)) text = true ->
  Preproc.normalise_minutes U text = text.
Proof.
  intros H. unfold Preproc.normalise_minutes, Preproc.line_pass,
    Preproc.inline_pass.
  rewrite (sub_no_match U flag_M Preproc.MIN_LINE) by
    (apply no_digit_no_search; [reflexivity | exact H]).
  apply sub_no_match. apply no_digit_no_search; [reflexivity | exact H].
Qed.

Lemma normalise_minutes_without_digits_witness :
  Preproc.normalise_minutes Sample.ascii_only
    (lit "Kick-off at Villa Park: what a night!")
  = lit "Kick-off at Villa Park: what a night!".
Proof.
  apply normalise_minutes_without_digits. reflexivity.
Defined.

(* ================================================================== *)
(** * Stripping *)
(* ================================================================== *)

Section Stripping.

Lemma lstrip_splits s :
  exists a, s = a ++ lstrip s /\ forallb isspace a = true.
Proof.
  induction s as [|c s [a [E Ha]]]; simpl.
  - exists []. split; reflexivity.
  - destruct (isspace c) eqn:Ec.
    + exists (c :: a). split; [simpl; f_equal; exact E|].
      simpl. rewrite Ec. exact Ha.
    + exists []. split; reflexivity.
Qed.

Lemma lstrip_head s :
  match lstrip s with c :: _ => isspace c = false | [] => True end.
Proof.
  induction s as [|c s IH]; simpl; [exact I|].
  destruct (isspace c) eqn:Ec; [exact IH | exact Ec].
Qed.

Lemma lstrip_solid c s : isspace c = false -> lstrip (c :: s) = c :: s.
Proof. intros H. simpl. rewrite H. reflexivity. Qed.

Lemma lstrip_all_space s : forallb isspace s = true -> lstrip s = [].
Proof.
  induction s as [|c s IH]; simpl; [reflexivity|].
  intros H. apply andb_true_iff in H as [Hc Hs]. rewrite Hc. apply IH, Hs.
Qed.

Lemma lstrip_app_solid a c s :
  isspace c = false -> lstrip (a ++ c :: s) = lstrip a ++ c :: s
  \/ (forallb isspace a = true /\ lstrip (a ++ c :: s) = c :: s).
Proof.
  intros Hc. induction a as [|x a IH]; simpl.
  - right. rewrite Hc. split; reflexivity.
  - destruct (isspace x) eqn:Ex.
    + destruct IH as [IH | [Ha IH]].
      * left. exact IH.
      * right. split; [exact Ha | exact IH].
    + left. reflexivity.
Qed.

Lemma rstrip_splits s :
  exists b, s = rstrip s ++ b /\ forallb isspace b = true.
Proof.
  unfold rstrip. destruct (lstrip_splits (rev s)) as [a [E Ha]].
  exists (rev a). split.
  - rewrite <- rev_app_distr, <- E, rev_involutive. reflexivity.
  - rewrite forallb_forall in *. intros x Hx. apply Ha. apply in_rev. exact Hx.
Qed.

Lemma rstrip_last s :
  match rev (rstrip s) with c :: _ => isspace c = false | [] => True end.
Proof. unfold rstrip. rewrite rev_involutive. apply lstrip_head. Qed.

Lemma rstrip_keeps_head c s :
  isspace c = false -> exists t, rstrip (c :: s) = c :: t.
Proof.
  intros Hc. destruct (rstrip_splits (c :: s)) as [b [E Hb]].
  destruct (rstrip (c :: s)) as [|x t].
  - simpl in E. subst b. simpl in Hb. rewrite Hc in Hb. discriminate.
  - simpl in E. injection E as <- _. exists t. reflexivity.
Qed.

(** The parts of a stripped text: blanks, the text, blanks. *)
Lemma strip_splits s :
  exists a b, s = a ++ strip s ++ b
              /\ forallb isspace a = true /\ forallb isspace b = true.
Proof.
  unfold strip. destruct (lstrip_splits s) as [a [Ea Ha]].
  destruct (rstrip_splits (lstrip s)) as [b [Eb Hb]].
  exists a, b. split; [|split; assumption].
  rewrite <- Eb. exact Ea.
Qed.

Lemma strip_In c s : In c (strip s) -> In c s.
Proof.
  intros H. destruct (strip_splits s) as (a & b & E & _).
  rewrite E. apply in_or_app. right. apply in_or_app. left. exact H.
Qed.

(** A stripped text neither opens nor closes with a blank. *)
Lemma strip_ends s :
  match strip s with c :: _ => isspace c = false | [] => True end
  /\ match rev (strip s) with c :: _ => isspace c = false | [] => True end.
Proof.
  split; [|apply rstrip_last].
  unfold strip. pose proof (lstrip_head s) as H.
  destruct (lstrip s) as [|c t] eqn:E.
  - reflexivity.
  - destruct (@rstrip_keeps_head c t H) as [t' ->]. exact H.
Qed.

Lemma strip_solid_head c s : isspace c = false -> exists t, strip (c :: s) = c :: t.
Proof.
  intros H. unfold strip. rewrite lstrip_solid by exact H.
  apply rstrip_keeps_head, H.
Qed.

Lemma count_char_app c a b :
  count_char c (a ++ b) = count_char c a + count_char c b.
Proof. unfold count_char. rewrite filter_app, length_app. reflexivity. Qed.

Lemma count_char_spaces c a :
  isspace c = false -> forallb isspace a = true -> count_char c a = 0.
Proof.
  intros Hc. unfold count_char. induction a as [|x a IH]; simpl; [reflexivity|].
  intros H. apply andb_true_iff in H as [Hx Ha].
  unfold char_eqb. destruct (N.eqb_spec c x) as [->|_].
  - rewrite Hc in Hx. discriminate.
  - apply IH, Ha.
Qed.

(** Stripping removes no character that is not a blank. *)
Lemma count_char_strip c s :
  isspace c = false -> count_char c (strip s) = count_char c s.
Proof.
  intros Hc. destruct (strip_splits s) as (a & b & E & Ha & Hb).
  rewrite E at 2. rewrite !count_char_app.
  rewrite (@count_char_spaces c a Hc Ha), (@count_char_spaces c b Hc Hb). lia.
Qed.

End Stripping.

(* ================================================================== *)
(** * The matcher: what lies between the matches *)
(* ================================================================== *)

Section MatcherBetween.

Import Notions MoreNotions.

Variable U : unicode.
Variable fl : flags.
Variable r : regex.

(** A first match found at the cursor, when empty matches are barred, is
    not empty. *)
Lemma search_from_advances s pv m :
  search_from U fl r true pv s = Some ([], m) -> m_text m <> [].
Proof.
  intros H. destruct s as [|c s]; simpl in H.
  - destruct (match_at U fl r true pv []) eqn:E; [|discriminate].
    injection H as <-. apply match_at_reads in E as (_ & _ & _ & E4 & _).
    apply E4. reflexivity.
  - destruct (match_at U fl r true pv (c :: s)) eqn:E.
    + injection H as <-. apply match_at_reads in E as (_ & _ & _ & E4 & _).
      apply E4. reflexivity.
    + destruct (search_from U fl r false (Some c) s) as [[sk' m']|];
        discriminate.
Qed.

(** With the rounds [finditer] allows, the search ends because nothing
    more is found, not because the rounds run out. *)
Lemma matches_from_complete n : forall (adv : bool) pv (s : str) ms tl,
  2 * length s + (if adv then 0 else 1) < n ->
  matches_from n U fl r adv pv s = (ms, tl) ->
  exists adv' pv', search_from U fl r adv' pv' tl = None.
Proof.
  induction n as [|n IH]; intros adv pv s ms tl Hn H; [lia|].
  rewrite matches_from_step in H.
  destruct (search_from U fl r adv pv s) as [[sk m]|] eqn:E.
  - destruct (matches_from n U fl r _ (m_prev m) (m_rest m)) as [ms' tl'] eqn:E'.
    injection H as <- <-.
    eapply IH; [|exact E'].
    pose proof E as Er. apply search_from_reads in Er as (E1 & _).
    assert (Hlen : length s = length sk + length (m_text m) + length (m_rest m)).
    { rewrite E1 at 1. rewrite !length_app. lia. }
    destruct (m_text m) as [|x t] eqn:Et.
    + destruct sk as [|y sk].
      * destruct adv.
        -- exfalso. apply search_from_advances in E. apply E. exact Et.
        -- simpl in Hlen. lia.
      * simpl in Hlen. lia.
    + simpl in Hlen. lia.
  - injection H as <- <-. exists adv, pv. exact E.
Qed.

Variable c0 : char.
Hypothesis always : forall adv pv s, match_at U fl r adv pv (c0 :: s) <> None.

Lemma search_from_avoids s : forall adv pv,
  match search_from U fl r adv pv s with
  | Some (skipped, _) => ~ In c0 skipped
  | None => ~ In c0 s
  end.
Proof.
  induction s as [|c s IH]; intros adv pv; simpl.
  - destruct (match_at U fl r adv pv []); intros [].
  - destruct (match_at U fl r adv pv (c :: s)) eqn:E; [intros []|].
    specialize (IH false (Some c)).
    assert (Hc : c <> c0).
    { intros ->. exact (always adv pv s E). }
    destruct (search_from U fl r false (Some c) s) as [[sk m]|];
      intros [Hin|Hin]; auto.
Qed.

Lemma matches_from_avoid n : forall adv pv s ms tl,
  matches_from n U fl r adv pv s = (ms, tl) ->
  forall x, In x ms -> ~ In c0 (fst x).
Proof.
  induction n as [|n IH]; intros adv pv s ms tl H x Hx; simpl in H.
  - injection H as <- <-. destruct Hx.
  - pose proof (search_from_avoids s adv pv) as Ha.
    destruct (search_from U fl r adv pv s) as [[sk m]|].
    + destruct (matches_from n U fl r _ (m_prev m) (m_rest m)) as [ms' tl'] eqn:E'.
      injection H as <- <-. destruct Hx as [<-|Hx]; [exact Ha|].
      eapply IH; eassumption.
    + injection H as <- <-. destruct Hx.
Qed.

(** Where the pattern matches at every occurrence of [c0], no piece of
    [split] holds [c0], and [sub] leaves [c0] only where a replacement
    writes it. *)
Lemma split_avoids s piece :
  In piece (split U fl r s) -> ~ In c0 piece.
Proof.
  unfold split, finditer.
  destruct (matches_from _ U fl r false None s) as [ms tl] eqn:E.
  intros H. apply in_app_or in H as [H|[<-|[]]].
  - apply in_map_iff in H as [x [<- Hx]].
    eapply matches_from_avoid; eassumption.
  - apply matches_from_complete in E; [|simpl; lia].
    destruct E as (adv' & pv' & E).
    pose proof (search_from_avoids tl adv' pv') as Ha. rewrite E in Ha. exact Ha.
Qed.

Lemma sub_avoids repl s :
  (forall m, ~ In c0 (repl m)) -> ~ In c0 (sub U fl r repl s).
Proof.
  intros Hrepl. unfold sub, finditer.
  destruct (matches_from _ U fl r false None s) as [ms tl] eqn:E.
  intros H. apply in_app_or in H as [H|H].
  - apply in_concat in H as [seg [Hseg Hc]].
    apply in_map_iff in Hseg as [x [<- Hx]].
    apply in_app_or in Hc as [Hc|Hc].
    + eapply matches_from_avoid; eassumption.
    + exact (Hrepl _ Hc).
  - apply matches_from_complete in E; [|simpl; lia].
    destruct E as (adv' & pv' & E).
    pose proof (search_from_avoids tl adv' pv') as Ha. rewrite E in Ha.
    exact (Ha H).
Qed.

End MatcherBetween.

Section MatcherChars.

Import Notions MoreNotions.

Variable U : unicode.
Variable fl : flags.
Variable r : regex.

Lemma matches_from_groups n : forall adv pv s ms tl,
  matches_from n U fl r adv pv s = (ms, tl) ->
  forall x, In x ms ->
    (forall c, In c (fst x) -> In c s)
    /\ (forall c, In c (m_text (snd x)) -> In c s).
Proof.
  induction n as [|n IH]; intros adv pv s ms tl H x Hx; simpl in H.
  - injection H as <- <-. destruct Hx.
  - destruct (search_from U fl r adv pv s) as [[sk m]|] eqn:E.
    + destruct (matches_from n U fl r _ (m_prev m) (m_rest m)) as [ms' tl'] eqn:E'.
      injection H as <- <-.
      apply search_from_reads in E as (E1 & _).
      destruct Hx as [<-|Hx]; simpl.
      * split; intros c Hc; rewrite E1; apply in_or_app; [left; exact Hc|].
        right. apply in_or_app. left. exact Hc.
      * destruct (IH _ _ _ _ _ E' x Hx) as [I1 I2].
        split; intros c Hc; rewrite E1; apply in_or_app; right;
          apply in_or_app; right; auto.
    + injection H as <- <-. destruct Hx.
Qed.

(** Every character of [sub]'s result is a character of the text or was
    written by a replacement of one of its matches. *)
Lemma sub_chars (P : char -> Prop) repl s :
  (forall c, In c s -> P c) ->
  (forall m c, (forall x, In x (m_text m) -> P x) ->
               (forall i t, group i m = Some t -> infix t (m_text m)) ->
               In c (repl m) -> P c) ->
  forall c, In c (sub U fl r repl s) -> P c.
Proof.
  intros Hs Hrepl c. unfold sub, finditer.
  destruct (matches_from _ U fl r false None s) as [ms tl] eqn:E.
  pose proof (matches_from_reads _ _ _ _ _ _ _ E) as Es.
  intros H. apply in_app_or in H as [H|H].
  - apply in_concat in H as [seg [Hseg Hc]].
    apply in_map_iff in Hseg as [x [<- Hx]].
    destruct (matches_from_groups _ _ _ _ E x Hx) as [I1 I2].
    apply in_app_or in Hc as [Hc|Hc]; [apply Hs, I1, Hc|].
    eapply Hrepl; [| |exact Hc].
    + intros y Hy. apply Hs, I2, Hy.
    + clear -E Hx. revert E Hx. generalize (S (S (2 * length s))).
      intros n. generalize false, (@None char), s, ms, tl.
      induction n as [|n IH]; intros adv pv s0 ms0 tl0 H0 Hx0; simpl in H0.
      * injection H0 as <- <-. destruct Hx0.
      * destruct (search_from U fl r adv pv s0) as [[sk m]|] eqn:E0.
        -- destruct (matches_from n U fl r _ (m_prev m) (m_rest m))
             as [ms' tl'] eqn:E'.
           injection H0 as <- <-.
           destruct Hx0 as [<-|Hx0].
           ++ apply search_from_reads in E0 as (_ & _ & E3 & _). exact E3.
           ++ eapply IH; eassumption.
        -- injection H0 as <- <-. destruct Hx0.
  - apply Hs. rewrite Es. apply in_or_app. right. exact H.
Qed.

End MatcherChars.

(* ================================================================== *)
(** * The text the classifier and the normaliser work on *)
(* ================================================================== *)

Section CleanText.

Import Notions MoreNotions.

Variable U : unicode.

Lemma star_greedy_some (A : Type) body (k : cont A) n pv s cp x :
  k pv s cp = Some x ->
  exists a, star_loop true body k n pv s cp = Some a.
Proof.
  intros Hk. destruct n; simpl.
  - exists x. exact Hk.
  - destruct (body pv s cp (star_loop true body k n)) as [a|].
    + exists a. reflexivity.
    + exists x. exact Hk.
Qed.

Lemma accept_shorter adv c s pv' s' cp' :
  length s' <= length s -> accept adv (c :: s) pv' s' cp' <> None.
Proof.
  intros H. unfold accept.
  destruct (Nat.eqb_spec (length s') (length (c :: s))) as [E|E].
  - simpl in E. lia.
  - rewrite andb_false_r. discriminate.
Qed.

(** The line splitter matches wherever a newline stands. *)
Lemma newlines_always adv pv s :
  match_at U no_flags Parser.NEWLINES adv pv (10%N :: s) <> None.
Proof.
  unfold match_at, Parser.NEWLINES, plus.
  change (run U no_flags (Seq (Chr 10%N) (Star true (Chr 10%N))) pv
            (10%N :: s) [] (accept adv (10%N :: s)))
    with (star_loop true (run (A:=rmatch) U no_flags (Chr 10%N))
            (accept adv (10%N :: s)) (length s) (Some 10%N) s []).
  destruct (accept adv (10%N :: s) (Some 10%N) s []) as [x|] eqn:E.
  - destruct (star_greedy_some (run (A:=rmatch) U no_flags (Chr 10%N))
                (accept adv (10%N :: s)) (length s) (Some 10%N) s [] E)
      as [a ->].
    discriminate.
  - exfalso. revert E. apply accept_shorter. apply le_n.
Qed.

(** The pattern for Windows and old Mac line ends matches wherever a
    carriage return stands. *)
Lemma crlf_always adv pv s :
  match_at U no_flags Preproc.CRLF adv pv (13%N :: s) <> None.
Proof.
  unfold match_at, Preproc.CRLF, opt.
  change (run U no_flags (Seq (Chr 13%N) (Alt (Chr 10%N) Eps)) pv
            (13%N :: s) [] (accept adv (13%N :: s)))
    with (match run U no_flags (Chr 10%N) (Some 13%N) s []
                  (accept adv (13%N :: s)) with
          | Some a => Some a
          | None => accept adv (13%N :: s) (Some 13%N) s []
          end).
  destruct (run U no_flags (Chr 10%N) (Some 13%N) s [] _); [discriminate|].
  apply accept_shorter. apply le_n.
Qed.

End CleanText.

(** X2.  The lines the classifier walks: none is empty, none holds a
    newline, none opens or closes with a blank. *)
Theorem split_lines_are_clean (U : unicode) (text line : str) :
  In line (Parser.split_lines U text) ->
  line <> []
  /\ ~ In 10%N line
  /\ match line with c :: _ => isspace c = false | [] => True end
  /\ match rev line with c :: _ => isspace c = false | [] => True end.
Proof.
  intros H. pose proof (split_lines_truthy U text line H) as Ht.
  unfold Parser.split_lines in H. apply in_map_iff in H as [ln [<- Hin]].
  apply filter_In in Hin as [Hin _].
  split; [|split].
  - intros E. rewrite E in Ht. discriminate.
  - intros Hc. apply strip_In in Hc.
    revert Hc. eapply split_avoids; [|exact Hin].
    apply newlines_always.
  - apply strip_ends.
Qed.

Lemma split_lines_are_clean_witness :
  lit "Corner, Leeds." <> []
  /\ ~ In 10%N (lit "Corner, Leeds.")
  /\ isspace 67%N = false
  /\ isspace 46%N = false.
Proof.
  apply (split_lines_are_clean Sample.ascii_only
           (lit "  [MIN=3] Kick-off  " ++ [10; 13; 10]%N ++ lit "	 Corner, Leeds.  ")
           (lit "Corner, Leeds.")).
  vm_compute. right. left. reflexivity.
Defined.

Section CleanChars.

Import Notions MoreNotions.

Variable U : unicode.

Lemma dec_digits_chars fuel : forall n acc c,
  (forall x, In x acc -> ascii_digit x = true) ->
  In c (dec_digits fuel n acc) -> ascii_digit c = true.
Proof.
  induction fuel as [|f IH]; intros n acc c Hacc H; simpl in H.
  - apply Hacc, H.
  - assert (Hd : forall x, In x ((48 + n mod 10)%N :: acc) -> ascii_digit x = true).
    { intros x [<-|Hx]; [|apply Hacc, Hx].
      unfold ascii_digit.
      pose proof (N.mod_lt n 10 ltac:(discriminate)) as Hlt.
      apply andb_true_iff. split; apply N.leb_le.
      - apply N.le_add_r.
      - change 57%N with (48 + 9)%N. apply N.add_le_mono_l.
        apply N.lt_succ_r. exact Hlt. }
    destruct (n <? 10)%N.
    + apply Hd, H.
    + eapply IH; [exact Hd | exact H].
Qed.

Lemma str_of_N_chars n c : In c (str_of_N n) -> ascii_digit c = true.
Proof. unfold str_of_N. apply dec_digits_chars. intros x []. Qed.

Lemma ascii_digit_plain c : ascii_digit c = true -> plain c.
Proof.
  intros H. unfold ascii_digit in H.
  apply andb_true_iff in H as [H1 H2]. apply N.leb_le in H1, H2.
  unfold plain. repeat split; lia.
Qed.

Lemma infix_In t s c : infix t s -> In c t -> In c s.
Proof.
  intros (a & b & ->) H. apply in_or_app. right. apply in_or_app. left. exact H.
Qed.

(** A tag is written with plain characters when the minute it was read
    from is. *)
Lemma tag_plain (m : rmatch) c :
  (forall x, In x (m_text m) -> plain x) ->
  (forall i t, group i m = Some t -> infix t (m_text m)) ->
  In c (Preproc._tag U (group_or_empty 1 m) (group 2 m)) -> plain c.
Proof.
  intros Hm Hg H. unfold Preproc._tag in H.
  apply in_app_or in H as [H|H].
  { simpl in H. unfold plain.
    repeat (destruct H as [<-|H]; [repeat split; discriminate|]). destruct H. }
  apply in_app_or in H as [H|H].
  { apply ascii_digit_plain, (str_of_N_chars _ _ H). }
  apply in_app_or in H as [H|H].
  - destruct (truthy_opt (group 2 m)); [|destruct H].
    apply in_app_or in H as [H|H].
    + simpl in H. destruct H as [<-|[]]. repeat split; discriminate.
    + destruct (group 2 m) as [e|] eqn:E; [|destruct H].
      apply Hm. eapply infix_In; [apply (Hg 2 e E) | exact H].
  - simpl in H. destruct H as [<-|[]]. repeat split; discriminate.
Qed.

Lemma normalise_minutes_plain text :
  (forall c, In c text -> plain c) ->
  forall c, In c (Preproc.normalise_minutes U text) -> plain c.
Proof.
  intros Ht. unfold Preproc.normalise_minutes, Preproc.inline_pass,
    Preproc.line_pass.
  apply sub_chars.
  - apply sub_chars; [exact Ht|].
    intros m c Hm Hg H. unfold Preproc.repl_line in H.
    apply in_app_or in H as [H|H].
    + eapply tag_plain; eassumption.
    + simpl in H. destruct H as [<-|[]]. repeat split; discriminate.
  - intros m c Hm Hg H. unfold Preproc.repl_inline in H.
    eapply tag_plain; eassumption.
Qed.

End CleanChars.

(** X3.  Cleaned text holds no carriage return and no en or em dash:
    [clean] turns the dashes into hyphens and the old line ends into
    newlines, and the minute normaliser brings none back. *)
Theorem clean_is_plain (U : unicode) (text : str) (c : char) :
  In c (Preproc.clean U text) -> c <> 13%N /\ c <> 8211%N /\ c <> 8212%N.
Proof.
  unfold Preproc.clean. apply normalise_minutes_plain.
  intros x Hx.
  assert (Hdash : forall y, In y (map Preproc.dash_to_hyphen text) ->
                            y <> 8211%N /\ y <> 8212%N).
  { intros y Hy. apply in_map_iff in Hy as [z [<- _]].
    unfold Preproc.dash_to_hyphen.
    destruct (N.eqb_spec z 8212); [split; discriminate|].
    destruct (N.eqb_spec z 8211); [split; discriminate|].
    simpl. split; assumption. }
  assert (Hcr : forall y,
             In y (sub U no_flags Preproc.CRLF (fun _ => [10%N])
                     (map Preproc.dash_to_hyphen text)) -> MoreNotions.plain y).
  { intros y Hy. unfold MoreNotions.plain. split.
    - intros ->. revert Hy. apply sub_avoids.
      + apply crlf_always.
      + intros m [H|[]]. discriminate.
    - revert y Hy. apply sub_chars; [exact Hdash|].
      intros m y _ _ [<-|[]]. split; discriminate. }
  revert x Hx. apply sub_chars; [exact Hcr|].
  intros m y _ _ [<-|[<-|[]]]; repeat split; discriminate.
Qed.

Lemma clean_is_plain_witness :
  45%N <> 13%N /\ 45%N <> 8211%N /\ 45%N <> 8212%N.
Proof.
  apply (clean_is_plain Sample.ascii_only
           (lit "12' Corner" ++ [32; 8212; 32]%N ++ lit "Leeds." ++ [13; 10]%N)
           45%N).
  vm_compute. do 22 right. left. reflexivity.
Defined.

(* ================================================================== *)
(** * What a pattern reads, and what its groups hold *)
(* ================================================================== *)

Section MatcherLang.

Import Notions MoreNotions.

Variable U : unicode.
Variable fl : flags.

Lemma caps_from_refl r cp : caps_from U fl r cp cp.
Proof. intros i t H. left. exact H. Qed.

Lemma caps_from_trans r1 r2 r cp cp1 cp2 :
  (forall i r', grp_in i r' r1 -> grp_in i r' r) ->
  (forall i r', grp_in i r' r2 -> grp_in i r' r) ->
  caps_from U fl r1 cp cp1 -> caps_from U fl r2 cp1 cp2 ->
  caps_from U fl r cp cp2.
Proof.
  intros G1 G2 H1 H2 i t Ht.
  destruct (H2 i t Ht) as [H|(r' & Hg & Hl)].
  - destruct (H1 i t H) as [H'|(r' & Hg & Hl)]; [left; exact H'|].
    right. exists r'. split; [apply G1, Hg | exact Hl].
  - right. exists r'. split; [apply G2, Hg | exact Hl].
Qed.

Lemma star_loop_lang (A : Type) (g : bool) (r : regex) (k : cont A) :
  (forall (k' : cont A) pv s cp a,
      run U fl r pv s cp k' = Some a ->
      exists pre pv' s' cp',
        s = pre ++ s' /\ lang U fl r pre /\ caps_from U fl r cp cp'
        /\ k' pv' s' cp' = Some a) ->
  forall n pv s cp a,
    star_loop g (run (A:=A) U fl r) k n pv s cp = Some a ->
    exists pre pv' s' cp',
      s = pre ++ s' /\ lang U fl (Star g r) pre
      /\ caps_from U fl r cp cp' /\ k pv' s' cp' = Some a.
Proof.
  intros Hbody. induction n as [|n IH]; intros pv s cp a H; simpl in H.
  - exists [], pv, s, cp. repeat split; auto using caps_from_refl.
    apply lang_star_nil.
  - assert (Hmore : forall a0,
              run U fl r pv s cp (star_loop g (run (A:=A) U fl r) k n) = Some a0 ->
              exists pre pv' s' cp',
                s = pre ++ s' /\ lang U fl (Star g r) pre
                /\ caps_from U fl r cp cp' /\ k pv' s' cp' = Some a0).
    { intros a0 Hb. apply Hbody in Hb as (p1 & pv1 & s1 & cp1 & E1 & L1 & C1 & Hk1).
      apply IH in Hk1 as (p2 & pv2 & s2 & cp2 & E2 & L2 & C2 & Hk2).
      exists (p1 ++ p2), pv2, s2, cp2. repeat split.
      - rewrite E1, E2, app_assoc. reflexivity.
      - apply lang_star_cons; assumption.
      - eapply caps_from_trans; [| |exact C1|exact C2]; auto.
      - exact Hk2. }
    destruct g.
    + destruct (run U fl r pv s cp (star_loop true (run (A:=A) U fl r) k n)) eqn:Eb.
      * injection H as <-. apply Hmore. reflexivity.
      * exists [], pv, s, cp. repeat split; auto using caps_from_refl.
        apply lang_star_nil.
    + destruct (k pv s cp) eqn:Ek.
      * injection H as <-. exists [], pv, s, cp.
        repeat split; auto using caps_from_refl. apply lang_star_nil.
      * apply Hmore. exact H.
Qed.

(** A run that succeeds has read a text of its pattern, and every group
    it set holds a text of the pattern under that group. *)
Lemma run_lang (r : regex) :
  forall (A : Type) (k : cont A) pv s cp a,
    run U fl r pv s cp k = Some a ->
    exists pre pv' s' cp',
      s = pre ++ s' /\ lang U fl r pre /\ caps_from U fl r cp cp'
      /\ k pv' s' cp' = Some a.
Proof.
  induction r as [ | l | | neg items | r1 IH1 r2 IH2 | r1 IH1 r2 IH2
                 | g r1 IH1 | j r1 IH1 | | | | r1 IH1 ];
    intros A k pv s cp a H; simpl in H.
  - exists [], pv, s, cp. repeat split; auto using caps_from_refl. constructor.
  - destruct s as [|c s']; [discriminate|].
    destruct (chr_match fl l c) eqn:Ec; [|discriminate].
    exists [c], (Some c), s', cp. repeat split; auto using caps_from_refl.
    constructor. exact Ec.
  - destruct s as [|c s']; [discriminate|].
    destruct (c =? 10)%N eqn:Ec; [discriminate|].
    exists [c], (Some c), s', cp. repeat split; auto using caps_from_refl.
    constructor. exact Ec.
  - destruct s as [|c s']; [discriminate|].
    destruct (cls_match U fl neg items c) eqn:Ec; [|discriminate].
    exists [c], (Some c), s', cp. repeat split; auto using caps_from_refl.
    constructor. exact Ec.
  - apply IH1 in H as (p1 & pv1 & s1 & cp1 & E1 & L1 & C1 & H1).
    apply IH2 in H1 as (p2 & pv2 & s2 & cp2 & E2 & L2 & C2 & H2).
    exists (p1 ++ p2), pv2, s2, cp2. repeat split.
    + rewrite E1, E2, app_assoc. reflexivity.
    + constructor; assumption.
    + eapply caps_from_trans; [| |exact C1|exact C2]; simpl; auto.
    + exact H2.
  - destruct (run U fl r1 pv s cp k) eqn:E1.
    + injection H as <-. apply IH1 in E1 as (p1 & pv1 & s1 & cp1 & E1 & L1 & C1 & H1).
      exists p1, pv1, s1, cp1. repeat split; auto.
      * apply lang_alt_l, L1.
      * eapply caps_from_trans;
          [| |exact C1|apply (caps_from_refl Eps)]; simpl; auto.
        intros i r' [].
    + apply IH2 in H as (p2 & pv2 & s2 & cp2 & E2 & L2 & C2 & H2).
      exists p2, pv2, s2, cp2. repeat split; auto.
      * apply lang_alt_r, L2.
      * eapply caps_from_trans;
          [| |exact C2|apply (caps_from_refl Eps)]; simpl; auto.
        intros i r' [].
  - apply star_loop_lang in H; [|intros k'; apply IH1].
    destruct H as (p1 & pv1 & s1 & cp1 & E1 & L1 & C1 & H1).
    exists p1, pv1, s1, cp1. repeat split; auto.
  - apply IH1 in H as (p1 & pv1 & s1 & cp1 & E & L1 & C1 & H1).
    assert (Ef : firstn (length s - length s1) s = p1).
    { rewrite E, length_app.
      replace (length p1 + length s1 - length s1) with (length p1 + 0) by lia.
      rewrite firstn_app_2. simpl. apply app_nil_r. }
    rewrite Ef in H1.
    exists p1, pv1, s1, (cap_set j p1 cp1). repeat split; auto.
    + constructor. exact L1.
    + intros i t Ht. unfold cap_set in Ht. simpl in Ht.
      destruct (Nat.eqb_spec i j) as [->|Hij].
      * injection Ht as <-. right. exists r1. split; [left; auto | exact L1].
      * destruct (C1 i t Ht) as [Hc|(r' & Hg & Hl)]; [left; exact Hc|].
        right. exists r'. split; [right; exact Hg | exact Hl].
  - destruct (at_bol fl pv); [|discriminate].
    exists [], pv, s, cp. repeat split; auto using caps_from_refl. constructor.
  - destruct (at_eol fl s); [|discriminate].
    exists [], pv, s, cp. repeat split; auto using caps_from_refl. constructor.
  - destruct (xorb _ _); [|discriminate].
    exists [], pv, s, cp. repeat split; auto using caps_from_refl. constructor.
  - destruct (run U fl r1 pv s cp _); [discriminate|].
    exists [], pv, s, cp. repeat split; auto using caps_from_refl. constructor.
Qed.

Variable r : regex.

Lemma match_at_lang adv pv s m :
  match_at U fl r adv pv s = Some m ->
  lang U fl r (m_text m)
  /\ forall i t, group i m = Some t ->
       exists r', grp_in i r' r /\ lang U fl r' t.
Proof.
  intros H. unfold match_at in H.
  apply run_lang in H as (pre & pv' & s' & cp' & E & L & C & Hk).
  unfold accept in Hk.
  destruct (adv && Nat.eqb (length s') (length s)); [discriminate|].
  injection Hk as <-. cbn [m_text m_caps group].
  assert (Ef : firstn (length s - length s') s = pre).
  { rewrite E, length_app.
    replace (length pre + length s' - length s') with (length pre + 0) by lia.
    rewrite firstn_app_2. simpl. apply app_nil_r. }
  rewrite Ef. split; [exact L|].
  intros i t Ht. destruct (C i t Ht) as [Hc|Hc]; [discriminate|exact Hc].
Qed.

Lemma search_from_lang s : forall adv pv skipped m,
  search_from U fl r adv pv s = Some (skipped, m) ->
  lang U fl r (m_text m)
  /\ forall i t, group i m = Some t ->
       exists r', grp_in i r' r /\ lang U fl r' t.
Proof.
  induction s as [|c s IH]; intros adv pv skipped m H; simpl in H.
  - destruct (match_at U fl r adv pv []) eqn:E; [|discriminate].
    injection H as <- <-. eapply match_at_lang, E.
  - destruct (match_at U fl r adv pv (c :: s)) eqn:E.
    + injection H as <- <-. eapply match_at_lang, E.
    + destruct (search_from U fl r false (Some c) s) as [[sk' m']|] eqn:E';
        [|discriminate].
      injection H as <- <-. eapply IH, E'.
Qed.

Lemma search_lang s m :
  search U fl r s = Some m ->
  lang U fl r (m_text m)
  /\ forall i t, group i m = Some t ->
       exists r', grp_in i r' r /\ lang U fl r' t.
Proof.
  unfold search. destruct (search_from U fl r false None s) as [[sk m']|] eqn:E;
    [|discriminate].
  intros H. injection H as <-. eapply search_from_lang, E.
Qed.

Lemma matches_from_lang n : forall adv pv s ms tl,
  matches_from n U fl r adv pv s = (ms, tl) ->
  forall x, In x ms ->
    lang U fl r (m_text (snd x))
    /\ forall i t, group i (snd x) = Some t ->
         exists r', grp_in i r' r /\ lang U fl r' t.
Proof.
  induction n as [|n IH]; intros adv pv s ms tl H; simpl in H.
  - injection H as <- <-. intros x [].
  - destruct (search_from U fl r adv pv s) as [[sk m]|] eqn:E.
    + destruct (matches_from n U fl r _ (m_prev m) (m_rest m)) as [ms' tl'] eqn:E'.
      injection H as <- <-. intros x [<-|Hx].
      * simpl. eapply search_from_lang, E.
      * eapply IH; eassumption.
    + injection H as <- <-. intros x [].
Qed.

End MatcherLang.

(* ================================================================== *)
(** * The shape of a minute *)
(* ================================================================== *)

Section MinuteShape.

Import Parser Notions MoreNotions.

Variable U : unicode.

Lemma lang_digit fl t :
  lang U fl digit t -> exists c, t = [c] /\ isdecimal U c = true.
Proof.
  intros H. inversion H as [ | | | neg items c Hc | | | | | | | | | | ]; subst.
  exists c. split; [reflexivity|].
  unfold cls_match in Hc. simpl in Hc. rewrite orb_false_r in Hc. exact Hc.
Qed.

Lemma lang_upto_digits fl n : forall t,
  lang U fl (upto n digit) t ->
  forallb (isdecimal U) t = true /\ length t <= n.
Proof.
  induction n as [|n IH]; intros t H; simpl in H.
  - inversion H; subst. split; [reflexivity | apply Nat.le_refl].
  - unfold opt in H.
    inversion H as [ | | | | | r1 r2 a Ha | r1 r2 a Ha | | | | | | | ]; subst.
    + inversion Ha as [ | | | | r1 r2 a b Hd Hu | | | | | | | | | ]; subst.
      apply lang_digit in Hd as (c & -> & Hc).
      apply IH in Hu as [Hu Hl]. simpl. rewrite Hc. split; [exact Hu|].
      apply le_n_S, Hl.
    + inversion Ha; subst. split; [reflexivity | apply Nat.le_0_l].
Qed.

Lemma lang_digits fl n t :
  lang U fl (rep1 n digit) t -> digits U t = true /\ length t <= S (pred n).
Proof.
  unfold rep1. intros H.
  inversion H as [ | | | | r1 r2 a b Hd Hu | | | | | | | | | ]; subst.
  apply lang_digit in Hd as (c & -> & Hc).
  apply lang_upto_digits in Hu as [Hu Hl]. unfold digits. simpl.
  rewrite Hc, Hu. split; [reflexivity | apply le_n_S, Hl].
Qed.

Lemma casefold_plus c : casefold c = 43%N -> c = 43%N.
Proof.
  unfold casefold. intros H.
  destruct (ascii_upper c) eqn:Eu.
  { unfold ascii_upper in Eu. apply andb_true_iff in Eu as [Eu _].
    apply N.leb_le in Eu. lia. }
  destruct ((c =? 304) || (c =? 305))%N; [discriminate|].
  destruct (c =? 383)%N; [discriminate|].
  destruct (c =? 8490)%N; [discriminate|].
  exact H.
Qed.

Lemma lang_plus fl t : lang U fl (word "+") t -> t = [43%N].
Proof.
  intros H. change (word "+") with (Chr 43%N) in H.
  inversion H as [ | l c Hc | | | | | | | | | | | | ]; subst.
  unfold chr_match in Hc. destruct (ignorecase fl).
  - apply N.eqb_eq in Hc. symmetry in Hc. apply casefold_plus in Hc.
    subst. reflexivity.
  - apply N.eqb_eq in Hc. subst. reflexivity.
Qed.

Lemma lang_minute fl t : lang U fl MINUTE t -> minute_shape U t.
Proof.
  unfold MINUTE, opt. intros H.
  inversion H as [ | | | | r1 r2 a b Hd Ho | | | | | | | | | ]; subst.
  apply lang_digits in Hd as [Hd Hl]. exists a.
  split; [exact Hd|]. split; [exact Hl|].
  inversion Ho as [ | | | | | r1 r2 x Hx | r1 r2 x Hx | | | | | | | ]; subst.
  - inversion Hx as [ | | | | r1 r2 p e Hp He | | | | | | | | | ]; subst.
    apply lang_plus in Hp. subst p. apply lang_digits in He as [He Hle].
    right. exists e. split; [exact He|]. split; [exact Hle | reflexivity].
  - inversion Hx; subst. left. apply app_nil_r.
Qed.

Lemma pair_shape b e :
  digits U b = true -> length b <= 3 ->
  digits U e = true -> length e <= 2 ->
  minute_shape U (b ++ lit "+" ++ e).
Proof.
  intros Hb Hlb He Hle. exists b. split; [exact Hb|]. split; [exact Hlb|].
  right. exists e. split; [exact He|]. split; [exact Hle | reflexivity].
Qed.

(** The minute of a line is of the shape, when the carried one is; a tag
    found further in the line may give an empty one. *)
Lemma extract_minute_shape line fallback mn :
  (forall m, fallback = Some m -> m = [] \/ minute_shape U m) ->
  _extract_minute U line fallback = Some mn ->
  mn = [] \/ minute_shape U mn.
Proof.
  intros Hf. unfold _extract_minute.
  destruct (negb (truthy line)); [apply Hf|].
  destruct (search U flag_I ADDED_PAIR line) as [m|] eqn:Ea.
  { intros H. injection H as <-. right.
    pose proof (search_group U flag_I ADDED_PAIR 1 line eq_refl Ea) as G1.
    pose proof (search_group U flag_I ADDED_PAIR 2 line eq_refl Ea) as G2.
    apply search_lang in Ea as [_ Hg].
    destruct (Hg 1 _ G1) as (r1 & In1 & L1).
    destruct (Hg 2 _ G2) as (r2 & In2 & L2).
    cbv in In1, In2.
    assert (D1 : digits U (group_or_empty 1 m) = true
                 /\ length (group_or_empty 1 m) <= 3).
    { decompose [or and] In1; try contradiction; try discriminate.
      subst r1. apply (@lang_digits flag_I 3). exact L1. }
    assert (D2 : digits U (group_or_empty 2 m) = true
                 /\ length (group_or_empty 2 m) <= 2).
    { decompose [or and] In2; try contradiction; try discriminate.
      subst r2. apply (@lang_digits flag_I 2). exact L2. }
    apply pair_shape; [apply D1 | apply D1 | apply D2 | apply D2]. }
  destruct (search U no_flags START_MIN line) as [m|] eqn:Es.
  { intros G1. apply search_lang in Es as [_ Hg].
    destruct (Hg 1 _ G1) as (r1 & In1 & L1). cbv in In1.
    right. decompose [or and] In1; try contradiction; try discriminate.
    subst r1. eapply (@lang_minute no_flags). exact L1. }
  destruct (rmatch_start U no_flags BARE_MIN line) as [m|] eqn:Eb.
  { intros G1. apply match_at_lang in Eb as [_ Hg].
    destruct (Hg 1 _ G1) as (r1 & In1 & L1). cbv in In1.
    right. decompose [or and] In1; try contradiction; try discriminate.
    subst r1. eapply (@lang_minute no_flags). exact L1. }
  unfold findall1, finditer.
  destruct (matches_from _ U no_flags MIN_TAG false None line) as [ms tl] eqn:Em.
  simpl. destruct ms as [|x ms]; simpl; [apply Hf|].
  intros H. injection H as <-.
  eapply matches_from_lang in Em as [_ Hg]; [|left; reflexivity].
  unfold group_or_empty. destruct (group 1 (snd x)) as [g|] eqn:G1; [|left; reflexivity].
  destruct (Hg 1 _ G1) as (r1 & In1 & L1). cbv in In1.
  right. decompose [or and] In1; try contradiction; try discriminate.
  subst r1. eapply (@lang_minute no_flags). exact L1.
Qed.

End MinuteShape.

(* ================================================================== *)
(** * [int] and the value of a minute *)
(* ================================================================== *)

Section MinuteValue.

Import Notions MoreNotions PyMore.

Variable U : unicode.

Lemma int_lstrip_solid c s :
  int_space c = false -> int_lstrip (c :: s) = c :: s.
Proof. intros H. cbn [int_lstrip]. rewrite H. reflexivity. Qed.

Lemma int_strip_solid s :
  (forall c, In c s -> int_space c = false) -> int_strip s = s.
Proof.
  intros H. unfold int_strip.
  assert (Hl : int_lstrip s = s).
  { destruct s as [|c s]; [reflexivity|].
    apply int_lstrip_solid, H. left. reflexivity. }
  rewrite Hl.
  destruct (rev s) as [|c l] eqn:E.
  - simpl. apply (f_equal (@rev char)) in E. rewrite rev_involutive in E.
    symmetry. exact E.
  - rewrite int_lstrip_solid.
    + rewrite <- E. apply rev_involutive.
    + apply H. apply in_rev. rewrite E. left. reflexivity.
Qed.

Lemma int_space_isspace c : int_space c = true -> isspace c = true.
Proof. unfold int_space. intros H. apply andb_true_iff in H. apply H. Qed.

Lemma int_str_unsigned s c body :
  int_strip s = c :: body -> c <> 45%N -> c <> 43%N ->
  int_str U s = option_map Z.of_N (int_body U (c :: body)).
Proof.
  intros E H45 H43. unfold int_str. rewrite E.
  destruct c as [|p]; [reflexivity|].
  do 6 (destruct p as [p|p|]; try reflexivity); contradiction.
Qed.

Lemma int_digits_decimal s : forall acc after,
  forallb (isdecimal U) s = true ->
  s <> [] \/ after = true ->
  exists n, int_digits U acc after s = Some n.
Proof.
  induction s as [|c s IH]; intros acc after Hs Hne; simpl.
  - destruct Hne as [Hne| ->]; [contradiction|]. eexists. reflexivity.
  - simpl in Hs. apply andb_true_iff in Hs as [Hc Hs].
    destruct (N.eqb_spec c 95) as [->|_]; [discriminate|].
    rewrite Hc. apply IH; auto.
Qed.

Lemma digit_count_short s : length s <= 3 -> (digit_count s <= 3)%N.
Proof.
  intros H. unfold digit_count.
  pose proof (filter_length_le (fun c => negb (c =? 95)%N) s) as Hf.
  revert Hf. generalize (length (filter (fun c => negb (c =? 95)%N) s)).
  intros k Hk.
  do 4 (destruct k as [|k]; [vm_compute; discriminate|]).
  exfalso. apply (Nat.le_trans _ _ _ Hk) in H.
  do 3 apply le_S_n in H. inversion H.
Qed.

(** A run of at most three decimal digits is a number for [int]. *)
Lemma int_str_digits d :
  (forall c, isspace c = true -> isdecimal U c = false) ->
  digits U d = true -> length d <= 3 ->
  exists n, int_str U d = Some (Z.of_N n).
Proof.
  intros Hsp Hd Hlen. unfold digits in Hd.
  apply andb_true_iff in Hd as [Hne Hd].
  destruct d as [|c body]; [discriminate|].
  assert (Hs : int_strip (c :: body) = c :: body).
  { apply int_strip_solid. intros x Hx.
    rewrite forallb_forall in Hd. specialize (Hd x Hx).
    destruct (int_space x) eqn:Ex; [|reflexivity].
    rewrite (Hsp x (int_space_isspace _ Ex)) in Hd. discriminate. }
  assert (Hc : isdecimal U c = true).
  { simpl in Hd. apply andb_true_iff in Hd. apply Hd. }
  rewrite (int_str_unsigned _ Hs).
  - destruct (@int_digits_decimal (c :: body) 0%N false Hd) as [n Hn].
    { left. discriminate. }
    exists n. unfold int_body.
    pose proof (digit_count_short (c :: body) Hlen) as Hk.
    destruct (N.ltb_spec MAX_STR_DIGITS (digit_count (c :: body))) as [Hm|_].
    { unfold MAX_STR_DIGITS in Hm. lia. }
    rewrite Hn. reflexivity.
  - intros ->. discriminate.
  - intros ->. discriminate.
Qed.

Lemma contains_char c s : contains [c] s = existsb (char_eqb c) s.
Proof.
  induction s as [|x s IH]; [reflexivity|].
  simpl. rewrite andb_true_r. simpl in IH. rewrite IH. reflexivity.
Qed.

Lemma digits_no_plus d :
  forallb (isdecimal U) d = true -> existsb (char_eqb 43%N) d = false.
Proof.
  induction d as [|c d IH]; [reflexivity|].
  cbn [existsb forallb]. intros H. apply andb_true_iff in H as [Hc Hd].
  rewrite (IH Hd), orb_false_r. unfold char_eqb.
  destruct (N.eqb_spec 43 c) as [<-|_]; [discriminate|reflexivity].
Qed.

Lemma split_char_none c s :
  existsb (char_eqb c) s = false -> split_char c s = [s].
Proof.
  induction s as [|x s IH]; [reflexivity|].
  simpl. intros H. apply orb_false_iff in H as [Hx Hs].
  rewrite Hx, (IH Hs). reflexivity.
Qed.

Lemma split_char_first c a b :
  existsb (char_eqb c) a = false ->
  split_char c (a ++ c :: b) = a :: split_char c b.
Proof.
  induction a as [|x a IH]; intros H.
  - simpl. unfold char_eqb. rewrite N.eqb_refl. reflexivity.
  - simpl in H. apply orb_false_iff in H as [Hx Ha].
    simpl. rewrite Hx, (IH Ha). reflexivity.
Qed.

(** A minute of the shape has a value. *)
Lemma minute_val_shape m :
  (forall c, isspace c = true -> isdecimal U c = false) ->
  minute_shape U m ->
  exists v, Analytics._minute_val U m = Some v /\ (0 <= v)%Z.
Proof.
  intros Hsp (b & Hb & Hlb & [->|(e & He & Hle & ->)]);
    unfold Analytics._minute_val.
  - assert (Hn : existsb (char_eqb 43%N) b = false).
    { apply digits_no_plus. unfold digits in Hb.
      apply andb_true_iff in Hb. apply Hb. }
    change (lit "+") with [43%N]. rewrite contains_char, Hn.
    destruct (@int_str_digits b Hsp Hb Hlb) as [n Hn']. exists (Z.of_N n).
    split; [exact Hn' | apply N2Z.is_nonneg].
  - assert (Hnb : existsb (char_eqb 43%N) b = false).
    { apply digits_no_plus. unfold digits in Hb.
      apply andb_true_iff in Hb. apply Hb. }
    assert (Hne : existsb (char_eqb 43%N) e = false).
    { apply digits_no_plus. unfold digits in He.
      apply andb_true_iff in He. apply He. }
    change (lit "+") with [43%N]. rewrite contains_char.
    assert (Hin : existsb (char_eqb 43%N) (b ++ 43%N :: e) = true).
    { apply existsb_exists. exists 43%N. split; [|reflexivity].
      apply in_or_app. right. left. reflexivity. }
    rewrite Hin.
    match goal with
    | |- context [split_char ?c ?x] =>
        assert (Hs : split_char c x = [b; e])
    end.
    { exact (eq_trans (@split_char_first 43%N b e Hnb)
                      (f_equal (cons b) (@split_char_none 43%N e Hne))). }
    rewrite Hs.
    destruct (@int_str_digits b Hsp Hb Hlb) as [n ->].
    destruct (@int_str_digits e Hsp He (Nat.le_trans _ _ _ Hle (le_S _ _ (le_n 2)))) as [k ->].
    eexists. split; [reflexivity|].
    apply Z.add_nonneg_nonneg; apply N2Z.is_nonneg.
Qed.

End MinuteValue.

(* ================================================================== *)
(** * Invariants of the loop over the lines *)
(* ================================================================== *)

Section LoopInvariants.

Import Parser Notions MoreNotions.

Variable U : unicode.
Variable scorer : str -> str -> score.
Variables aliases1 aliases2 : list str.
Variables roster1 roster2 : list str.
Variable our_is_1 : bool.

Local Abbreviation process :=
  (process_line U scorer aliases1 aliases2 roster1 roster2 our_is_1).
Local Abbreviation loop :=
  (run_lines U scorer aliases1 aliases2 roster1 roster2 our_is_1).

(** What every round keeps, the loop keeps. *)
Lemma run_lines_inv (I : option str -> Prop) (P : event -> Prop)
    (L : str -> Prop) :
  (forall cur line, L line -> I cur ->
     I (fst (process cur line))
     /\ forall e, In e (snd (process cur line)) -> P e) ->
  forall lines cur events,
    (forall line, In line lines -> L line) ->
    I cur -> (forall e, In e events -> P e) ->
    I (fst (loop cur events lines))
    /\ forall e, In e (snd (loop cur events lines)) -> P e.
Proof.
  intros Hstep. induction lines as [|line lines IH];
    intros cur events HL HI HP; simpl.
  - split; assumption.
  - destruct (process cur line) as [cur' new] eqn:Ep.
    destruct (Hstep cur line (HL line (or_introl eq_refl)) HI) as [HI' HP'].
    rewrite Ep in HI', HP'. simpl in HI', HP'.
    apply IH; auto.
    + intros l Hl. apply HL. right. exact Hl.
    + intros e He. apply in_app_iff in He as [He|He]; auto.
Qed.

Lemma process_line_shape cur line :
  (forall m, cur = Some m -> minute_shape U m) ->
  (forall m, fst (process cur line) = Some m -> minute_shape U m)
  /\ forall e, In e (snd (process cur line)) -> minute_shape U (t e).
Proof.
  intros HI.
  assert (H1 : forall m, fst (process cur line) = Some m -> minute_shape U m).
  { unfold process_line.
    destruct (_extract_minute U line cur) as [mn|] eqn:Em; [|exact HI].
    destruct mn as [|c mn]; [exact HI|]. simpl negb. cbv iota.
    destruct (split_label U line) as [label lwl]. simpl.
    intros m H. injection H as <-.
    apply extract_minute_shape in Em as [Em|Em]; [discriminate|exact Em|].
    intros m Hm. right. apply HI, Hm. }
  split; [exact H1|].
  intros e He.
  apply (process_line_events U scorer aliases1 aliases2 roster1 roster2
           our_is_1) in He as [He _].
  apply H1. symmetry. exact He.
Qed.

Lemma run_lines_shape lines e :
  In e (snd (loop None [] lines)) -> minute_shape U (t e).
Proof.
  revert e.
  eapply (@run_lines_inv
            (fun cur => forall m, cur = Some m -> minute_shape U m)
            (fun e => minute_shape U (t e))
            (fun _ => True)).
  - intros cur line _ HI. apply process_line_shape, HI.
  - auto.
  - intros m H. discriminate.
  - intros e [].
Qed.

End LoopInvariants.

(** In the sample database no blank is a decimal digit. *)
Lemma ascii_only_blanks (c : char) :
  isspace c = true -> isdecimal Sample.ascii_only c = false.
Proof.
  intros Hc. unfold isdecimal. simpl.
  destruct (is_ascii c) eqn:Ea; [|destruct (named_punct c); reflexivity].
  unfold ascii_digit. unfold isspace in Hc. unfold is_ascii in Ea.
  apply N.ltb_lt in Ea.
  destruct (N.leb_spec 48 c); [|reflexivity].
  destruct (N.leb_spec c 57); [|reflexivity].
  exfalso. revert Hc.
  repeat match goal with
  | |- context [(?a <=? ?b)%N] => destruct (N.leb_spec a b); try lia
  | |- context [(?a =? ?b)%N] => destruct (N.eqb_spec a b); try lia
  end; simpl; discriminate.
Qed.

(** X4.  Every event of a parse carries a minute that [_minute_val] of
    the analytics can take: one to three decimal digits, or these, a
    plus sign and one or two more; its value is not negative.  The Unicode data are
    taken to name no blank a decimal digit. *)
Theorem event_minutes_have_a_value (U : unicode)
    (set_order : list str -> list str) (scorer : str -> str -> Parser.score)
    (text team1 : str) (roster1 : list str) (team2 : str)
    (roster2 : list str) (our_team : str) (e : Parser.event) :
  (forall c, isspace c = true -> isdecimal U c = false) ->
  In e (Parser.parse_events_unbiased U set_order scorer text
          team1 roster1 team2 roster2 our_team) ->
  MoreNotions.minute_shape U (Parser.t e)
  /\ exists v, Analytics._minute_val U (Parser.t e) = Some v /\ (0 <= v)%Z.
Proof.
  intros Hsp He.
  assert (Hs : MoreNotions.minute_shape U (Parser.t e)).
  { unfold Parser.parse_events_unbiased in He.
    eapply run_lines_shape, He. }
  split; [exact Hs|]. apply minute_val_shape; assumption.
Qed.

Lemma event_minutes_have_a_value_witness :
  MoreNotions.minute_shape Sample.ascii_only (lit "45+2")
  /\ exists v, Analytics._minute_val Sample.ascii_only (lit "45+2") = Some v
               /\ (0 <= v)%Z.
Proof.
  apply (@event_minutes_have_a_value Sample.ascii_only Sample.as_built
           Sample.no_similarity
           (lit "[MIN=45+2] Delay in match (Leeds United).")
           (lit "Leeds United") [] (lit "Aston Villa") [] (lit "Leeds United")
           (Parser.mk (lit "45+2") (lit "DELAY") None
              (lit "[MIN=45+2] Delay in match (Leeds United)."))).
  - exact ascii_only_blanks.
  - vm_compute. left. reflexivity.
Defined.

(* ================================================================== *)
(** * The events of a line *)
(* ================================================================== *)

Section Vocabulary.

Import Parser Notions MoreNotions.

Variable U : unicode.
Variable scorer : str -> str -> score.
Variables aliases1 aliases2 : list str.
Variables roster1 roster2 : list str.
Variable our_is_1 : bool.

Local Abbreviation process :=
  (process_line U scorer aliases1 aliases2 roster1 roster2 our_is_1).
Local Abbreviation loop :=
  (run_lines U scorer aliases1 aliases2 roster1 roster2 our_is_1).
Local Abbreviation classify_line :=
  (classify U scorer aliases1 aliases2 roster1 roster2 our_is_1).

Lemma attempt_type_cases low ety :
  attempt_type low = Some ety ->
  In ety (map lit ["SAVE"; "BLOCK"; "MISS"; "FOUL"; "FREEKICK"]%string).
Proof.
  unfold attempt_type.
  repeat match goal with
  | |- context [if ?c then _ else _] => destruct c
  end; intros H; try discriminate; injection H as <-; simpl; auto 6.
Qed.

Lemma classify_types mn line lwl label e :
  In e (classify_line mn line lwl label) ->
  mem (etype e) classified_types = true.
Proof.
  unfold classify.
  repeat match goal with
  | |- In _ (if ?c then _ else _) -> _ => destruct c
  | |- In _ (match ?x with Some _ => _ | None => _ end) -> _ =>
      destruct x eqn:?
  end;
  simpl In; intros H; try contradiction; destruct H as [<-|[]];
    try reflexivity.
  - unfold sub_event. destruct (ours_of _ _); reflexivity.
  - unfold sub_event. destruct (ours_of _ _); reflexivity.
  - unfold goal_event.
    destruct (parse_goal U line aliases1 aliases2) as [[a b] c].
    cbn [etype mk]. destruct (idx_is _ 1); reflexivity.
  - unfold rc_event. cbn [etype mk]. destruct (idx_is _ 1); reflexivity.
  - unfold yc_event. cbn [etype mk]. destruct (idx_is _ 1); reflexivity.
  - unfold prefixed_event. destruct (ours_of _ _); reflexivity.
  - unfold prefixed_event. destruct (ours_of _ _); reflexivity.
  - unfold disallowed_event. destruct (ours_of _ _); reflexivity.
  - unfold attempt_event.
    destruct (detect_player U scorer lwl roster1 roster2) as [pl idx0].
    cbn [etype mk].
    match goal with
    | H : attempt_type _ = Some _ |- _ => apply attempt_type_cases in H
    end.
    destruct (ours_of _ _);
      match goal with
      | H : In _ (map _ _) |- _ =>
          simpl in H; decompose [or] H; try contradiction; subst;
          reflexivity
      end.
Qed.

Lemma process_line_parts cur line :
  exists qs cl,
    snd (process cur line) = qs ++ cl
    /\ (forall q, In q qs -> etype q = lit "QUOTE" /\ player q = None)
    /\ length cl <= 1
    /\ (forall e, In e cl -> mem (etype e) classified_types = true).
Proof.
  unfold process_line.
  destruct (_extract_minute U line cur) as [mn|].
  2:{ exists [], []. simpl. split; [reflexivity|].
    split; [intros ? []|]. split; [lia | intros ? []]. }
  destruct (negb (truthy mn)).
  { exists [], []. simpl. split; [reflexivity|].
    split; [intros ? []|]. split; [lia | intros ? []]. }
  destruct (split_label U line) as [label lwl]. simpl.
  exists (quote_events U mn lwl), (classify_line mn line lwl label).
  split; [reflexivity|]. split; [|split].
  - intros q H. unfold quote_events in H.
    apply in_map_iff in H as [x [<- _]]. split; reflexivity.
  - unfold classify.
    repeat match goal with
    | |- context [if ?c then _ else _] => destruct c
    | |- context [match ?x with Some _ => _ | None => _ end] => destruct x
    end; simpl; lia.
  - apply classify_types.
Qed.

Lemma classified_not_quote e :
  mem (etype e) classified_types = true -> is_quote e = false.
Proof.
  intros H. unfold is_quote. apply str_eqb_neq. intros E. rewrite E in H.
  discriminate.
Qed.

Lemma filter_quotes_out (qs : list event) :
  (forall q, In q qs -> etype q = lit "QUOTE" /\ player q = None) ->
  filter (fun e => negb (is_quote e)) qs = [].
Proof.
  induction qs as [|q qs IH]; intros H; [reflexivity|].
  simpl. unfold is_quote at 1.
  rewrite (proj1 (H q (or_introl eq_refl))). simpl.
  apply IH. intros x Hx. apply H. right. exact Hx.
Qed.

Lemma process_line_count cur line :
  length (filter (fun e => negb (is_quote e)) (snd (process cur line))) <= 1.
Proof.
  destruct (process_line_parts cur line) as (qs & cl & -> & Hq & Hc & _).
  rewrite filter_app, (filter_quotes_out _ Hq). simpl.
  eapply Nat.le_trans; [apply filter_length_le | exact Hc].
Qed.

Lemma run_lines_count lines : forall cur events,
  length (filter (fun e => negb (is_quote e)) (snd (loop cur events lines)))
  <= length (filter (fun e => negb (is_quote e)) events) + length lines.
Proof.
  induction lines as [|line lines IH]; intros cur events; simpl.
  - lia.
  - pose proof (process_line_count cur line) as Hp.
    destruct (process cur line) as [cur' new]. simpl in Hp.
    eapply Nat.le_trans; [apply IH|].
    rewrite filter_app, length_app. lia.
Qed.

Lemma run_lines_types lines e :
  In e (snd (loop None [] lines)) ->
  mem (etype e) event_types = true
  /\ (is_quote e = true -> player e = None).
Proof.
  revert e.
  eapply (@run_lines_inv U scorer aliases1 aliases2 roster1 roster2 our_is_1
            (fun _ => True)
            (fun e => mem (etype e) event_types = true
                      /\ (is_quote e = true -> player e = None))
            (fun _ => True)); auto.
  - intros cur line _ _. split; [exact I|]. intros e He.
    destruct (process_line_parts cur line) as (qs & cl & E & Hq & _ & Hc).
    rewrite E in He. apply in_app_iff in He as [He|He].
    + destruct (Hq e He) as [Ht Hp]. split; [|intros _; exact Hp].
      rewrite Ht. reflexivity.
    + specialize (Hc e He). split.
      * unfold event_types, mem. rewrite existsb_app.
        unfold mem in Hc. rewrite Hc. reflexivity.
      * intros Hqt. rewrite (classified_not_quote _ Hc) in Hqt. discriminate.
  - intros e [].
Qed.

End Vocabulary.

(** X5.  The types of the events are a closed vocabulary of thirty
    names; an event of type QUOTE names no player. *)
Theorem event_types_are_closed (U : unicode)
    (set_order : list str -> list str) (scorer : str -> str -> Parser.score)
    (text team1 : str) (roster1 : list str) (team2 : str)
    (roster2 : list str) (our_team : str) (e : Parser.event) :
  In e (Parser.parse_events_unbiased U set_order scorer text
          team1 roster1 team2 roster2 our_team) ->
  mem (Parser.etype e) MoreNotions.event_types = true
  /\ (MoreNotions.is_quote e = true -> Parser.player e = None).
Proof.
  unfold Parser.parse_events_unbiased. intros He.
  apply run_lines_types in He as [Ht Hq]. split; [exact Ht|].
  intros H. apply Hq. exact H.
Qed.

Lemma event_types_are_closed_witness :
  mem (lit "QUOTE") MoreNotions.event_types = true
  /\ (str_eqb (lit "QUOTE") (lit "QUOTE") = true -> @None str = None).
Proof.
  apply (@event_types_are_closed Sample.ascii_only Sample.as_built
           Sample.no_similarity
           (lit "[MIN=12] The manager: 'unlucky', he says, " ++ [34%N]
              ++ lit "we go again" ++ [34%N] ++ lit ".")
           (lit "Leeds United") [] (lit "Aston Villa") [] (lit "Leeds United")
           (Parser.mk (lit "12") (lit "QUOTE") None (lit "we go again"))).
  vm_compute. left. reflexivity.
Defined.

(** X6.  A line gives at most one event besides its quotes: the events
    that are not quotes are no more than the lines of the text. *)
Theorem one_event_per_line (U : unicode)
    (set_order : list str -> list str) (scorer : str -> str -> Parser.score)
    (text team1 : str) (roster1 : list str) (team2 : str)
    (roster2 : list str) (our_team : str) :
  length (filter (fun e => negb (MoreNotions.is_quote e))
            (Parser.parse_events_unbiased U set_order scorer text
               team1 roster1 team2 roster2 our_team))
  <= length (Parser.split_lines U text).
Proof.
  unfold Parser.parse_events_unbiased.
  eapply Nat.le_trans; [apply run_lines_count | simpl; lia].
Qed.

(* ================================================================== *)
(** * Text without digits *)
(* ================================================================== *)

Section NoDigits.

Import Parser Notions MoreNotions.

Variable U : unicode.

Lemma digitless_incl a b :
  (forall c, In c a -> In c b) -> digitless U b -> digitless U a.
Proof.
  unfold digitless. rewrite !forallb_forall. auto.
Qed.

Lemma no_digit_no_match fl r s adv pv :
  reads_digit r = true -> digitless U s -> match_at U fl r adv pv s = None.
Proof.
  intros Hr Hs.
  pose proof (@no_digit_no_search U fl r s Hr Hs adv pv) as H.
  destruct s; simpl in H; destruct (match_at U fl r adv pv _);
    [discriminate|reflexivity|discriminate|reflexivity].
Qed.

Lemma concat_pieces_In (ms : list (str * rmatch)) (piece : str) c :
  In piece (map fst ms) -> In c piece ->
  In c (concat (map (fun x => fst x ++ m_text (snd x)) ms)).
Proof.
  induction ms as [|x ms IH]; simpl; [intros []|].
  intros [<-|H] Hc; apply in_or_app.
  - left. apply in_or_app. left. exact Hc.
  - right. apply IH; assumption.
Qed.

(** The pieces of a split are made of characters of the text. *)
Lemma split_chars fl r s piece c :
  In piece (split U fl r s) -> In c piece -> In c s.
Proof.
  unfold split, finditer.
  destruct (matches_from _ U fl r false None s) as [ms tl] eqn:E.
  apply matches_from_reads in E. intros H Hc.
  apply in_app_iff in H as [H|[<-|[]]]; rewrite E; apply in_or_app.
  - left. eapply concat_pieces_In; eassumption.
  - right. exact Hc.
Qed.

Lemma split_lines_chars text line c :
  In line (split_lines U text) -> In c line -> In c text.
Proof.
  unfold split_lines. rewrite in_map_iff. intros [ln [<- Hin]] Hc.
  apply filter_In in Hin as [Hin _]. apply strip_In in Hc.
  eapply split_chars; eassumption.
Qed.

(** No digit in the line: the minute is the carried one. *)
Lemma extract_minute_digitless line fallback :
  digitless U line -> _extract_minute U line fallback = fallback.
Proof.
  intros Hd. unfold _extract_minute.
  destruct (negb (truthy line)); [reflexivity|].
  unfold search, rmatch_start, findall1, finditer.
  rewrite (@no_digit_no_search U flag_I ADDED_PAIR line eq_refl Hd).
  rewrite (@no_digit_no_search U no_flags START_MIN line eq_refl Hd).
  rewrite (@no_digit_no_match no_flags BARE_MIN line false None eq_refl Hd).
  rewrite matches_from_step.
  rewrite (@no_digit_no_search U no_flags MIN_TAG line eq_refl Hd).
  reflexivity.
Qed.

Lemma run_lines_digitless scorer al1 al2 r1 r2 our_is_1 lines : forall events,
  (forall line, In line lines -> digitless U line) ->
  run_lines U scorer al1 al2 r1 r2 our_is_1 None events lines
  = (None, events).
Proof.
  induction lines as [|line lines IH]; intros events H; simpl; [reflexivity|].
  unfold process_line at 1.
  rewrite extract_minute_digitless by (apply H; left; reflexivity).
  rewrite app_nil_r. apply IH. intros l Hl. apply H. right. exact Hl.
Qed.

End NoDigits.

(** X7.  A commentary without a decimal digit gives no event: no line
    of it resolves a minute. *)
Theorem no_digit_no_event (U : unicode)
    (set_order : list str -> list str) (scorer : str -> str -> Parser.score)
    (text team1 : str) (roster1 : list str) (team2 : str)
    (roster2 : list str) (our_team : str) :
  forallb (fun c => negb (isdecimal U c)) text = true ->
  Parser.parse_events_unbiased U set_order scorer text
    team1 roster1 team2 roster2 our_team = [].
Proof.
  intros H. unfold Parser.parse_events_unbiased.
  rewrite run_lines_digitless; [reflexivity|].
  intros line Hl. eapply digitless_incl; [|exact H].
  intros c Hc. eapply split_lines_chars; eassumption.
Qed.

Lemma no_digit_no_event_witness :
  Parser.parse_events_unbiased Sample.ascii_only Sample.as_built
    Sample.no_similarity
    (lit "GOAL! Goal! Leeds United one, Aston Villa nil. Patrick Bamford (Leeds United).")
    (lit "Leeds United") [lit "Patrick Bamford"] (lit "Aston Villa") []
    (lit "Leeds United") = [].
Proof.
  apply no_digit_no_event. reflexivity.
Defined.

(* ================================================================== *)
(** * Aliases and players *)
(* ================================================================== *)

Section Aliases.

Import Parser Notions.

Variable U : unicode.

Lemma set_add_keeps x y l : In x l -> In x (set_add y l).
Proof.
  intros H. unfold set_add. destruct (mem y l); [exact H|].
  apply in_or_app. left. exact H.
Qed.

Lemma set_update_keeps x ys : forall l, In x l -> In x (set_update ys l).
Proof.
  unfold set_update. induction ys as [|y ys IH]; intros l H; simpl.
  - exact H.
  - apply IH, set_add_keeps, H.
Qed.

Lemma set_add_NoDup y l : NoDup l -> NoDup (set_add y l).
Proof.
  intros H. unfold set_add. destruct (mem y l) eqn:E; [exact H|].
  apply NoDup_snoc; [exact H|].
  intros Hin. apply mem_In in Hin. congruence.
Qed.

Lemma set_update_NoDup ys : forall l, NoDup l -> NoDup (set_update ys l).
Proof.
  unfold set_update. induction ys as [|y ys IH]; intros l H; simpl.
  - exact H.
  - apply IH, set_add_NoDup, H.
Qed.

Lemma alias_set_own team : In (_norm U team) (alias_set U team).
Proof.
  unfold alias_set.
  repeat match goal with
  | |- In _ (if ?c then _ else _) => destruct c
  | |- In _ (set_update _ _) => apply set_update_keeps
  | |- In _ (set_add _ _) => apply set_add_keeps
  end; left; reflexivity.
Qed.

Lemma alias_set_NoDup team : NoDup (alias_set U team).
Proof.
  unfold alias_set.
  repeat match goal with
  | |- NoDup (if ?c then _ else _) => destruct c
  | |- NoDup (set_update _ _) => apply set_update_NoDup
  | |- NoDup (set_add _ _) => apply set_add_NoDup
  end; repeat constructor; intros [].
Qed.

End Aliases.

(** X8.  The alias list of a team holds its own normalised name, in
    whatever order the set is listed: designating team 1 by the name the
    lineups give it always makes it the home side. *)
Theorem own_name_designates_team1 (U : unicode)
    (set_order : list str -> list str) (scorer : str -> str -> Parser.score)
    (text team1 : str) (roster1 : list str) (team2 : str)
    (roster2 : list str) :
  (forall l, Notions.same_members (set_order l) l) ->
  mem (Parser._norm U team1) (Parser.build_team_aliases U set_order team1)
  = true
  /\ Parser.parse_events_unbiased U set_order scorer text
       team1 roster1 team2 roster2 team1
     = snd (Parser.run_lines U scorer
              (Parser.build_team_aliases U set_order team1)
              (Parser.build_team_aliases U set_order team2)
              roster1 roster2 true None [] (Parser.split_lines U text)).
Proof.
  intros Hs.
  assert (H : mem (Parser._norm U team1)
                (Parser.build_team_aliases U set_order team1) = true).
  { apply mem_In. unfold Parser.build_team_aliases. apply Hs.
    apply alias_set_own. }
  split; [exact H|].
  unfold Parser.parse_events_unbiased. rewrite H. reflexivity.
Qed.

Lemma own_name_designates_team1_witness :
  mem (Parser._norm Sample.ascii_only (lit "Leeds United"))
      (Parser.build_team_aliases Sample.ascii_only Sample.reversed
         (lit "Leeds United")) = true
  /\ Parser.parse_events_unbiased Sample.ascii_only Sample.reversed
       Sample.no_similarity (lit "[MIN=3] Kick-off")
       (lit "Leeds United") [] (lit "Aston Villa") [] (lit "Leeds United")
     = snd (Parser.run_lines Sample.ascii_only Sample.no_similarity
              (Parser.build_team_aliases Sample.ascii_only Sample.reversed
                 (lit "Leeds United"))
              (Parser.build_team_aliases Sample.ascii_only Sample.reversed
                 (lit "Aston Villa"))
              [] [] true None []
              (Parser.split_lines Sample.ascii_only (lit "[MIN=3] Kick-off"))).
Proof.
  apply own_name_designates_team1.
  intros l x. unfold Sample.reversed. symmetry. apply in_rev.
Defined.

Section Players.

Import Parser Notions.

Variable U : unicode.
Variable scorer : str -> str -> score.

Local Notation "a <= b" := (QArith_base.Qle a b).

Lemma score_ltb_false a b : score_ltb a b = false -> b <= a.
Proof.
  unfold score_ltb. intros H. apply negb_false_iff in H.
  apply QArith_base.Qle_bool_iff, H.
Qed.

Lemma score_ltb_true a b : score_ltb a b = true -> a <= b.
Proof.
  unfold score_ltb. intros H. apply negb_true_iff in H.
  apply QArith_base.Qlt_le_weak, QArith_base.Qnot_le_lt.
  intros Hle. apply QArith_base.Qle_bool_iff in Hle. congruence.
Qed.

(** The choice [extractOne] returns: where it stands, its score, and
    that no choice scores higher. *)
Lemma extractOne_from_best query choices :
  forall pre best c sc i,
    match best with
    | None => pre = []
    | Some (c0, sc0, i0) =>
        nth_error (pre ++ choices) i0 = Some c0 /\ sc0 = scorer query c0
        /\ forall x, In x pre -> scorer query x <= sc0
    end ->
    pre ++ choices <> [] ->
    extractOne_from scorer query choices (length pre) best = Some (c, sc, i) ->
    nth_error (pre ++ choices) i = Some c /\ sc = scorer query c
    /\ forall x, In x (pre ++ choices) -> scorer query x <= sc.
Proof.
  induction choices as [|ch choices IH]; intros pre best c sc i Hb Hne H.
  - simpl in H. subst best. rewrite app_nil_r in *. exact Hb.
  - simpl in H.
    replace (S (length pre)) with (length (pre ++ [ch])) in H
      by (rewrite length_app; simpl; lia).
    replace (pre ++ ch :: choices) with ((pre ++ [ch]) ++ choices) in *
      by (rewrite <- app_assoc; reflexivity).
    eapply IH; [|exact Hne|exact H].
    destruct best as [[[c0 sc0] i0]|].
    + destruct Hb as (Hn & Hs & Hmax).
      destruct (score_ltb sc0 (scorer query ch)) eqn:El.
      * split; [|split; [reflexivity|]].
        -- rewrite <- app_assoc. simpl. rewrite nth_error_app2 by lia.
           rewrite Nat.sub_diag. reflexivity.
        -- intros x Hx. apply in_app_iff in Hx as [Hx|[<-|[]]].
           ++ eapply QArith_base.Qle_trans; [apply Hmax, Hx|].
              apply score_ltb_true, El.
           ++ apply QArith_base.Qle_refl.
      * split; [exact Hn|]. split; [exact Hs|].
        intros x Hx. apply in_app_iff in Hx as [Hx|[<-|[]]].
        -- apply Hmax, Hx.
        -- apply score_ltb_false, El.
    + subst pre. simpl. split; [reflexivity|]. split; [reflexivity|].
      intros x [<-|[]]. apply QArith_base.Qle_refl.
Qed.

(** X9.  [fuzzy_in] answers with a name of the roster: one whose
    accent-free form scores at least 86 against the accent-free query,
    and no name of the roster scores higher. *)
Theorem fuzzy_in_is_best_of_roster (name : str) (roster : list str)
    (p : str) :
  fuzzy_in U scorer name roster = Some p ->
  In p roster
  /\ cut <= scorer (_strip_accents U name) (_strip_accents U p)
  /\ forall q, In q roster ->
       scorer (_strip_accents U name) (_strip_accents U q)
       <= scorer (_strip_accents U name) (_strip_accents U p).
Proof.
  unfold fuzzy_in.
  destruct (negb (truthy name) || _) eqn:Eg; [discriminate|].
  destruct (extractOne _ _ _) as [[[cand sc] idx]|] eqn:E; [|discriminate].
  destruct (QArith_base.Qle_bool cut sc) eqn:Ec; [|discriminate].
  rewrite map_map in E. simpl in E.
  rewrite nth_error_map.
  destruct (nth_error roster idx) as [p0|] eqn:En; [|discriminate].
  simpl. intros H. injection H as <-.
  unfold extractOne in E.
  apply (@extractOne_from_best (_strip_accents U name)
           (map (_strip_accents U) roster) [] None cand sc idx eq_refl) in E.
  - simpl in E. destruct E as (Hn & Hs & Hmax).
    rewrite nth_error_map, En in Hn. simpl in Hn. injection Hn as <-.
    split; [eapply nth_error_In, En|]. split.
    + rewrite <- Hs. apply QArith_base.Qle_bool_iff, Ec.
    + intros q Hq. rewrite <- Hs. apply Hmax. apply in_map, Hq.
  - simpl. destruct roster; [|discriminate].
    rewrite orb_true_r in Eg. discriminate.
Qed.

End Players.

Lemma fuzzy_in_is_best_of_roster_witness :
  In (lit "Bamford") [lit "Ayling"; lit "Bamford"; lit "Cooper"]
  /\ QArith_base.Qle Parser.cut
       (MoreSample.exact_only
          (Parser._strip_accents Sample.ascii_only (lit "Bamford"))
          (Parser._strip_accents Sample.ascii_only (lit "Bamford")))
  /\ forall q, In q [lit "Ayling"; lit "Bamford"; lit "Cooper"] ->
       QArith_base.Qle
         (MoreSample.exact_only
            (Parser._strip_accents Sample.ascii_only (lit "Bamford"))
            (Parser._strip_accents Sample.ascii_only q))
         (MoreSample.exact_only
            (Parser._strip_accents Sample.ascii_only (lit "Bamford"))
            (Parser._strip_accents Sample.ascii_only (lit "Bamford"))).
Proof.
  apply (@fuzzy_in_is_best_of_roster Sample.ascii_only MoreSample.exact_only
           (lit "Bamford") [lit "Ayling"; lit "Bamford"; lit "Cooper"]
           (lit "Bamford")).
  vm_compute. reflexivity.
Defined.

Section DetectPlayer.

Import Parser Notions.

Variable U : unicode.
Variable scorer : str -> str -> score.

Lemma first_fuzzy_answers roster1 roster2 caps :
  match first_fuzzy U scorer caps roster1 roster2 with
  | (None, None) => True
  | (Some token, Some 1) =>
      In token caps /\ exists q, fuzzy_in U scorer token roster1 = Some q
  | (Some token, Some 2) =>
      In token caps /\ exists q, fuzzy_in U scorer token roster2 = Some q
  | _ => False
  end.
Proof.
  induction caps as [|token caps IH]; simpl; [exact I|].
  destruct (fuzzy_in U scorer token roster1) as [q1|] eqn:E1; simpl.
  - destruct (truthy q1).
    + split; [left; reflexivity | exists q1; exact E1].
    + destruct (fuzzy_in U scorer token roster2) as [q2|] eqn:E2; simpl.
      * destruct (truthy q2).
        -- split; [left; reflexivity | exists q2; exact E2].
        -- destruct (first_fuzzy U scorer caps roster1 roster2)
             as [[t0|] [[|[|[|n]]]|]]; try exact IH;
             (split; [right; apply IH | apply IH]).
      * destruct (first_fuzzy U scorer caps roster1 roster2)
          as [[t0|] [[|[|[|n]]]|]]; try exact IH;
          (split; [right; apply IH | apply IH]).
  - destruct (fuzzy_in U scorer token roster2) as [q2|] eqn:E2; simpl.
    + destruct (truthy q2).
      * split; [left; reflexivity | exists q2; exact E2].
      * destruct (first_fuzzy U scorer caps roster1 roster2)
          as [[t0|] [[|[|[|n]]]|]]; try exact IH;
          (split; [right; apply IH | apply IH]).
    + destruct (first_fuzzy U scorer caps roster1 roster2)
        as [[t0|] [[|[|[|n]]]|]]; try exact IH;
        (split; [right; apply IH | apply IH]).
Qed.

End DetectPlayer.

(** X10.  [detect_player] gives a name and a team together or neither,
    and the team is 1 or 2.  The name is a name of that team's roster
    when one occurs in the line; otherwise it is a capitalised token of
    the line that resembles a name of that roster: the token itself, not
    the roster name. *)
Theorem detect_player_answers (U : unicode)
    (scorer : str -> str -> Parser.score) (line : str)
    (roster1 roster2 : list str) :
  match Parser.detect_player U scorer line roster1 roster2 with
  | (None, None) => True
  | (Some nm, Some 1) =>
      In nm roster1
      \/ (In nm (findall0 U no_flags Parser.CAPS line)
          /\ exists q, Parser.fuzzy_in U scorer nm roster1 = Some q)
  | (Some nm, Some 2) =>
      In nm roster2
      \/ (In nm (findall0 U no_flags Parser.CAPS line)
          /\ exists q, Parser.fuzzy_in U scorer nm roster2 = Some q)
  | _ => False
  end.
Proof.
  unfold Parser.detect_player.
  destruct (Parser.first_in U _ roster1) as [nm|] eqn:E1.
  { left. apply find_some in E1. apply E1. }
  destruct (Parser.first_in U _ roster2) as [nm|] eqn:E2.
  { left. apply find_some in E2. apply E2. }
  pose proof (first_fuzzy_answers U scorer roster1 roster2
                (findall0 U no_flags Parser.CAPS line)) as H.
  destruct (Parser.first_fuzzy U scorer _ roster1 roster2)
    as [[t0|] [[|[|[|n]]]|]]; try exact H; right; exact H.
Qed.

(* ================================================================== *)
(** * Front matter and lineups, further *)
(* ================================================================== *)

Section NeedsChar.

Import Notions MoreNotions.

Variable U : unicode.
Variable fl : flags.

Lemma lang_reads_char c r t :
  (forall x, chr_match fl c x = true -> x = c) ->
  lang U fl r t -> reads_char c r = true -> In c t.
Proof.
  intros Hc Hl. induction Hl; simpl; intros Hr; try discriminate.
  - apply N.eqb_eq in Hr. subst l. left. apply Hc. assumption.
  - apply in_or_app. apply orb_true_iff in Hr as [Hr|Hr]; auto.
  - apply andb_true_iff in Hr. apply IHHl, Hr.
  - apply andb_true_iff in Hr. apply IHHl, Hr.
  - apply IHHl, Hr.
Qed.

Lemma no_char_no_match c r s adv pv :
  (forall x, chr_match fl c x = true -> x = c) ->
  reads_char c r = true -> ~ In c s ->
  match_at U fl r adv pv s = None.
Proof.
  intros Hc Hr Hs.
  destruct (match_at U fl r adv pv s) as [m|] eqn:E; [|reflexivity].
  exfalso. apply Hs.
  pose proof (match_at_reads _ _ _ _ _ _ E) as (Es & _).
  apply match_at_lang in E as [L _].
  rewrite Es. apply in_or_app. left.
  eapply lang_reads_char; eassumption.
Qed.

End NeedsChar.

Lemma casefold_low (c x : char) :
  (x < 97)%N -> casefold c = x -> c = x.
Proof.
  unfold casefold. intros Hx H.
  destruct (ascii_upper c) eqn:Eu.
  { unfold ascii_upper in Eu. apply andb_true_iff in Eu as [Eu _].
    apply N.leb_le in Eu. lia. }
  destruct ((c =? 304) || (c =? 305))%N; [lia|].
  destruct (c =? 383)%N; [lia|].
  destruct (c =? 8490)%N; [lia|].
  exact H.
Qed.

Lemma colon_matches_colon fl x : chr_match fl 58%N x = true -> x = 58%N.
Proof.
  unfold chr_match. destruct (ignorecase fl); intros H; apply N.eqb_eq in H.
  - apply casefold_low; [reflexivity | symmetry; exact H].
  - symmetry. exact H.
Qed.

Section FrontMatterMore.

Import Ingest Notions MoreNotions.

Variable U : unicode.

Lemma front_step_cases st ln :
  (nonblank ln = false /\ front_step U st ln = st)
  \/ (nonblank ln = true /\ front_step U st ln = add_ctx st (strip ln))
  \/ (nonblank ln = true
      /\ exists x team, front_step U st ln = add_lup st x team).
Proof.
  unfold front_step, nonblank. destruct (truthy (strip ln)); simpl negb; cbv iota.
  2:{ left. split; reflexivity. }
  right.
  destruct (rmatch_start U flag_I TEAM_LINE ln).
  { destruct (5 <=? _); [right; split; eauto | left; split; reflexivity]. }
  destruct (rmatch_start U flag_I SUBS_INLINE ln).
  { destruct (3 <=? _); [right; split; eauto | left; split; reflexivity]. }
  destruct (rmatch_start U flag_I SUBS_BARE ln);
    [|left; split; reflexivity].
  destruct (truthy_opt (last_team_for_bare_subs st));
    [|left; split; reflexivity].
  destruct (3 <=? _); [right; split; eauto | left; split; reflexivity].
Qed.

Lemma front_fold_count front : forall st,
  length (ctx (fold_left (front_step U) front st))
  + length (lups (fold_left (front_step U) front st))
  = length (ctx st) + length (lups st) + length (filter nonblank front)
  /\ exists new,
       ctx (fold_left (front_step U) front st) = ctx st ++ new
       /\ forall x, In x new ->
            exists ln, In ln front /\ nonblank ln = true /\ x = strip ln.
Proof.
  induction front as [|ln front IH]; intros st; simpl.
  - split; [lia|]. exists []. rewrite app_nil_r. split; [reflexivity|intros ? []].
  - destruct (IH (front_step U st ln)) as (Hc & new & Hn & Hnew).
    destruct (front_step_cases st ln)
      as [[Hb E]|[[Hb E]|[Hb (x & team & E)]]]; rewrite Hb.
    + rewrite E in *. split; [exact Hc|]. exists new. split; [exact Hn|].
      intros y Hy. destruct (Hnew y Hy) as (l & Hl & H1 & H2). eauto.
    + rewrite E in *. unfold add_ctx in *. simpl in *. split.
      * rewrite Hc, length_app. simpl. lia.
      * exists (strip ln :: new). split.
        -- rewrite Hn, <- app_assoc. reflexivity.
        -- intros y [<-|Hy]; [eauto|].
           destruct (Hnew y Hy) as (l & Hl & H1 & H2). eauto.
    + rewrite E in *. unfold add_lup in *. simpl in *. split.
      * rewrite Hc, length_app. simpl. lia.
      * exists new. split; [exact Hn|].
        intros y Hy. destruct (Hnew y Hy) as (l & Hl & H1 & H2). eauto.
Qed.

(** Without a colon none of the three line shapes is there. *)
Lemma front_step_no_colon st ln :
  ~ In 58%N ln ->
  front_step U st ln = if nonblank ln then add_ctx st (strip ln) else st.
Proof.
  intros H. unfold front_step, nonblank.
  destruct (truthy (strip ln)); [|reflexivity]. simpl negb. cbv iota.
  unfold rmatch_start.
  rewrite (@no_char_no_match U flag_I 58%N TEAM_LINE ln false None
             (@colon_matches_colon flag_I) eq_refl H).
  rewrite (@no_char_no_match U flag_I 58%N SUBS_INLINE ln false None
             (@colon_matches_colon flag_I) eq_refl H).
  rewrite (@no_char_no_match U flag_I 58%N SUBS_BARE ln false None
             (@colon_matches_colon flag_I) eq_refl H).
  reflexivity.
Qed.

Lemma front_fold_no_colon front : forall st,
  (forall ln, In ln front -> ~ In 58%N ln) ->
  fold_left (front_step U) front st
  = {| ctx := ctx st ++ map strip (filter nonblank front);
       lups := lups st;
       last_team_for_bare_subs := last_team_for_bare_subs st |}.
Proof.
  induction front as [|ln front IH]; intros st H; simpl.
  - rewrite app_nil_r. destruct st; reflexivity.
  - rewrite IH by (intros l Hl; apply H; right; exact Hl).
    rewrite front_step_no_colon by (apply H; left; reflexivity).
    destruct (nonblank ln); [|reflexivity].
    unfold add_ctx. simpl. rewrite <- app_assoc. reflexivity.
Qed.

Lemma lineup_step_no_colon st ln :
  ~ In 58%N ln -> lineup_step U st ln = st.
Proof.
  intros H. unfold lineup_step, rmatch_start.
  rewrite (@no_char_no_match U flag_I 58%N SUBS_INLINE ln false None
             (@colon_matches_colon flag_I) eq_refl H).
  rewrite (@no_char_no_match U flag_I 58%N SUBS_BARE ln false None
             (@colon_matches_colon flag_I) eq_refl H).
  rewrite (@no_char_no_match U flag_I 58%N TEAM_LINE ln false None
             (@colon_matches_colon flag_I) eq_refl H).
  reflexivity.
Qed.

Lemma lineup_fold_no_colon lines : forall st,
  (forall ln, In ln lines -> ~ In 58%N ln) ->
  fold_left (lineup_step U) lines st = st.
Proof.
  induction lines as [|ln lines IH]; intros st H; simpl; [reflexivity|].
  rewrite lineup_step_no_colon by (apply H; left; reflexivity).
  apply IH. intros l Hl. apply H. right. exact Hl.
Qed.

Lemma frontmatter_count front :
  length (fst (_extract_frontmatter U front))
  + length (snd (_extract_frontmatter U front))
  = length (filter nonblank front).
Proof.
  unfold _extract_frontmatter. simpl.
  destruct (front_fold_count front front_start) as (Hc & _). exact Hc.
Qed.

End FrontMatterMore.

(** X11.  [_extract_frontmatter] loses no line and repeats none: the
    context lines and the lineup lines together are as many as the
    non-blank lines it was given, and every context line is one of
    these, stripped. *)
Theorem frontmatter_keeps_every_line (U : unicode) (front : list str) :
  length (fst (Ingest._extract_frontmatter U front))
  + length (snd (Ingest._extract_frontmatter U front))
  = length (filter MoreNotions.nonblank front)
  /\ forall x, In x (fst (Ingest._extract_frontmatter U front)) ->
       x <> [] /\ exists ln, In ln front /\ x = strip ln.
Proof.
  unfold Ingest._extract_frontmatter. simpl.
  destruct (front_fold_count U front Ingest.front_start) as (Hc & new & Hn & Hnew).
  split; [exact Hc|].
  intros x Hx. rewrite Hn in Hx. simpl in Hx.
  destruct (Hnew x Hx) as (ln & Hl & Hb & ->).
  split; [|eauto].
  unfold MoreNotions.nonblank in Hb. destruct (strip ln); [discriminate|discriminate].
Qed.

(** X12.  Without a colon there is no lineup: when no line holds one,
    every non-blank line of the front matter is context, and
    [parse_lineups] raises its error. *)
Theorem no_colon_no_lineup (U : unicode) (lines : list str) :
  (forall ln, In ln lines -> ~ In 58%N ln) ->
  Ingest._extract_frontmatter U lines
  = (map strip (filter MoreNotions.nonblank lines), [])
  /\ Ingest.parse_lineups U lines = inl (Ingest.ValueError lines).
Proof.
  intros H. split.
  - unfold Ingest._extract_frontmatter.
    rewrite front_fold_no_colon by exact H. reflexivity.
  - unfold Ingest.parse_lineups, Ingest.teams_of.
    rewrite lineup_fold_no_colon by exact H. reflexivity.
Qed.

Lemma no_colon_no_lineup_witness :
  Ingest._extract_frontmatter Sample.ascii_only
    [lit "  Villa Park, Saturday "; lit "   "; lit "Referee - M. Oliver"]
  = (map strip (filter MoreNotions.nonblank
       [lit "  Villa Park, Saturday "; lit "   "; lit "Referee - M. Oliver"]),
     [])
  /\ Ingest.parse_lineups Sample.ascii_only
       [lit "  Villa Park, Saturday "; lit "   "; lit "Referee - M. Oliver"]
     = inl (Ingest.ValueError
              [lit "  Villa Park, Saturday "; lit "   ";
               lit "Referee - M. Oliver"]).
Proof.
  apply no_colon_no_lineup.
  intros ln [<-|[<-|[<-|[]]]]; vm_compute;
    intros H; repeat (destruct H as [H|H]; [discriminate|]); exact H.
Defined.

Section Rosters.

Import Ingest Notions MoreNotions.

Variable U : unicode.

(** The separator of names matches wherever a comma or a semicolon
    stands. *)
Lemma name_sep_comma adv pv s :
  match_at U no_flags NAME_SEP adv pv (44%N :: s) <> None.
Proof.
  unfold match_at, NAME_SEP.
  change (alts [word ","; word ";";
                seqs [space; Chr 8211%N; space];
                seqs [space; word "-"; space];
                seqs [spaces1; Chr 8211%N; spaces1]])
    with (Alt (Chr 44%N)
            (alts [word ";";
                   seqs [space; Chr 8211%N; space];
                   seqs [space; word "-"; space];
                   seqs [spaces1; Chr 8211%N; spaces1]])).
  rewrite run_alt.
  change (run U no_flags (Chr 44%N) pv (44%N :: s) [] (accept adv (44%N :: s)))
    with (accept adv (44%N :: s) (Some 44%N) s []).
  destruct (accept adv (44%N :: s) (Some 44%N) s []) eqn:E; [discriminate|].
  exfalso. revert E. apply accept_shorter. apply le_n.
Qed.

Lemma name_sep_semicolon adv pv s :
  match_at U no_flags NAME_SEP adv pv (59%N :: s) <> None.
Proof.
  unfold match_at, NAME_SEP.
  change (alts [word ","; word ";";
                seqs [space; Chr 8211%N; space];
                seqs [space; word "-"; space];
                seqs [spaces1; Chr 8211%N; spaces1]])
    with (Alt (Chr 44%N)
            (Alt (Chr 59%N)
               (alts [seqs [space; Chr 8211%N; space];
                      seqs [space; word "-"; space];
                      seqs [spaces1; Chr 8211%N; spaces1]]))).
  rewrite !run_alt.
  change (run U no_flags (Chr 44%N) pv (59%N :: s) [] (accept adv (59%N :: s)))
    with (@None rmatch).
  change (run U no_flags (Chr 59%N) pv (59%N :: s) [] (accept adv (59%N :: s)))
    with (accept adv (59%N :: s) (Some 59%N) s []).
  destruct (accept adv (59%N :: s) (Some 59%N) s []) eqn:E; [discriminate|].
  exfalso. revert E. apply accept_shorter. apply le_n.
Qed.

Lemma strip_trailing_chars s c :
  In c (_strip_trailing_punct U s) -> In c s.
Proof.
  unfold _strip_trailing_punct. revert c.
  apply sub_chars with (P := fun c => In c s).
  - intros c. apply strip_In.
  - intros m c _ _ [].
Qed.

Lemma norm_names_clean csv x : In x (_norm_names U csv) -> clean_name x.
Proof.
  unfold _norm_names. intros H. apply filter_In in H as [H Ht].
  apply in_map_iff in H as [piece [<- Hp]].
  split; [|split].
  - intros E. rewrite E in Ht. discriminate.
  - intros Hc. apply strip_trailing_chars in Hc. revert Hc.
    eapply split_avoids; [|exact Hp]. apply name_sep_comma.
  - intros Hc. apply strip_trailing_chars in Hc. revert Hc.
    eapply split_avoids; [|exact Hp]. apply name_sep_semicolon.
Qed.

Lemma setdefault_extend_clean team names d :
  clean_values d -> (forall x, In x names -> clean_name x) ->
  clean_values (setdefault_extend team names d).
Proof.
  intros Hd Hn. induction d as [|[k v] d IH]; simpl.
  - intros k0 v0 x [E|[]] Hx. injection E as <- <-. apply Hn, Hx.
  - destruct (str_eqb team k).
    + intros k0 v0 x [E|Hin] Hx.
      * injection E as <- <-. apply in_app_iff in Hx as [Hx|Hx].
        -- eapply Hd; [left; reflexivity | exact Hx].
        -- apply Hn, Hx.
      * eapply Hd; [right; exact Hin | exact Hx].
    + intros k0 v0 x [E|Hin] Hx.
      * injection E as <- <-. eapply Hd; [left; reflexivity | exact Hx].
      * eapply IH; [|exact Hin|exact Hx].
        intros k1 v1 x1 H1 Hx1. eapply Hd; [right; exact H1 | exact Hx1].
Qed.

Lemma lineup_step_clean st ln :
  clean_values (teams st) -> clean_values (teams (lineup_step U st ln)).
Proof.
  intros H. unfold lineup_step.
  destruct (rmatch_start U flag_I SUBS_INLINE ln).
  { simpl. apply setdefault_extend_clean; [exact H|apply norm_names_clean]. }
  destruct (rmatch_start U flag_I SUBS_BARE ln).
  - destruct (truthy_opt (last_team st)).
    { simpl. apply setdefault_extend_clean; [exact H|apply norm_names_clean]. }
    destruct (rmatch_start U flag_I TEAM_LINE ln); [|exact H].
    destruct (str_eqb _ _); [exact H|].
    simpl. apply setdefault_extend_clean; [exact H|apply norm_names_clean].
  - destruct (truthy_opt (last_team st));
      (destruct (rmatch_start U flag_I TEAM_LINE ln); [|exact H];
       destruct (str_eqb _ _); [exact H|];
       simpl; apply setdefault_extend_clean; [exact H|apply norm_names_clean]).
Qed.

Lemma teams_of_clean lines : clean_values (teams_of U lines).
Proof.
  unfold teams_of.
  assert (H : forall st, clean_values (teams st) ->
            clean_values (teams (fold_left (lineup_step U) lines st))).
  { induction lines as [|ln lines IH]; intros st Hst; simpl; [exact Hst|].
    apply IH, lineup_step_clean, Hst. }
  apply H. intros k v x [].
Qed.

Lemma dedup_from_spec seq : forall seen x,
  In x (dedup_from U seen seq) ->
  x <> [] /\ ~ In x seen /\ exists y, In y seq /\ x = _strip_trailing_punct U y.
Proof.
  induction seq as [|y seq IH]; intros seen x H; simpl in H; [destruct H|].
  destruct (truthy (_strip_trailing_punct U y)
            && negb (mem (_strip_trailing_punct U y) seen)) eqn:E.
  - destruct H as [<-|H].
    + apply andb_true_iff in E as [E1 E2]. split; [|split].
      * intros E. rewrite E in E1. discriminate.
      * intros Hin. apply mem_In in Hin. rewrite Hin in E2. discriminate.
      * exists y. split; [left; reflexivity | reflexivity].
    + destruct (IH _ _ H) as (H1 & H2 & z & Hz & H3). split; [exact H1|].
      split; [intros Hin; apply H2; right; exact Hin|].
      exists z. split; [right; exact Hz | exact H3].
  - destruct (IH _ _ H) as (H1 & H2 & z & Hz & H3). split; [exact H1|].
    split; [exact H2|]. exists z. split; [right; exact Hz | exact H3].
Qed.

Lemma dedup_from_NoDup seq : forall seen, NoDup (dedup_from U seen seq).
Proof.
  induction seq as [|y seq IH]; intros seen; simpl; [constructor|].
  destruct (truthy _ && negb _); [|apply IH].
  constructor; [|apply IH].
  intros H. apply dedup_from_spec in H as (_ & H & _).
  apply H. left. reflexivity.
Qed.

Lemma dedup_clean v x :
  (forall y, In y v -> ~ In 44%N y /\ ~ In 59%N y) ->
  In x (dedup U v) -> clean_name x.
Proof.
  intros Hv H. apply dedup_from_spec in H as (H1 & _ & y & Hy & ->).
  split; [exact H1|].
  destruct (Hv y Hy) as [Hc Hs].
  split; intros Hin; apply strip_trailing_chars in Hin; contradiction.
Qed.

End Rosters.

(** X13.  The rosters [parse_lineups] returns are lists of names: none
    is empty, none holds a comma or a semicolon, none comes twice. *)
Theorem rosters_are_clean (U : unicode) (lines : list str)
    (t1 : str) (r1 : list str) (t2 : str) (r2 : list str) :
  Ingest.parse_lineups U lines = inr (t1, r1, t2, r2) ->
  NoDup r1 /\ NoDup r2
  /\ forall x, In x r1 \/ In x r2 ->
       x <> [] /\ ~ In 44%N x /\ ~ In 59%N x.
Proof.
  unfold Ingest.parse_lineups.
  pose proof (teams_of_clean U lines) as Hc.
  destruct (Ingest.teams_of U lines) as [|[k1 v1] [|[k2 v2] rest]];
    try discriminate.
  intros H. injection H as <- <- <- <-.
  split; [apply dedup_from_NoDup|]. split; [apply dedup_from_NoDup|].
  intros x [Hx|Hx].
  - eapply dedup_clean; [|exact Hx].
    intros y Hy. eapply Hc; [left; reflexivity | exact Hy].
  - eapply dedup_clean; [|exact Hx].
    intros y Hy. eapply Hc; [right; left; reflexivity | exact Hy].
Qed.

Lemma rosters_are_clean_witness :
  NoDup (map lit ["Meslier"; "Ayling"; "Cooper"; "Bamford"; "Klaesson";
                  "Gelhardt"]%string)
  /\ NoDup (map lit ["Martinez"; "Cash"; "Konsa"; "Mings"]%string)
  /\ forall x,
       In x (map lit ["Meslier"; "Ayling"; "Cooper"; "Bamford"; "Klaesson";
                      "Gelhardt"]%string)
       \/ In x (map lit ["Martinez"; "Cash"; "Konsa"; "Mings"]%string) ->
       x <> [] /\ ~ In 44%N x /\ ~ In 59%N x.
Proof.
  apply (@rosters_are_clean Sample.ascii_only
           [lit "Leeds United: Meslier, Ayling; Cooper, Ayling., Bamford";
            lit "Subs: Klaesson, , Gelhardt";
            lit "Aston Villa XI: Martinez, Cash, Konsa - Mings"]
           (lit "Leeds United") _ (lit "Aston Villa") _).
  vm_compute. reflexivity.
Defined.

Section TeamsGrow.

Import Ingest Notions MoreNotions.

Variable U : unicode.

Lemma grows_refl d : grows d d.
Proof.
  exists d, []. split; [symmetry; apply app_nil_r|].
  induction d as [|a d IH]; constructor; [|exact IH].
  split; [reflexivity|]. exists []. symmetry. apply app_nil_r.
Qed.

Lemma grows_trans d1 d2 d3 : grows d1 d2 -> grows d2 d3 -> grows d1 d3.
Proof.
  intros (a & xa & -> & Fa) (b & xb & -> & Fb).
  apply Forall2_app_inv_l in Fb as (b1 & b2 & F1 & F2 & ->).
  exists b1, (b2 ++ xb). split; [rewrite app_assoc; reflexivity|].
  clear F2. revert b1 F1. induction Fa as [|x y l l' Hxy Fa IH];
    intros b1 F1; inversion F1 as [|y' z l1 l2 Hyz F1']; subst;
    constructor.
  - destruct Hxy as [E1 [m1 M1]]. destruct Hyz as [E2 [m2 M2]].
    split; [congruence|]. exists (m1 ++ m2).
    rewrite M2, M1, app_assoc. reflexivity.
  - apply IH, F1'.
Qed.

Lemma setdefault_extend_grows team names d :
  grows d (setdefault_extend team names d).
Proof.
  induction d as [|[k v] d IH]; simpl.
  - exists [], [(team, names)]. split; [reflexivity | constructor].
  - destruct (str_eqb team k).
    + destruct (grows_refl d) as (d1 & extra & E & F).
      exists ((k, v ++ names) :: d1), extra. split.
      * simpl. rewrite <- E. reflexivity.
      * constructor; [|exact F]. split; [reflexivity|]. exists names.
        reflexivity.
    + destruct IH as (d1 & extra & E & F).
      exists ((k, v) :: d1), extra. split.
      * simpl. rewrite <- E. reflexivity.
      * constructor; [|exact F]. split; [reflexivity|]. exists [].
        symmetry. apply app_nil_r.
Qed.

Lemma lineup_step_grows st ln :
  grows (teams st) (teams (lineup_step U st ln)).
Proof.
  unfold lineup_step.
  destruct (rmatch_start U flag_I SUBS_INLINE ln).
  { apply setdefault_extend_grows. }
  destruct (rmatch_start U flag_I SUBS_BARE ln).
  - destruct (truthy_opt (last_team st)).
    { apply setdefault_extend_grows. }
    destruct (rmatch_start U flag_I TEAM_LINE ln); [|apply grows_refl].
    destruct (str_eqb _ _); [apply grows_refl|].
    apply setdefault_extend_grows.
  - destruct (truthy_opt (last_team st));
      (destruct (rmatch_start U flag_I TEAM_LINE ln); [|apply grows_refl];
       destruct (str_eqb _ _); [apply grows_refl|];
       apply setdefault_extend_grows).
Qed.

Lemma lineup_fold_grows lines : forall st,
  grows (teams st) (teams (fold_left (lineup_step U) lines st)).
Proof.
  induction lines as [|ln lines IH]; intros st; simpl; [apply grows_refl|].
  eapply grows_trans; [apply lineup_step_grows | apply IH].
Qed.

Lemma dedup_from_app a : forall seen b,
  exists rest, dedup_from U seen (a ++ b) = dedup_from U seen a ++ rest.
Proof.
  induction a as [|x a IH]; intros seen b; simpl.
  - eexists. reflexivity.
  - destruct (truthy _ && negb _).
    + destruct (IH (_strip_trailing_punct U x :: seen) b) as [rest ->].
      exists rest. reflexivity.
    + apply IH.
Qed.

End TeamsGrow.

(** X14.  Lineup lines that come after never change the answer already
    there: the two teams stay the two teams, and the names on their
    rosters stay, in their order, with new names only after them. *)
Theorem later_lines_keep_the_teams (U : unicode) (lines more : list str)
    (t1 : str) (r1 : list str) (t2 : str) (r2 : list str) :
  Ingest.parse_lineups U lines = inr (t1, r1, t2, r2) ->
  exists r1' r2',
    Ingest.parse_lineups U (lines ++ more)
    = inr (t1, r1 ++ r1', t2, r2 ++ r2').
Proof.
  unfold Ingest.parse_lineups, Ingest.teams_of. rewrite fold_left_app.
  pose proof (lineup_fold_grows U more
                (fold_left (Ingest.lineup_step U) lines
                   {| Ingest.teams := []; Ingest.last_team := None |}))
    as (d1 & extra & E & F).
  destruct (Ingest.teams (fold_left (Ingest.lineup_step U) lines _))
    as [|[k1 v1] [|[k2 v2] rest]]; try discriminate.
  intros H. injection H as <- <- <- <-.
  inversion F as [|a b l l' [Ea [m1 M1]] F']; subst.
  inversion F' as [|a' b' l0 l0' [Ea' [m2 M2]] F'']; subst.
  rewrite E. destruct b as [kb vb]. destruct b' as [kb' vb'].
  simpl in *. subst.
  destruct (dedup_from_app U v1 [] m1) as [x1 X1].
  destruct (dedup_from_app U v2 [] m2) as [x2 X2].
  exists x1, x2. unfold Ingest.dedup. rewrite X1, X2. reflexivity.
Qed.

Lemma later_lines_keep_the_teams_witness :
  exists r1' r2',
    Ingest.parse_lineups Sample.ascii_only
      ([lit "Leeds United: Meslier, Ayling";
        lit "Aston Villa: Martinez, Cash"]
       ++ [lit "Chelsea: Sanchez, James";
           lit "Leeds United Subs: Ayling, Gelhardt"])
    = inr (lit "Leeds United", map lit ["Meslier"; "Ayling"]%string ++ r1',
           lit "Aston Villa", map lit ["Martinez"; "Cash"]%string ++ r2').
Proof.
  apply later_lines_keep_the_teams. vm_compute. reflexivity.
Defined.

(* ================================================================== *)
(** * The section splitter *)
(* ================================================================== *)

Section Sections.

Import Ingest Splitter Notions MoreNotions.

Variable U : unicode.

Lemma solid_nonblank c s :
  In c s -> isspace c = false -> nonblank s = true.
Proof.
  intros Hin Hc. unfold nonblank.
  destruct (strip_splits s) as (a & b & E & Ha & Hb).
  rewrite E in Hin. apply in_app_iff in Hin as [Hin|Hin].
  { rewrite forallb_forall in Ha. rewrite (Ha c Hin) in Hc. discriminate. }
  apply in_app_iff in Hin as [Hin|Hin].
  - destruct (strip s); [destruct Hin | reflexivity].
  - rewrite forallb_forall in Hb. rewrite (Hb c Hin) in Hc. discriminate.
Qed.

Lemma lang_reads_solid fl r t :
  ignorecase fl = false ->
  lang U fl r t -> reads_solid r = true ->
  exists c, In c t /\ isspace c = false.
Proof.
  intros Hfl Hl. induction Hl; simpl; intros Hr; try discriminate.
  - exists c. split; [left; reflexivity|].
    unfold chr_match in H. rewrite Hfl in H. apply N.eqb_eq in H. subst c.
    apply negb_true_iff, Hr.
  - exists c. split; [left; reflexivity|].
    destruct neg; [discriminate|].
    unfold cls_match in H. simpl in H.
    apply existsb_exists in H as [x [Hx Hm]].
    rewrite forallb_forall in Hr. specialize (Hr x Hx).
    destruct x as [l| | |]; try discriminate.
    simpl in Hm. unfold chr_match in Hm. rewrite Hfl in Hm.
    apply N.eqb_eq in Hm. subst c. apply negb_true_iff, Hr.
  - apply orb_true_iff in Hr as [Hr|Hr].
    + destruct (IHHl1 Hr) as [c [Hc Hs]]. exists c.
      split; [apply in_or_app; left; exact Hc | exact Hs].
    + destruct (IHHl2 Hr) as [c [Hc Hs]]. exists c.
      split; [apply in_or_app; right; exact Hc | exact Hs].
  - apply andb_true_iff in Hr. apply IHHl, Hr.
  - apply andb_true_iff in Hr. apply IHHl, Hr.
  - apply IHHl, Hr.
Qed.

(** A line that opens with a minute is not blank. *)
Lemma minute_line_nonblank ln :
  is_minute_line U ln = true -> nonblank ln = true.
Proof.
  unfold is_minute_line, rmatch_start.
  destruct (match_at U flag_M MIN_LINE_OR_TAG false None ln) as [m|] eqn:E;
    [|discriminate].
  intros _.
  pose proof (match_at_reads _ _ _ _ _ _ E) as (Es & _).
  apply match_at_lang in E as [L _].
  apply lang_reads_solid in L as [c [Hc Hs]]; [|reflexivity|reflexivity].
  eapply solid_nonblank; [|exact Hs].
  rewrite Es. apply in_or_app. left. exact Hc.
Qed.

Lemma first_index_none (p : str -> bool) lines :
  first_index p lines = None -> forall ln, In ln lines -> p ln = false.
Proof.
  induction lines as [|l lines IH]; simpl; [intros _ ? []|].
  destruct (p l) eqn:E; [discriminate|].
  destruct (first_index p lines); [discriminate|].
  intros _ ln [<-|H]; [exact E | apply IH; [reflexivity | exact H]].
Qed.

Lemma first_index_some (p : str -> bool) lines : forall i,
  first_index p lines = Some i ->
  (forall ln, In ln (firstn i lines) -> p ln = false)
  /\ exists ln rest, skipn i lines = ln :: rest /\ p ln = true.
Proof.
  induction lines as [|l lines IH]; simpl; intros i H; [discriminate|].
  destruct (p l) eqn:E.
  - injection H as <-. simpl. split; [intros ? []|]. eauto.
  - destruct (first_index p lines) as [j|]; [|discriminate].
    injection H as <-. destruct (IH j eq_refl) as (Hf & ln & rest & Hs & Hp).
    simpl. split; [|eauto].
    intros x [<-|Hx]; [exact E | apply Hf, Hx].
Qed.

End Sections.

(** X15.  [split_sections] loses no line that is not blank.  The
    commentary holds no blank line; it is empty exactly when no line
    opens with a minute, and otherwise it starts with the first line that
    does; no line of the front matter opens with a minute. *)
Theorem split_sections_partition (U : unicode) (raw : str)
    (ctx lups comm : list str) :
  Splitter.split_sections U raw = (ctx, lups, comm) ->
  length ctx + length lups + length comm
  = length (filter MoreNotions.nonblank (map rstrip (PyMore.splitlines raw)))
  /\ (forall ln, In ln comm -> MoreNotions.nonblank ln = true)
  /\ match comm with
     | [] =>
         forall ln, In ln (map rstrip (PyMore.splitlines raw)) ->
                    Splitter.is_minute_line U ln = false
     | first :: _ =>
         Splitter.is_minute_line U first = true
         /\ exists front rest,
              map rstrip (PyMore.splitlines raw) = front ++ first :: rest
              /\ (forall ln, In ln front ->
                             Splitter.is_minute_line U ln = false)
              /\ (ctx, lups) = Ingest._extract_frontmatter U front
     end.
Proof.
  unfold Splitter.split_sections.
  set (lines := map rstrip (PyMore.splitlines raw)).
  destruct (Splitter.first_index (Splitter.is_minute_line U) lines)
    as [i|] eqn:Ei.
  - destruct (Ingest._extract_frontmatter U (firstn i lines)) as [c l] eqn:Ef.
    intros H. injection H as <- <- <-.
    apply first_index_some in Ei as (Hfront & ln & rest & Hs & Hp).
    pose proof (frontmatter_count U (firstn i lines)) as Hc.
    rewrite Ef in Hc. simpl in Hc.
    split; [|split].
    + rewrite Hc, <- length_app, <- filter_app, firstn_skipn. reflexivity.
    + intros x Hx. apply filter_In in Hx. apply Hx.
    + rewrite Hs. simpl.
      change (truthy (strip ln)) with (MoreNotions.nonblank ln).
      rewrite (minute_line_nonblank U ln Hp).
      split; [exact Hp|]. exists (firstn i lines), rest.
      split; [|split; [exact Hfront | symmetry; exact Ef]].
      rewrite <- Hs. symmetry. apply firstn_skipn.
  - destruct (Ingest._extract_frontmatter U lines) as [c l] eqn:Ef.
    intros H. injection H as <- <- <-.
    pose proof (frontmatter_count U lines) as Hc.
    rewrite Ef in Hc. simpl in Hc.
    split; [simpl; lia|]. split; [intros ? []|].
    apply first_index_none, Ei.
Qed.

Lemma split_sections_partition_witness :
  length [lit "Villa Park"] + length (@nil str)
  + length [lit "12' Corner, Leeds."; lit "[MIN=13] Kick"]
  = length (filter MoreNotions.nonblank
              (map rstrip (PyMore.splitlines
                 (lit "Villa Park  " ++ [13; 10; 10]%N
                  ++ lit "12' Corner, Leeds." ++ [10; 10]%N
                  ++ lit "[MIN=13] Kick"))))
  /\ (forall ln, In ln [lit "12' Corner, Leeds."; lit "[MIN=13] Kick"] ->
                 MoreNotions.nonblank ln = true)
  /\ Splitter.is_minute_line Sample.ascii_only (lit "12' Corner, Leeds.")
     = true
     /\ exists front rest,
          map rstrip (PyMore.splitlines
             (lit "Villa Park  " ++ [13; 10; 10]%N
              ++ lit "12' Corner, Leeds." ++ [10; 10]%N
              ++ lit "[MIN=13] Kick"))
          = front ++ lit "12' Corner, Leeds." :: rest
          /\ (forall ln, In ln front ->
                         Splitter.is_minute_line Sample.ascii_only ln = false)
          /\ ([lit "Villa Park"], []) =
             Ingest._extract_frontmatter Sample.ascii_only front.
Proof.
  apply (@split_sections_partition Sample.ascii_only
           (lit "Villa Park  " ++ [13; 10; 10]%N
            ++ lit "12' Corner, Leeds." ++ [10; 10]%N
            ++ lit "[MIN=13] Kick")
           [lit "Villa Park"] []
           [lit "12' Corner, Leeds."; lit "[MIN=13] Kick"]).
  vm_compute. reflexivity.
Defined.

Lemma frontmatter_keeps_every_line_witness :
  length (fst (Ingest._extract_frontmatter Sample.ascii_only
                 [lit " Villa Park "; lit "  ";
                  lit "Leeds: A, B, C, D, E, F"]))
  + length (snd (Ingest._extract_frontmatter Sample.ascii_only
                   [lit " Villa Park "; lit "  ";
                    lit "Leeds: A, B, C, D, E, F"]))
  = 2
  /\ (lit "Villa Park" <> []
      /\ exists ln,
           In ln [lit " Villa Park "; lit "  "; lit "Leeds: A, B, C, D, E, F"]
           /\ lit "Villa Park" = strip ln).
Proof.
  pose proof (frontmatter_keeps_every_line Sample.ascii_only
                [lit " Villa Park "; lit "  "; lit "Leeds: A, B, C, D, E, F"])
    as [H1 H2].
  split; [exact H1|]. apply H2. vm_compute. left. reflexivity.
Defined.

(* ================================================================== *)
(** * The lineup fallback *)
(* ================================================================== *)

Section Fallback.

Import Ingest Splitter Notions MoreNotions.

Variable U : unicode.

Lemma fallback_step_cases st ln :
  fallback_step U st ln = st
  \/ (nonblank ln = true
      /\ exists x lt,
           lineup_like_line x
           /\ fallback_step U st ln
              = {| lineup_like := lineup_like st ++ [x]; fb_last_team := lt |}).
Proof.
  unfold fallback_step, nonblank.
  destruct (truthy (strip ln)); simpl negb; cbv iota; [|left; reflexivity].
  destruct (rmatch_start U flag_I SUBS_INLINE _) as [m|].
  { destruct (3 <=? count_char comma _) eqn:E; [|left; reflexivity].
    right. split; [reflexivity|]. eexists. eexists. split; [|reflexivity].
    eexists. eexists. left. split; [reflexivity|]. apply Nat.leb_le, E. }
  destruct (rmatch_start U flag_I SUBS_BARE _) as [m|].
  { destruct (fb_last_team st) as [lt|]; [|left; reflexivity].
    destruct (truthy lt); [|left; reflexivity].
    destruct (3 <=? count_char comma _) eqn:E; [|left; reflexivity].
    right. split; [reflexivity|]. eexists. eexists. split; [|reflexivity].
    eexists. eexists. left. split; [reflexivity|]. apply Nat.leb_le, E. }
  destruct (rmatch_start U flag_I TEAM_LINE _) as [m|]; [|left; reflexivity].
  destruct (5 <=? count_char comma _) eqn:E; [|left; reflexivity].
  right. split; [reflexivity|]. eexists. eexists. split; [|reflexivity].
  eexists. eexists. right. split; [reflexivity|]. apply Nat.leb_le, E.
Qed.

Lemma fallback_fold lines : forall st,
  exists new,
    lineup_like (fold_left (fallback_step U) lines st) = lineup_like st ++ new
    /\ length new <= length (filter nonblank lines)
    /\ forall x, In x new -> lineup_like_line x.
Proof.
  induction lines as [|ln lines IH]; intros st; simpl.
  - exists []. rewrite app_nil_r. split; [reflexivity|].
    split; [apply le_n | intros ? []].
  - destruct (IH (fallback_step U st ln)) as (new & E & Hl & Hn).
    destruct (fallback_step_cases st ln) as [Es|(Hb & x & lt & Hx & Es)].
    + rewrite Es in E |- *. exists new. split; [exact E|]. split; [|exact Hn].
      destruct (nonblank ln); simpl; lia.
    + rewrite Es in E |- *. simpl in E. rewrite Hb. exists (x :: new).
      split; [rewrite E, <- app_assoc; reflexivity|].
      split; [simpl; lia|].
      intros y [<-|Hy]; [exact Hx | apply Hn, Hy].
Qed.

End Fallback.

(** X16.  The lineup fallback gives at most one line for each non-blank
    line of commentary, and each of them reads like a lineup line: a
    team, [ Subs: ] or a colon, and a list with at least three commas
    after the bench, five after the colon alone. *)
Theorem fallback_lines_look_like_lineups (U : unicode)
    (comm_lines : list str) :
  length (Splitter.extract_lineups_from_commentary U comm_lines)
  <= length (filter MoreNotions.nonblank comm_lines)
  /\ forall ln,
       In ln (Splitter.extract_lineups_from_commentary U comm_lines) ->
       MoreNotions.lineup_like_line ln
       /\ In 58%N ln /\ 3 <= count_char Ingest.comma ln.
Proof.
  unfold Splitter.extract_lineups_from_commentary.
  destruct (fallback_fold U comm_lines
              {| Splitter.lineup_like := []; Splitter.fb_last_team := None |})
    as (new & E & Hl & Hn).
  rewrite E. simpl. split; [exact Hl|].
  intros ln Hin. specialize (Hn ln Hin). split; [exact Hn|].
  destruct Hn as (team & rhs & [[-> Hc]|[-> Hc]]).
  - split.
    + apply in_or_app. right. apply in_or_app. left.
      simpl. do 5 right. left. reflexivity.
    + rewrite !count_char_app. lia.
  - split.
    + apply in_or_app. right. apply in_or_app. left.
      simpl. left. reflexivity.
    + rewrite !count_char_app. lia.
Qed.

Lemma fallback_lines_look_like_lineups_witness :
  MoreNotions.lineup_like_line (lit "Leeds United Subs: A, B, C, D")
  /\ In 58%N (lit "Leeds United Subs: A, B, C, D")
  /\ 3 <= count_char Ingest.comma (lit "Leeds United Subs: A, B, C, D").
Proof.
  apply (proj2 (fallback_lines_look_like_lineups Sample.ascii_only
                  [lit "[MIN=1] Leeds United Subs: A, B, C, D"; lit " ";
                   lit "2' Corner, Leeds United."])).
  vm_compute. left. reflexivity.
Defined.

(* ================================================================== *)
(** * The match memory *)
(* ================================================================== *)

Section Ledgers.

Import Parser Memory Notions MoreNotions.

Variable U : unicode.

Lemma ledger_add_total k n d :
  ledger_total (ledger_add k n d) = (ledger_total d + n)%N.
Proof.
  induction d as [|[k' v] d IH]; simpl.
  - lia.
  - destruct (str_eqb k k'); simpl; [lia | rewrite IH; lia].
Qed.

Lemma ledger_add_keys k n d :
  map fst (ledger_add k n d)
  = if mem k (map fst d) then map fst d else map fst d ++ [k].
Proof.
  induction d as [|[k' v] d IH]; simpl; [reflexivity|].
  destruct (str_eqb k k'); simpl; [reflexivity|].
  rewrite IH. destruct (mem k (map fst d)); reflexivity.
Qed.

Lemma ledger_add_NoDup k n d :
  NoDup (map fst d) -> NoDup (map fst (ledger_add k n d)).
Proof.
  intros H. rewrite ledger_add_keys.
  destruct (mem k (map fst d)) eqn:E; [exact H|].
  apply NoDup_snoc; [exact H|].
  intros Hin. apply mem_In in Hin. congruence.
Qed.

Local Abbreviation b2n := (fun b : bool => if b then 1%N else 0%N).

(** What one round adds to the counters. *)
Lemma tally_step_event tl e :
  quotes (tally_step U tl (Event e))
  = quotes tl ++ (if is_quote e then [note e] else [])
  /\ ledger_total (hero (tally_step U tl (Event e)))
     = (ledger_total (hero tl) + 2 * b2n (our_goal e))%N
  /\ ledger_total (blame (tally_step U tl (Event e)))
     = (ledger_total (blame tl) + b2n (our_miss e))%N
  /\ pressure_for (tally_step U tl (Event e))
     = (pressure_for tl + 2 * b2n (our_goal e) + b2n (our_miss e)
        + b2n (for_us "CORNER_" e) + b2n (for_us "DISALLOWED_GOAL_" e))%N
  /\ (NoDup (map fst (hero tl)) ->
      NoDup (map fst (hero (tally_step U tl (Event e)))))
  /\ (NoDup (map fst (blame tl)) ->
      NoDup (map fst (blame (tally_step U tl (Event e))))).
Proof.
  unfold tally_step. cbn [quotes hero blame pressure_for].
  unfold our_goal, our_miss, for_us, named, is_quote, is_type.
  split; [|split; [|split; [|split; [|split]]]].
  - destruct (str_eqb (etype e) (lit "QUOTE"));
      [reflexivity | symmetry; apply app_nil_r].
  - destruct (str_eqb (etype e) (lit "OUR_GOAL") && truthy_opt (player e));
      [apply ledger_add_total | simpl; lia].
  - destruct (str_eqb (etype e) (lit "OUR_BIG_CHANCE_MISSED")
              && truthy_opt (player e));
      [apply ledger_add_total | simpl; lia].
  - destruct (str_eqb (etype e) (lit "OUR_GOAL") && truthy_opt (player e));
      reflexivity.
  - intros H. destruct (_ && _); [apply ledger_add_NoDup, H | exact H].
  - intros H. destruct (_ && _); [apply ledger_add_NoDup, H | exact H].
Qed.

Lemma count_events_cons p it items :
  count_events p (it :: items)
  = (match it with Event e => b2n (p e) | Other => 0 end
     + count_events p items)%N.
Proof.
  unfold count_events. simpl.
  destruct it as [e|]; [|lia].
  destruct (p e); simpl length; lia.
Qed.

Lemma tally_fold items : forall tl,
  quotes (fold_left (tally_step U) items tl) = quotes tl ++ quote_notes items
  /\ ledger_total (hero (fold_left (tally_step U) items tl))
     = (ledger_total (hero tl) + 2 * count_events our_goal items)%N
  /\ ledger_total (blame (fold_left (tally_step U) items tl))
     = (ledger_total (blame tl) + count_events our_miss items)%N
  /\ pressure_for (fold_left (tally_step U) items tl)
     = (pressure_for tl + 2 * count_events our_goal items
        + count_events our_miss items
        + count_events (for_us "CORNER_") items
        + count_events (for_us "DISALLOWED_GOAL_") items)%N
  /\ (NoDup (map fst (hero tl)) ->
      NoDup (map fst (hero (fold_left (tally_step U) items tl))))
  /\ (NoDup (map fst (blame tl)) ->
      NoDup (map fst (blame (fold_left (tally_step U) items tl)))).
Proof.
  induction items as [|it items IH]; intros tl.
  - simpl. unfold count_events. simpl. rewrite app_nil_r.
    repeat split; auto; lia.
  - simpl fold_left. rewrite !count_events_cons.
    destruct (IH (tally_step U tl it)) as (Q & H & B & P & NH & NB).
    destruct it as [e|].
    + destruct (tally_step_event tl e) as (Q' & H' & B' & P' & NH' & NB').
      rewrite Q, H, B, P, Q', H', B', P'.
      split; [|split; [|split; [|split; [|split]]]]; auto; try lia.
      simpl quote_notes. rewrite <- app_assoc. reflexivity.
    + simpl tally_step in *. rewrite Q, H, B, P.
      split; [|split; [|split; [|split; [|split]]]]; auto; lia.
Qed.

End Ledgers.

(** X17.  What [build_memory] keeps of a timeline.  The quotes are the
    notes of the events of type QUOTE, in order.  Each goal of ours with
    a named player counts two on the hero ledger, each of our misses with
    a named player one on the blame ledger, and no player stands twice on
    a ledger.  The pressure for is the two ledgers together, plus one
    for each corner and each disallowed goal of ours. *)
Theorem memory_ledgers_add_up (U : unicode) (match_id our_team : str)
    (team1 : str) (roster1 : list str) (team2 : str) (roster2 : list str)
    (events : list Memory.item) (context_lines : list str) :
  let m := Memory.build_memory U match_id our_team team1 roster1
             team2 roster2 events context_lines in
  Memory.mem_quotes m = MoreNotions.quote_notes events
  /\ MoreNotions.ledger_total (Memory.hero_ledger m)
     = (2 * MoreNotions.count_events MoreNotions.our_goal events)%N
  /\ MoreNotions.ledger_total (Memory.blame_ledger m)
     = MoreNotions.count_events MoreNotions.our_miss events
  /\ Memory.mem_pressure_for m
     = (MoreNotions.ledger_total (Memory.hero_ledger m)
        + MoreNotions.ledger_total (Memory.blame_ledger m)
        + MoreNotions.count_events (MoreNotions.for_us "CORNER_") events
        + MoreNotions.count_events (MoreNotions.for_us "DISALLOWED_GOAL_")
            events)%N
  /\ NoDup (map fst (Memory.hero_ledger m))
  /\ NoDup (map fst (Memory.blame_ledger m)).
Proof.
  unfold Memory.build_memory.
  cbn [Memory.mem_quotes Memory.hero_ledger Memory.blame_ledger
       Memory.mem_pressure_for].
  destruct (tally_fold U events Memory.tally_start)
    as (Q & H & B & P & NH & NB).
  rewrite Q, H, B, P. simpl.
  split; [reflexivity|]. split; [reflexivity|]. split; [reflexivity|].
  split; [reflexivity|]. split; [apply NH | apply NB]; constructor.
Qed.

(* ================================================================== *)
(** * The value of a minute: what is refused *)
(* ================================================================== *)

Section MinuteRefused.

Import PyMore.

Lemma split_char_length c s :
  length (split_char c s) = S (count_char c s).
Proof.
  unfold count_char. induction s as [|x s IH]; [reflexivity|].
  cbn [split_char filter]. destruct (char_eqb c x).
  - simpl. rewrite IH. reflexivity.
  - destruct (split_char c s) as [|f fs]; [discriminate|]. exact IH.
Qed.

Lemma count_char_contains c s :
  1 <= count_char c s -> contains [c] s = true.
Proof.
  rewrite contains_char. unfold count_char.
  induction s as [|x s IH]; simpl; [lia|].
  destruct (char_eqb c x); [reflexivity|]. exact IH.
Qed.

End MinuteRefused.

(** X18.  [_minute_val] takes one plus sign at most: with two or more
    the split gives three parts or more, and unpacking them into base
    and extra raises the error. *)
Theorem minute_val_refuses_two_pluses (U : unicode) (m : str) :
  2 <= count_char 43%N m -> Analytics._minute_val U m = None.
Proof.
  intros H. unfold Analytics._minute_val.
  change (lit "+") with [43%N : char].
  rewrite count_char_contains by lia.
  pose proof (split_char_length 43%N m) as Hl.
  destruct (PyMore.split_char 43%N m) as [|a [|b [|c l]]];
    simpl in Hl; try lia; reflexivity.
Qed.

Lemma minute_val_refuses_two_pluses_witness :
  Analytics._minute_val Sample.ascii_only (lit "45+2+1") = None.
Proof.
  apply minute_val_refuses_two_pluses. vm_compute. lia.
Defined.

(* ================================================================== *)
(** * The statistics *)
(* ================================================================== *)

Section Statistics.

Import Parser Memory Analytics Notions MoreNotions.

Variable U : unicode.

Local Abbreviation b2n := (fun b : bool => if b then 1%N else 0%N).

Lemma type_excludes (e : event) (a b : String.string) :
  is_type e a = true -> str_eqb (lit a) (lit b) = false ->
  is_type e b = false.
Proof.
  unfold is_type. intros Ha Hab. apply str_eqb_eq in Ha. rewrite Ha.
  exact Hab.
Qed.

(** What one round adds to the counters. *)
Lemma count_step_adds c e c' :
  count_step U c (Event e) = Some c' ->
  c_goals_for c' = (c_goals_for c + b2n (has_type "OUR_GOAL" e))%N
  /\ c_goals_against c' = (c_goals_against c + b2n (has_type "OPP_GOAL" e))%N
  /\ c_cards_us c' = (c_cards_us c + b2n (card_of "US" e))%N
  /\ c_cards_opp c' = (c_cards_opp c + b2n (card_of "OPP" e))%N
  /\ c_misses_us c'
     = (c_misses_us c + b2n (has_type "OUR_BIG_CHANCE_MISSED" e))%N
  /\ c_misses_opp c'
     = (c_misses_opp c + b2n (has_type "OPP_BIG_CHANCE_MISSED" e))%N
  /\ map snd (scorers_for c')
     = map snd (scorers_for c)
       ++ (if has_type "OUR_GOAL" e
           then [or_str (player e) (lit "Unknown")] else [])
  /\ map snd (scorers_against c')
     = map snd (scorers_against c)
       ++ (if has_type "OPP_GOAL" e
           then [or_str (player e) (lit "Unknown")] else []).
Proof.
  unfold count_step.
  destruct (_minute_val U _) as [minute|]; [|discriminate].
  intros H. injection H as <-.
  unfold has_type, card_of, is_type.
  change (lit "YC_" ++ lit "US") with (lit "YC_US").
  change (lit "RC_" ++ lit "US") with (lit "RC_US").
  change (lit "YC_" ++ lit "OPP") with (lit "YC_OPP").
  change (lit "RC_" ++ lit "OPP") with (lit "RC_OPP").
  destruct (str_eqb (etype e) (lit "OUR_GOAL")) eqn:E1.
  { apply str_eqb_eq in E1. try rewrite E1. cbn -[N.add].
    rewrite map_app, !N.add_0_r, app_nil_r. repeat split. }
  destruct (str_eqb (etype e) (lit "OPP_GOAL")) eqn:E2.
  { apply str_eqb_eq in E2. try rewrite E2. cbn -[N.add].
    rewrite map_app, !N.add_0_r, app_nil_r. repeat split. }
  destruct (str_eqb (etype e) (lit "YC_US")) eqn:E3.
  { apply str_eqb_eq in E3. try rewrite E3. cbn -[N.add].
    rewrite !N.add_0_r, !app_nil_r. repeat split. }
  destruct (str_eqb (etype e) (lit "RC_US")) eqn:E4.
  { apply str_eqb_eq in E4. try rewrite E4. cbn -[N.add].
    rewrite !N.add_0_r, !app_nil_r. repeat split. }
  destruct (str_eqb (etype e) (lit "YC_OPP")) eqn:E5.
  { apply str_eqb_eq in E5. try rewrite E5. cbn -[N.add].
    rewrite !N.add_0_r, !app_nil_r. repeat split. }
  destruct (str_eqb (etype e) (lit "RC_OPP")) eqn:E6.
  { apply str_eqb_eq in E6. try rewrite E6. cbn -[N.add].
    rewrite !N.add_0_r, !app_nil_r. repeat split. }
  destruct (str_eqb (etype e) (lit "OUR_BIG_CHANCE_MISSED")) eqn:E7.
  { apply str_eqb_eq in E7. try rewrite E7. cbn -[N.add].
    rewrite !N.add_0_r, !app_nil_r. repeat split. }
  destruct (str_eqb (etype e) (lit "OPP_BIG_CHANCE_MISSED")) eqn:E8.
  { apply str_eqb_eq in E8. try rewrite E8. cbn -[N.add].
    rewrite !N.add_0_r, !app_nil_r. repeat split. }
  cbn -[N.add]. rewrite !N.add_0_r, !app_nil_r. repeat split.
Qed.

Lemma scorer_names_cons ty e items :
  scorer_names ty (Event e :: items)
  = (if has_type ty e then [or_str (player e) (lit "Unknown")] else [])
    ++ scorer_names ty items.
Proof.
  unfold scorer_names, has_type. simpl.
  destruct (is_type e ty); reflexivity.
Qed.

Lemma count_loop_adds items : forall c c',
  count_loop U c items = Some c' ->
  c_goals_for c' = (c_goals_for c + count_events (has_type "OUR_GOAL") items)%N
  /\ c_goals_against c'
     = (c_goals_against c + count_events (has_type "OPP_GOAL") items)%N
  /\ c_cards_us c' = (c_cards_us c + count_events (card_of "US") items)%N
  /\ c_cards_opp c' = (c_cards_opp c + count_events (card_of "OPP") items)%N
  /\ c_misses_us c'
     = (c_misses_us c
        + count_events (has_type "OUR_BIG_CHANCE_MISSED") items)%N
  /\ c_misses_opp c'
     = (c_misses_opp c
        + count_events (has_type "OPP_BIG_CHANCE_MISSED") items)%N
  /\ map snd (scorers_for c')
     = map snd (scorers_for c) ++ scorer_names "OUR_GOAL" items
  /\ map snd (scorers_against c')
     = map snd (scorers_against c) ++ scorer_names "OPP_GOAL" items.
Proof.
  induction items as [|it items IH]; intros c c' H; simpl in H.
  - injection H as <-. unfold count_events, scorer_names. simpl.
    rewrite !N.add_0_r, !app_nil_r. repeat split.
  - destruct (count_step U c it) as [c1|] eqn:E1; [|discriminate].
    destruct it as [e|]; [|discriminate].
    apply count_step_adds in E1
      as (A1 & A2 & A3 & A4 & A5 & A6 & A7 & A8).
    apply IH in H as (B1 & B2 & B3 & B4 & B5 & B6 & B7 & B8).
    rewrite !count_events_cons, !scorer_names_cons.
    rewrite B1, B2, B3, B4, B5, B6, B7, B8, A1, A2, A3, A4, A5, A6, A7, A8.
    rewrite <- !app_assoc.
    repeat split; lia.
Qed.

Lemma insert_sorted_perm x l : Permutation (insert_sorted x l) (x :: l).
Proof.
  induction l as [|y l IH]; simpl; [reflexivity|].
  destruct (pair_ltb x y); [reflexivity|].
  rewrite IH. apply perm_swap.
Qed.

Lemma sorted_perm l : Permutation (sorted l) l.
Proof.
  unfold sorted. rewrite (Permutation_rev l) at 2.
  induction (rev l) as [|x r IH]; simpl; [reflexivity|].
  rewrite insert_sorted_perm. constructor. exact IH.
Qed.

(** ** The key moment *)

Lemma count_events_filter p items :
  count_events p items = N.of_nat (length (filter p (events_of items))).
Proof.
  unfold count_events. f_equal.
  induction items as [|[e|] items IH]; simpl; auto.
  destruct (p e); simpl; auto.
Qed.

Lemma events_where_filter p items l :
  events_where p items = Some l -> l = filter p (events_of items).
Proof.
  revert l. induction items as [|[e|] items IH]; intros l H; simpl in H.
  - injection H as <-. reflexivity.
  - destruct (events_where p items) as [l'|]; [|discriminate].
    injection H as <-. simpl. rewrite (IH l' eq_refl). reflexivity.
  - discriminate.
Qed.

Lemma events_of_In e items : In e (events_of items) -> In (Event e) items.
Proof.
  induction items as [|[e'|] items IH]; simpl; auto.
  intros [->|H]; auto.
Qed.

Lemma with_minutes_keys l : forall keyed,
  with_minutes U l = Some keyed -> map snd keyed = l.
Proof.
  induction l as [|e l IH]; intros keyed H; simpl in H.
  - injection H as <-. reflexivity.
  - destruct (_minute_val U (t e)); [|discriminate].
    destruct (with_minutes U l) as [r|]; [|discriminate].
    injection H as <-. simpl. rewrite (IH r eq_refl). reflexivity.
Qed.

Lemma max_from_In (A : Type) (key : A -> Z) l : forall best,
  max_from key best l = best \/ In (max_from key best l) l.
Proof.
  induction l as [|x l IH]; intros best; simpl; [left; reflexivity|].
  destruct (IH (if (key best <? key x)%Z then x else best)) as [H|H].
  - rewrite H. destruct (key best <? key x)%Z; auto.
  - right. right. exact H.
Qed.

Lemma max_by_In (A : Type) (key : A -> Z) l x :
  max_by key l = Some x -> In x l.
Proof.
  destruct l as [|y l]; simpl; [discriminate|].
  intros H. injection H as <-.
  destruct (max_from_In key l y) as [->|H]; auto.
Qed.

Lemma latest_spec p items r :
  latest U p items = Some r ->
  match r with
  | None => filter p (events_of items) = []
  | Some x => In (snd x) (filter p (events_of items))
  end.
Proof.
  unfold latest.
  destruct (events_where p items) as [l|] eqn:El; [|discriminate].
  destruct (with_minutes U l) as [keyed|] eqn:Ek; [|discriminate].
  intros H. injection H as <-.
  apply events_where_filter in El. apply with_minutes_keys in Ek.
  rewrite <- El, <- Ek.
  destruct keyed as [|k keyed]; [reflexivity|].
  set (x := max_from fst k keyed). simpl max_by. cbv iota.
  apply in_map. change (In x (k :: keyed)).
  apply (@max_by_In _ fst (k :: keyed)). reflexivity.
Qed.

Lemma filter_none_count p items :
  filter p (events_of items) = [] -> count_events p items = 0%N.
Proof. intros H. rewrite count_events_filter, H. reflexivity. Qed.

Lemma filter_some_count p items e :
  In e (filter p (events_of items)) -> (0 < count_events p items)%N.
Proof.
  intros H. rewrite count_events_filter.
  destruct (filter p (events_of items)); [destruct H|]. simpl. lia.
Qed.

Lemma count_goals_split items :
  count_events (fun e => is_type e "OUR_GOAL" || is_type e "OPP_GOAL") items
  = (count_events (has_type "OUR_GOAL") items
     + count_events (has_type "OPP_GOAL") items)%N.
Proof.
  induction items as [|it items IH].
  - reflexivity.
  - rewrite !count_events_cons, IH. destruct it as [e|]; [|lia].
    unfold has_type.
    destruct (is_type e "OUR_GOAL") eqn:E1.
    + rewrite (@type_excludes e "OUR_GOAL"%string "OPP_GOAL"%string E1 eq_refl).
      cbn [orb]. lia.
    + destruct (is_type e "OPP_GOAL"); cbn [orb]; lia.
Qed.

(** The key moment, when the counters are the counts of the goals: there
    is none exactly when nobody scored, and one that is there is the
    minute and the note of a goal, or of a miss of ours, of the
    timeline. *)
Lemma key_moment_spec items km :
  key_moment_of U (count_events (has_type "OUR_GOAL") items)
    (count_events (has_type "OPP_GOAL") items) items = Some km ->
  (km = None <->
   count_events (has_type "OUR_GOAL") items = 0%N
   /\ count_events (has_type "OPP_GOAL") items = 0%N)
  /\ (forall x, km = Some x ->
        exists e, In (Event e) items /\ x = (t e, note e)
                  /\ (has_type "OUR_GOAL" e || has_type "OPP_GOAL" e
                      || has_type "OUR_BIG_CHANCE_MISSED" e = true)).
Proof.
  unfold key_moment_of.
  set (gf := count_events (has_type "OUR_GOAL") items).
  set (ga := count_events (has_type "OPP_GOAL") items).
  destruct (N.ltb_spec ga gf) as [Hw|Hw].
  { destruct (latest U _ items) as [last|] eqn:El; [|discriminate].
    intros H. injection H as <-. apply latest_spec in El.
    destruct last as [[v e]|]; simpl.
    - split; [split; [discriminate | lia]|].
      intros x H. injection H as <-. apply filter_In in El as [Hin Hp].
      exists e. split; [apply events_of_In, Hin|]. split; [reflexivity|].
      unfold has_type. simpl in Hp. rewrite Hp. reflexivity.
    - apply filter_none_count in El. fold (has_type "OUR_GOAL") in El.
      fold gf in El. lia. }
  destruct (N.ltb_spec gf ga) as [Hl|Hl].
  { destruct (latest U (fun e => is_type e "OPP_GOAL") items)
      as [last_opp|] eqn:Eo; [|discriminate].
    destruct (latest U (fun e => is_type e "OUR_BIG_CHANCE_MISSED") items)
      as [last_miss|] eqn:Em; [|discriminate].
    intros H. injection H as <-.
    apply latest_spec in Eo. apply latest_spec in Em.
    destruct last_opp as [[vo eo]|].
    2:{ apply filter_none_count in Eo. fold (has_type "OPP_GOAL") in Eo.
        fold ga in Eo. lia. }
    simpl in Eo. apply filter_In in Eo as [Hino Hpo].
    assert (Ho : exists e, In (Event e) items /\ moment eo = (t e, note e)
                /\ (has_type "OUR_GOAL" e || has_type "OPP_GOAL" e
                    || has_type "OUR_BIG_CHANCE_MISSED" e = true)).
    { exists eo. split; [apply events_of_In, Hino|]. split; [reflexivity|].
      unfold has_type. rewrite Hpo. rewrite orb_true_r. reflexivity. }
    destruct last_miss as [[vm em]|].
    - simpl in Em. apply filter_In in Em as [Hinm Hpm].
      cbn [fst snd]. destruct (vo <? vm)%Z; simpl.
      + split; [split; [discriminate | lia]|].
        intros x H. injection H as <-.
        exists em. split; [apply events_of_In, Hinm|]. split; [reflexivity|].
        unfold has_type. rewrite Hpm. rewrite orb_true_r. reflexivity.
      + split; [split; [discriminate | lia]|].
        intros x H. injection H as <-. exact Ho.
    - simpl. split; [split; [discriminate | lia]|].
      intros x H. injection H as <-. exact Ho. }
  destruct (latest U _ items) as [last|] eqn:El; [|discriminate].
  intros H. injection H as <-. apply latest_spec in El.
  destruct last as [[v e]|]; simpl.
  - split.
    + split; [discriminate|]. intros [H1 H2].
      apply filter_some_count in El. rewrite count_goals_split in El.
      fold gf ga in El. lia.
    + intros x H. injection H as <-. apply filter_In in El as [Hin Hp].
      exists e. split; [apply events_of_In, Hin|]. split; [reflexivity|].
      unfold has_type. cbn [snd] in Hp. rewrite Hp. reflexivity.
  - apply filter_none_count in El. rewrite count_goals_split in El.
    fold gf ga in El. split; [|discriminate].
    split; [intros _; lia | reflexivity].
Qed.

(** ** When the statistics do not raise *)

Lemma count_loop_valued items : forall c,
  valued U items -> exists c', count_loop U c items = Some c'.
Proof.
  induction items as [|it items IH]; intros c H; simpl.
  - eexists. reflexivity.
  - destruct (H it (or_introl eq_refl)) as (e & v & -> & Ht & Hv).
    unfold count_step. destruct (t e) as [|x tm] eqn:Et; [contradiction|].
    simpl truthy. cbv iota. rewrite Hv.
    apply IH. intros it' Hin. apply H. right. exact Hin.
Qed.

Lemma events_where_valued p items :
  valued U items -> exists l, events_where p items = Some l.
Proof.
  induction items as [|it items IH]; intros H; simpl.
  - eexists. reflexivity.
  - destruct (H it (or_introl eq_refl)) as (e & v & -> & _ & _).
    destruct IH as [l ->]; [intros it' Hin; apply H; right; exact Hin|].
    eexists. reflexivity.
Qed.

Lemma with_minutes_valued l :
  (forall e, In e l -> exists v, _minute_val U (t e) = Some v) ->
  exists keyed, with_minutes U l = Some keyed.
Proof.
  induction l as [|e l IH]; intros H; simpl.
  - eexists. reflexivity.
  - destruct (H e (or_introl eq_refl)) as [v ->].
    destruct IH as [r ->]; [intros e' Hin; apply H; right; exact Hin|].
    eexists. reflexivity.
Qed.

Lemma latest_valued p items :
  valued U items -> exists r, latest U p items = Some r.
Proof.
  intros H. unfold latest.
  destruct (events_where_valued p H) as [l El]. rewrite El.
  apply events_where_filter in El.
  destruct (@with_minutes_valued l) as [keyed ->]; [|eexists; reflexivity].
  intros e He. rewrite El in He. apply filter_In in He as [He _].
  apply events_of_In in He. destruct (H _ He) as (e' & v & E & _ & Hv).
  injection E as <-. exists v. exact Hv.
Qed.

Lemma key_moment_valued gf ga items :
  valued U items -> exists km, key_moment_of U gf ga items = Some km.
Proof.
  intros H. unfold key_moment_of.
  destruct (ga <? gf)%N.
  { destruct (latest_valued (fun e => is_type e "OUR_GOAL") H) as [r ->].
    eexists. reflexivity. }
  destruct (gf <? ga)%N.
  { destruct (latest_valued (fun e => is_type e "OPP_GOAL") H) as [r ->].
    destruct (latest_valued (fun e => is_type e "OUR_BIG_CHANCE_MISSED") H)
      as [r' ->].
    eexists. reflexivity. }
  destruct (latest_valued
              (fun e => is_type e "OUR_GOAL" || is_type e "OPP_GOAL") H)
    as [r ->].
  eexists. reflexivity.
Qed.

Lemma compute_stats_valued m :
  valued U (timeline m) -> exists s, compute_stats U m = Some s.
Proof.
  intros H. unfold compute_stats.
  destruct (count_loop_valued counts_start H) as [c ->].
  destruct (key_moment_valued (c_goals_for c) (c_goals_against c) H)
    as [km ->].
  eexists. reflexivity.
Qed.

End Statistics.

Section StatisticsOfMemory.

Import Parser Memory Analytics Notions MoreNotions.

Variable U : unicode.

Lemma compute_stats_parts m s :
  compute_stats U m = Some s ->
  exists c km,
    count_loop U counts_start (timeline m) = Some c
    /\ key_moment_of U (c_goals_for c) (c_goals_against c) (timeline m)
       = Some km
    /\ goals_for s = c_goals_for c /\ goals_against s = c_goals_against c
    /\ cards_us s = c_cards_us c /\ cards_opp s = c_cards_opp c
    /\ misses_us s = c_misses_us c /\ misses_opp s = c_misses_opp c
    /\ our_scorers s = map snd (sorted (scorers_for c))
    /\ opp_scorers s = map snd (sorted (scorers_against c))
    /\ key_moment s = km.
Proof.
  unfold compute_stats.
  destruct (count_loop U counts_start (timeline m)) as [c|] eqn:Ec;
    [|discriminate].
  destruct (key_moment_of U _ _ (timeline m)) as [km|] eqn:Ek;
    [|discriminate].
  intros H. injection H as <-. exists c, km. cbn.
  split; [reflexivity|]. split; [exact Ek|]. repeat split.
Qed.

Lemma compute_stats_goals m s :
  compute_stats U m = Some s ->
  goals_for s = count_events (has_type "OUR_GOAL") (timeline m)
  /\ goals_against s = count_events (has_type "OPP_GOAL") (timeline m)
  /\ cards_us s = count_events (card_of "US") (timeline m).
Proof.
  intros H. apply compute_stats_parts in H
    as (c & km & Hc & _ & -> & -> & -> & _).
  apply count_loop_adds in Hc as (A1 & A2 & A3 & _).
  rewrite A1, A2, A3. simpl. repeat split.
Qed.

End StatisticsOfMemory.

(** X19.  What [compute_stats] counts, when it does not raise: the goals
    for and against are the events of type OUR_GOAL and OPP_GOAL of the
    timeline, the cards the yellow and red cards of each side, the misses
    the big chances missed; the two lists of scorers hold, in some order,
    the player of each goal, [Unknown] when the goal names none. *)
Theorem stats_count_the_timeline (U : unicode) (m : Memory.memory)
    (s : Analytics.stats) :
  Analytics.compute_stats U m = Some s ->
  Analytics.goals_for s
  = MoreNotions.count_events (MoreNotions.has_type "OUR_GOAL")
      (Memory.timeline m)
  /\ Analytics.goals_against s
     = MoreNotions.count_events (MoreNotions.has_type "OPP_GOAL")
         (Memory.timeline m)
  /\ Analytics.cards_us s
     = MoreNotions.count_events (MoreNotions.card_of "US") (Memory.timeline m)
  /\ Analytics.cards_opp s
     = MoreNotions.count_events (MoreNotions.card_of "OPP") (Memory.timeline m)
  /\ Analytics.misses_us s
     = MoreNotions.count_events (MoreNotions.has_type "OUR_BIG_CHANCE_MISSED")
         (Memory.timeline m)
  /\ Analytics.misses_opp s
     = MoreNotions.count_events (MoreNotions.has_type "OPP_BIG_CHANCE_MISSED")
         (Memory.timeline m)
  /\ Permutation (Analytics.our_scorers s)
       (MoreNotions.scorer_names "OUR_GOAL" (Memory.timeline m))
  /\ Permutation (Analytics.opp_scorers s)
       (MoreNotions.scorer_names "OPP_GOAL" (Memory.timeline m)).
Proof.
  intros H. apply compute_stats_parts in H
    as (c & km & Hc & _ & -> & -> & -> & -> & -> & -> & -> & -> & _).
  apply count_loop_adds in Hc as (A1 & A2 & A3 & A4 & A5 & A6 & A7 & A8).
  rewrite A1, A2, A3, A4, A5, A6. simpl in A7, A8.
  split; [reflexivity|]. split; [reflexivity|]. split; [reflexivity|].
  split; [reflexivity|]. split; [reflexivity|]. split; [reflexivity|].
  split.
  - rewrite <- A7. apply Permutation_map, sorted_perm.
  - rewrite <- A8. apply Permutation_map, sorted_perm.
Qed.

Lemma stats_count_the_timeline_witness :
  exists s,
    Analytics.compute_stats Sample.ascii_only MoreSample.memory = Some s
    /\ Analytics.goals_for s = 2%N
    /\ Analytics.goals_against s = 1%N
    /\ Analytics.cards_us s = 0%N
    /\ Analytics.cards_opp s = 0%N
    /\ Analytics.misses_us s = 0%N
    /\ Analytics.misses_opp s = 0%N
    /\ Permutation (Analytics.our_scorers s) [lit "Bamford"; lit "Ayling"]
    /\ Permutation (Analytics.opp_scorers s) [lit "Unknown"].
Proof.
  eexists. split; [vm_compute; reflexivity|].
  apply (@stats_count_the_timeline Sample.ascii_only MoreSample.memory).
  vm_compute. reflexivity.
Defined.

(** X20.  The key moment of the statistics: there is none exactly when
    the timeline holds no goal of either side; one that is there is the
    minute and the note of an event of the timeline, a goal or a big
    chance of ours missed. *)
Theorem key_moment_is_a_goal_or_a_miss (U : unicode) (m : Memory.memory)
    (s : Analytics.stats) :
  Analytics.compute_stats U m = Some s ->
  (Analytics.key_moment s = None <->
   Analytics.goals_for s = 0%N /\ Analytics.goals_against s = 0%N)
  /\ forall x, Analytics.key_moment s = Some x ->
       exists e, In (Memory.Event e) (Memory.timeline m)
                 /\ x = (Parser.t e, Parser.note e)
                 /\ (MoreNotions.has_type "OUR_GOAL" e
                     || MoreNotions.has_type "OPP_GOAL" e
                     || MoreNotions.has_type "OUR_BIG_CHANCE_MISSED" e = true).
Proof.
  intros H. apply compute_stats_parts in H
    as (c & km & Hc & Hk & -> & -> & _ & _ & _ & _ & _ & _ & ->).
  apply count_loop_adds in Hc as (A1 & A2 & _).
  simpl in A1, A2. rewrite A1, A2 in *.
  eapply key_moment_spec. exact Hk.
Qed.

Lemma key_moment_is_a_goal_or_a_miss_witness :
  exists s,
    Analytics.compute_stats Sample.ascii_only MoreSample.memory = Some s
    /\ (Analytics.key_moment s = None <->
        Analytics.goals_for s = 0%N /\ Analytics.goals_against s = 0%N)
    /\ forall x, Analytics.key_moment s = Some x ->
         exists e, In (Memory.Event e) (Memory.timeline MoreSample.memory)
                   /\ x = (Parser.t e, Parser.note e)
                   /\ (MoreNotions.has_type "OUR_GOAL" e
                       || MoreNotions.has_type "OPP_GOAL" e
                       || MoreNotions.has_type "OUR_BIG_CHANCE_MISSED" e
                       = true).
Proof.
  eexists. split; [vm_compute; reflexivity|].
  apply (@key_moment_is_a_goal_or_a_miss Sample.ascii_only MoreSample.memory).
  vm_compute. reflexivity.
Defined.

(** X21.  [select_mode] raises exactly when [compute_stats] does.  It
    answers RANT only after a defeat, more goals of theirs than of ours
    on the timeline, and always after a defeat by two goals or more. *)
Theorem rant_only_after_a_defeat (U : unicode) (m : Memory.memory) :
  (BiasMode.select_mode U m = None <-> Analytics.compute_stats U m = None)
  /\ forall md, BiasMode.select_mode U m = Some md ->
       let gf := MoreNotions.count_events (MoreNotions.has_type "OUR_GOAL")
                   (Memory.timeline m) in
       let ga := MoreNotions.count_events (MoreNotions.has_type "OPP_GOAL")
                   (Memory.timeline m) in
       (md = BiasMode.RANT -> (gf < ga)%N)
       /\ ((gf + 2 <= ga)%N -> md = BiasMode.RANT).
Proof.
  unfold BiasMode.select_mode.
  destruct (Analytics.compute_stats U m) as [s|] eqn:Es.
  - apply compute_stats_goals in Es as (-> & -> & _).
    split.
    { split; [|discriminate].
      repeat match goal with
      | |- context [if ?c then _ else _] => destruct c
      end; discriminate. }
    intros md. cbv zeta.
    set (gf := MoreNotions.count_events (MoreNotions.has_type "OUR_GOAL")
                 (Memory.timeline m)).
    set (ga := MoreNotions.count_events (MoreNotions.has_type "OPP_GOAL")
                 (Memory.timeline m)).
    destruct (Z.leb_spec (Z.of_N ga) (Z.of_N gf)) as [Hle|Hlt].
    { intros H. injection H as <-. split; [discriminate | lia]. }
    destruct (Z.leb_spec 2 (Z.of_N ga - Z.of_N gf)) as [H2|H2].
    { intros H. injection H as <-. split; [lia | reflexivity]. }
    destruct (_ && _); intros H; injection H as <-.
    + split; [lia | reflexivity].
    + split; [discriminate | lia].
  - split; [split; reflexivity|]. intros md H. discriminate.
Qed.

Lemma rant_only_after_a_defeat_witness :
  (BiasMode.RANT = BiasMode.RANT ->
   (MoreNotions.count_events (MoreNotions.has_type "OUR_GOAL")
      (Memory.timeline MoreSample.heavy_defeat)
    < MoreNotions.count_events (MoreNotions.has_type "OPP_GOAL")
        (Memory.timeline MoreSample.heavy_defeat))%N)
  /\ ((MoreNotions.count_events (MoreNotions.has_type "OUR_GOAL")
         (Memory.timeline MoreSample.heavy_defeat) + 2
       <= MoreNotions.count_events (MoreNotions.has_type "OPP_GOAL")
            (Memory.timeline MoreSample.heavy_defeat))%N ->
      BiasMode.RANT = BiasMode.RANT).
Proof.
  apply (proj2 (rant_only_after_a_defeat Sample.ascii_only
                  MoreSample.heavy_defeat) BiasMode.RANT).
  vm_compute. reflexivity.
Defined.

(* ================================================================== *)
(** * From the raw text to the memory *)
(* ================================================================== *)

Section Pipeline.

Import Parser Memory Notions MoreNotions.

Variable U : unicode.

Lemma parse_lineups_distinct lines t1 r1 t2 r2 :
  Ingest.parse_lineups U lines = inr (t1, r1, t2, r2) -> t1 <> t2.
Proof.
  unfold Ingest.parse_lineups.
  pose proof (teams_of_NoDup U lines) as Hnd.
  destruct (Ingest.teams_of U lines) as [|[k1 v1] [|[k2 v2] rest]];
    try discriminate.
  intros H. injection H as <- _ <- _.
  simpl in Hnd. inversion Hnd as [|? ? Hnot _]; subst.
  intros ->. apply Hnot. left. reflexivity.
Qed.

Lemma lineups_distinct lups comm t1 r1 t2 r2 :
  Run.lineups U lups comm = inr (t1, r1, t2, r2) -> t1 <> t2.
Proof.
  unfold Run.lineups.
  destruct (Ingest.parse_lineups U lups) as [e|r] eqn:E1.
  - destruct (Splitter.extract_lineups_from_commentary U comm) as [|c cand];
      [discriminate|].
    apply parse_lineups_distinct.
  - intros H. injection H as ->. eapply parse_lineups_distinct, E1.
Qed.

Lemma shape_nonempty m : minute_shape U m -> m <> [].
Proof.
  intros (b & Hb & _ & [->|(e & _ & _ & ->)]); unfold digits in Hb;
    destruct b; try discriminate.
Qed.

Lemma parsed_valued set_order scorer text team1 roster1 team2 roster2 our :
  (forall c, isspace c = true -> isdecimal U c = false) ->
  valued U (map Event (parse_events_unbiased U set_order scorer text
                         team1 roster1 team2 roster2 our)).
Proof.
  intros Hsp it Hin. apply in_map_iff in Hin as [e [<- He]].
  unfold parse_events_unbiased in He. apply run_lines_shape in He.
  destruct (minute_val_shape Hsp He) as [v [Hv _]].
  exists e, v. split; [reflexivity|]. split; [|exact Hv].
  apply shape_nonempty, He.
Qed.

End Pipeline.

(** X22.  The memory [main] writes.  Its two teams differ, and the
    rosters are keyed by both.  The side the persona takes is the option
    [--our] when it is given and not empty, team 1 otherwise.  The
    context is the context of [split_sections] on the raw text.  Every
    item of the timeline is an event whose minute reads [N] or [N+M] and
    whose type is one of the thirty names. *)
Theorem main_memory_is_well_formed (U : unicode)
    (set_order : list str -> list str) (scorer : str -> str -> Parser.score)
    (raw : str) (our : option str) (match_id : str) (m : Memory.memory) :
  Run.main U set_order scorer raw our match_id = inr m ->
  (exists t1 t2,
      Memory.teams m = [t1; t2] /\ t1 <> t2
      /\ map fst (Memory.rosters m) = [t1; t2]
      /\ Memory.team m = Analytics.or_str our t1)
  /\ Memory.context m = fst (fst (Splitter.split_sections U raw))
  /\ forall it, In it (Memory.timeline m) ->
       exists e, it = Memory.Event e
                 /\ MoreNotions.minute_shape U (Parser.t e)
                 /\ mem (Parser.etype e) MoreNotions.event_types = true.
Proof.
  unfold Run.main.
  destruct (Splitter.split_sections U raw) as [[ctx lups] comm].
  destruct (Run.lineups U lups comm) as [e|[[[t1 r1] t2] r2]] eqn:El;
    [discriminate|].
  intros H. injection H as <-.
  apply lineups_distinct in El.
  split; [|split].
  - exists t1, t2. cbn.
    split; [reflexivity|]. split; [exact El|]. split; [|reflexivity].
    destruct (str_eqb t1 t2) eqn:E; [|reflexivity].
    apply str_eqb_eq in E. contradiction.
  - reflexivity.
  - cbn. intros it Hin. apply in_map_iff in Hin as [e [<- He]].
    exists e. split; [reflexivity|].
    unfold Parser.parse_events_unbiased in He. split.
    + eapply run_lines_shape, He.
    + eapply run_lines_types, He.
Qed.

Lemma main_memory_is_well_formed_witness :
  exists m,
    Run.main Sample.ascii_only Sample.as_built Sample.no_similarity
      MoreSample.report None (lit "trial") = inr m
    /\ (exists t1 t2,
          Memory.teams m = [t1; t2] /\ t1 <> t2
          /\ map fst (Memory.rosters m) = [t1; t2]
          /\ Memory.team m = Analytics.or_str None t1)
    /\ Memory.context m
       = fst (fst (Splitter.split_sections Sample.ascii_only
                     MoreSample.report))
    /\ forall it, In it (Memory.timeline m) ->
         exists e, it = Memory.Event e
                   /\ MoreNotions.minute_shape Sample.ascii_only (Parser.t e)
                   /\ mem (Parser.etype e) MoreNotions.event_types = true.
Proof.
  eexists. split; [vm_compute; reflexivity|].
  apply (@main_memory_is_well_formed Sample.ascii_only Sample.as_built
           Sample.no_similarity MoreSample.report None (lit "trial")).
  vm_compute. reflexivity.
Defined.

(** X23.  On the memory [main] writes, neither [compute_stats] nor
    [select_mode] raises: every minute of the timeline has a value.  The
    Unicode data are taken to name no blank a decimal digit. *)
Theorem stats_of_main_never_raise (U : unicode)
    (set_order : list str -> list str) (scorer : str -> str -> Parser.score)
    (raw : str) (our : option str) (match_id : str) (m : Memory.memory) :
  (forall c, isspace c = true -> isdecimal U c = false) ->
  Run.main U set_order scorer raw our match_id = inr m ->
  exists s md,
    Analytics.compute_stats U m = Some s
    /\ BiasMode.select_mode U m = Some md.
Proof.
  intros Hsp. unfold Run.main.
  destruct (Splitter.split_sections U raw) as [[ctx lups] comm].
  destruct (Run.lineups U lups comm) as [e|[[[t1 r1] t2] r2]];
    [discriminate|].
  intros H. injection H as <-.
  match goal with
  | |- exists s md, Analytics.compute_stats U ?mm = _ /\ _ =>
      destruct (@compute_stats_valued U mm) as [s Hs]
  end.
  { cbn. apply parsed_valued, Hsp. }
  exists s. unfold BiasMode.select_mode. rewrite Hs.
  repeat match goal with
  | |- context [if ?c then _ else _] => destruct c
  end; eexists; split; reflexivity.
Qed.

Lemma stats_of_main_never_raise_witness :
  exists m,
    Run.main Sample.ascii_only Sample.as_built Sample.no_similarity
      MoreSample.report None (lit "trial") = inr m
    /\ exists s md,
         Analytics.compute_stats Sample.ascii_only m = Some s
         /\ BiasMode.select_mode Sample.ascii_only m = Some md.
Proof.
  eexists. split; [vm_compute; reflexivity|].
  apply (@stats_of_main_never_raise Sample.ascii_only Sample.as_built
           Sample.no_similarity MoreSample.report None (lit "trial")).
  - exact ascii_only_blanks.
  - vm_compute. reflexivity.
Defined.

(* ================================================================== *)
(** * The shouted label *)
(* ================================================================== *)

Section Labels.

Import Parser Notions MoreNotions.

Variable U : unicode.

Lemma lang_spaces fl t : lang U fl spaces t -> forallb isspace t = true.
Proof.
  unfold spaces. intros H. remember (Star true space) as r eqn:Er.
  induction H; try discriminate.
  - reflexivity.
  - injection Er as -> ->. rewrite forallb_app.
    rewrite (IHlang2 eq_refl), andb_true_r.
    inversion H as [ | | | neg items c Hc | | | | | | | | | | ]; subst.
    unfold cls_match in Hc. simpl in Hc. rewrite orb_false_r in Hc.
    simpl. rewrite Hc. reflexivity.
Qed.

Lemma upper_solid u : ascii_upper u = true -> isspace u = false.
Proof.
  unfold ascii_upper, isspace. intros H.
  apply andb_true_iff in H as [H1 H2]. apply N.leb_le in H1, H2.
  repeat match goal with
  | |- context [(?a <=? ?b)%N] => destruct (N.leb_spec a b); try lia
  | |- context [(?a =? ?b)%N] => destruct (N.eqb_spec a b); try lia
  end; reflexivity.
Qed.

Lemma rstrip_app_spaces a c sp :
  isspace c = false -> forallb isspace sp = true ->
  rstrip (a ++ c :: sp) = a ++ [c].
Proof.
  intros Hc Hsp. unfold rstrip.
  rewrite rev_app_distr. simpl rev. rewrite <- app_assoc. simpl.
  assert (Hr : forallb isspace (rev sp) = true).
  { rewrite forallb_forall in *. intros x Hx. apply Hsp, in_rev, Hx. }
  destruct (@lstrip_app_solid (rev sp) c (rev a) Hc) as [E|[_ E]]; rewrite E.
  - rewrite (lstrip_all_space _ Hr). simpl.
    rewrite rev_involutive. reflexivity.
  - simpl. rewrite rev_involutive. reflexivity.
Qed.

Lemma lang_label_piece p :
  lang U no_flags label_piece p ->
  exists u body sp,
    p = u :: body ++ 33%N :: sp
    /\ ascii_upper u = true /\ forallb isspace sp = true.
Proof.
  unfold label_piece. intros H.
  inversion H as [ | | | | | | | | | i r a Ha | | | | ]; subst. clear H.
  simpl seqs in Ha.
  inversion Ha as [ | | | | r1 r2 a1 b1 Hu H1 | | | | | | | | | ]; subst.
  inversion H1 as [ | | | | r1 r2 a2 b2 Hb H2 | | | | | | | | | ]; subst.
  inversion H2 as [ | | | | r1 r2 a3 b3 Hx Hs | | | | | | | | | ]; subst.
  inversion Hu as [ | | | neg items u Hcu | | | | | | | | | | ]; subst.
  change (word "!") with (Chr 33%N) in Hx.
  inversion Hx as [ | l c Hc | | | | | | | | | | | | ]; subst.
  unfold chr_match in Hc. cbn [ignorecase no_flags] in Hc.
  apply N.eqb_eq in Hc. subst c.
  apply lang_spaces in Hs.
  exists u, a2, b3. split; [|split; [|exact Hs]].
  - reflexivity.
  - unfold cls_match in Hcu. simpl in Hcu.
    rewrite !orb_false_r in Hcu. exact Hcu.
Qed.

Lemma lang_label_pieces g t :
  lang U no_flags (Star g label_piece) t ->
  t = [] \/ exists body sp,
              t = body ++ 33%N :: sp /\ forallb isspace sp = true.
Proof.
  intros H. remember (Star g label_piece) as r eqn:Er.
  induction H; try discriminate.
  - left. reflexivity.
  - injection Er as -> ->. right.
    destruct (IHlang2 eq_refl) as [->|(body & sp & -> & Hsp)].
    + apply lang_label_piece in H as (u & body & sp & -> & _ & Hsp).
      exists (u :: body), sp. rewrite app_nil_r. split; [reflexivity|exact Hsp].
    + exists (a ++ body), sp. rewrite <- app_assoc. split; [reflexivity|exact Hsp].
Qed.

Lemma lang_label_prefix t :
  lang U no_flags LABEL_PREFIX t ->
  exists u body sp,
    t = u :: body ++ 33%N :: sp
    /\ ascii_upper u = true /\ forallb isspace sp = true.
Proof.
  unfold LABEL_PREFIX, plus. fold label_piece. intros H.
  inversion H as [ | | | | r1 r2 a b Hbol Hp | | | | | | | | | ]; subst.
  inversion Hbol; subst. simpl.
  inversion Hp as [ | | | | r1 r2 p rest Hp1 Hrest | | | | | | | | | ]; subst.
  apply lang_label_piece in Hp1 as (u & body & sp & -> & Hu & Hsp).
  apply lang_label_pieces in Hrest as [->|(body' & sp' & -> & Hsp')].
  - exists u, body, sp. rewrite app_nil_r. auto.
  - exists u, (body ++ 33%N :: sp ++ body'), sp'.
    split; [|auto]. simpl. rewrite <- !app_assoc. simpl.
    rewrite <- !app_assoc. reflexivity.
Qed.

End Labels.

(** X24.  The label of a line.  Without one, the line is classified as
    it stands.  With one, the line is the label, blanks, and the text
    that is classified; the label opens with a capital letter and closes
    with an exclamation mark. *)
Theorem label_splits_the_line (U : unicode) (line : str) :
  match Parser.split_label U line with
  | (None, line_wo_label) => line_wo_label = line
  | (Some label, line_wo_label) =>
      exists sp,
        line = label ++ sp ++ line_wo_label
        /\ forallb isspace sp = true
        /\ exists u body,
             label = u :: body ++ [33%N] /\ ascii_upper u = true
  end.
Proof.
  unfold Parser.split_label, rmatch_start.
  destruct (match_at U no_flags Parser.LABEL_PREFIX false None line)
    as [lp|] eqn:E; [|reflexivity].
  pose proof (match_at_reads _ _ _ _ _ _ E) as (Es & _).
  apply match_at_lang in E as [L _].
  apply lang_label_prefix in L as (u & body & sp & Et & Hu & Hsp).
  assert (Hstrip : strip (m_text lp) = u :: body ++ [33%N]).
  { rewrite Et. unfold strip.
    rewrite (@lstrip_solid u _ (@upper_solid u Hu)).
    change (u :: body ++ 33%N :: sp) with ((u :: body) ++ 33%N :: sp).
    apply rstrip_app_spaces; [reflexivity | exact Hsp]. }
  exists sp. rewrite Hstrip. split; [|split; [exact Hsp|]].
  - rewrite Es, Et. simpl. rewrite <- !app_assoc. reflexivity.
  - exists u, body. split; [reflexivity | exact Hu].
Qed.

(* ================================================================== *)
(** * From the normaliser to the classifier: the minute of a line *)
(* ================================================================== *)

Section TagNumbers.

Import Notions MoreNotions.

Variable U : unicode.

Lemma renders_all :
  forallb (fun d1 => renders_ok U [d1]
     && forallb (fun d2 => renders_ok U [d1; d2]
          && forallb (fun d3 => renders_ok U [d1; d2; d3]) digit_chars)
        digit_chars)
    digit_chars = true.
Proof. vm_compute. reflexivity. Qed.

(** The number of a minute prints as one to three ASCII digits, which
    denote it again. *)
Lemma tag_number_ok n :
  all_digits n = true -> n <> [] -> length n <= 3 ->
  let k := str_of_N (int_of U n) in
  all_digits k = true /\ k <> [] /\ length k <= 3
  /\ str_of_N (int_of U k) = k.
Proof.
  intros Hd Hne Hlen.
  assert (Hok : renders_ok U n = true).
  { pose proof renders_all as Hall. rewrite forallb_forall in Hall.
    destruct n as [|d1 [|d2 [|d3 [|d4 n]]]]; simpl in Hlen;
      try contradiction; try lia; simpl in Hd;
      repeat match goal with
      | H : _ && _ = true |- _ => apply andb_true_iff in H as [? ?]
      end;
      repeat match goal with
      | H : ascii_digit ?d = true |- _ => apply (@ascii_digit_cases d) in H
      end.
    - match goal with Hi : In d1 _ |- _ => specialize (Hall d1 Hi) end.
      apply andb_true_iff in Hall as [Hall _]. exact Hall.
    - match goal with Hi : In d1 _ |- _ => specialize (Hall d1 Hi) end.
      apply andb_true_iff in Hall as [_ Hall].
      rewrite forallb_forall in Hall.
      match goal with Hi : In d2 _ |- _ => specialize (Hall d2 Hi) end.
      apply andb_true_iff in Hall as [Hall _]. exact Hall.
    - match goal with Hi : In d1 _ |- _ => specialize (Hall d1 Hi) end.
      apply andb_true_iff in Hall as [_ Hall].
      rewrite forallb_forall in Hall.
      match goal with Hi : In d2 _ |- _ => specialize (Hall d2 Hi) end.
      apply andb_true_iff in Hall as [_ Hall].
      rewrite forallb_forall in Hall.
      match goal with Hi : In d3 _ |- _ => exact (Hall d3 Hi) end. }
  unfold renders_ok in Hok. cbv zeta in *.
  apply andb_true_iff in Hok as [Hok H4].
  apply andb_true_iff in Hok as [Hok H3].
  apply andb_true_iff in Hok as [H1 H2].
  apply Nat.leb_le in H2, H3. apply str_eqb_eq in H4.
  split; [exact H1|]. split; [|split; [exact H3 | exact H4]].
  intros E. rewrite E in H2. simpl in H2. lia.
Qed.

End TagNumbers.

Section OneMatch.

Import Notions MoreNotions.

Variable U : unicode.
Variable fl : flags.
Variable r : regex.

(** No match at the cursor: the search moves on. *)
Lemma search_from_skip adv pv c s :
  match_at U fl r adv pv (c :: s) = None ->
  search_from U fl r adv pv (c :: s)
  = match search_from U fl r false (Some c) s with
    | Some (skipped, m) => Some (c :: skipped, m)
    | None => None
    end.
Proof. intros H. cbn [search_from]. rewrite H. reflexivity. Qed.

Lemma search_from_here adv pv s m :
  match_at U fl r adv pv s = Some m ->
  search_from U fl r adv pv s = Some ([], m).
Proof. intros H. destruct s; cbn [search_from]; rewrite H; reflexivity. Qed.

(** One match in the text and none after it: [sub] replaces that one. *)
Lemma sub_one_match (repl : rmatch -> str) s skipped m :
  search_from U fl r false None s = Some (skipped, m) ->
  m_text m <> [] ->
  search_from U fl r false (m_prev m) (m_rest m) = None ->
  sub U fl r repl s = skipped ++ repl m ++ m_rest m.
Proof.
  intros Hsf Ht Hs. unfold sub, finditer.
  rewrite matches_from_step, Hsf.
  destruct (m_text m) as [|c0 t0] eqn:Et; [contradiction|].
  rewrite matches_from_step, Hs.
  cbn [map concat fst snd app]. rewrite app_nil_r, <- app_assoc. reflexivity.
Qed.

(** A pattern that reads a character the text does not hold is found
    nowhere in it. *)
Lemma no_char_no_search c s :
  (forall x, chr_match fl c x = true -> x = c) ->
  reads_char c r = true -> ~ In c s ->
  forall adv pv, search_from U fl r adv pv s = None.
Proof.
  intros Hc Hr. induction s as [|x s IH]; intros Hs adv pv.
  - cbn [search_from].
    rewrite (@no_char_no_match U fl c r [] adv pv Hc Hr Hs). reflexivity.
  - cbn [search_from].
    rewrite (@no_char_no_match U fl c r (x :: s) adv pv Hc Hr Hs).
    rewrite IH; [reflexivity|]. intros H. apply Hs. right. exact H.
Qed.

End OneMatch.

Section MinuteRoundTrip.

Import Preproc Parser Notions MoreNotions.

Variable U : unicode.

Lemma run_wb (A : Type) fl pv s cp (k : cont A) :
  run U fl Wb pv s cp k
  = if xorb (at_word U pv) (at_word U (hd_error s)) then k pv s cp else None.
Proof. reflexivity. Qed.

Lemma run_chr_cons (A : Type) fl l pv c s cp (k : cont A) :
  run U fl (Chr l) pv (c :: s) cp k
  = if chr_match fl l c then k (Some c) s cp else None.
Proof. reflexivity. Qed.

Lemma run_bol_none (A : Type) fl s cp (k : cont A) :
  run U fl Bol None s cp k = k None s cp.
Proof. reflexivity. Qed.

Lemma run_eps (A : Type) fl pv s cp (k : cont A) :
  run U fl Eps pv s cp k = k pv s cp.
Proof. reflexivity. Qed.

(** The word [[MIN=], read from a text that opens with it. *)
Lemma run_word_tag (A : Type) pv s cp (k : cont A) :
  run U no_flags (word "[MIN=") pv (lit "[MIN=" ++ s) cp k
  = k (Some 61%N) s cp.
Proof. reflexivity. Qed.

Lemma run_word_tag2 (A : Type) pv s cp (k : cont A) :
  run U no_flags (word "[MIN=") pv (lit "[MIN=[MIN=" ++ s) cp k
  = k (Some 61%N) (lit "[MIN=" ++ s) cp.
Proof. reflexivity. Qed.

Lemma run_rep1_digits (A : Type) fl (k : cont A) m n tail pv cp a :
  starts_nondigit U tail = true ->
  n <> [] -> length n <= m -> all_digits n = true ->
  k (prev_after pv n) tail cp = Some a ->
  run U fl (rep1 m digit) pv (n ++ tail) cp k = Some a.
Proof.
  intros Htail Hne Hn Hd Hk.
  destruct n as [|d n]; [contradiction|].
  unfold rep1. rewrite run_seq. unfold digit at 1.
  cbn [app]. simpl in Hd. apply andb_true_iff in Hd as [Hd Hds].
  rewrite run_cls_cons, (@digit_match U fl d Hd).
  apply run_upto_digits; try assumption.
  simpl in Hn. lia.
Qed.

Lemma digit_is_word d : ascii_digit d = true -> isword U d = true.
Proof.
  intros H. apply ascii_digit_cases in H.
  repeat (destruct H as [<-|H]; [reflexivity|]). destruct H.
Qed.

Lemma after_digits_word pv k :
  all_digits k = true -> k <> [] -> at_word U (prev_after pv k) = true.
Proof.
  revert pv. induction k as [|d k IH]; intros pv Hd Hne; [contradiction|].
  simpl in Hd. apply andb_true_iff in Hd as [Hd Hds].
  destruct k as [|d' k].
  - simpl. apply digit_is_word, Hd.
  - change (prev_after pv (d :: d' :: k))
      with (prev_after (Some d) (d' :: k)).
    apply IH; [exact Hds | discriminate].
Qed.

Lemma extra_parts m :
  extra_ok (Some m) = true ->
  all_digits m = true /\ m <> [] /\ length m <= 2.
Proof.
  unfold extra_ok. intros H.
  apply andb_true_iff in H as [H H2]. apply andb_true_iff in H as [Hd H1].
  apply Nat.leb_le in H1, H2. split; [exact Hd|]. split; [|exact H2].
  intros ->. simpl in H1. lia.
Qed.

(** The inline pattern needs a digit where it starts. *)
Lemma inline_needs_digit adv pv c s :
  isdecimal U c = false ->
  match_at U no_flags MIN_INLINE adv pv (c :: s) = None.
Proof.
  intros Hc. unfold match_at, MIN_INLINE. cbn [seqs].
  rewrite run_seq, run_wb.
  destruct (xorb _ _); [|reflexivity].
  rewrite run_seq, run_grp. unfold rep1. rewrite run_seq. unfold digit at 1.
  rewrite run_cls_cons, digit_match_decimal, Hc. reflexivity.
Qed.

Lemma inline_skips pre : forall pv s,
  forallb (fun c => negb (isdecimal U c)) pre = true ->
  search_from U no_flags MIN_INLINE false pv (pre ++ s)
  = match search_from U no_flags MIN_INLINE false (prev_after pv pre) s with
    | Some (skipped, m) => Some (pre ++ skipped, m)
    | None => None
    end.
Proof.
  induction pre as [|c pre IH]; intros pv s H.
  - simpl. destruct (search_from _ _ _ _ _ s) as [[sk m]|]; reflexivity.
  - simpl in H. apply andb_true_iff in H as [Hc H].
    apply negb_true_iff in Hc.
    cbn [app]. rewrite search_from_skip by (apply inline_needs_digit, Hc).
    rewrite (IH (Some c) s H).
    change (prev_after pv (c :: pre)) with (prev_after (Some c) pre).
    destruct (search_from _ _ _ _ _ s) as [[sk m]|]; reflexivity.
Qed.

(** After the minute of a tag, before its closing bracket: the end of
    the inline pattern. *)
Lemma inline_closes n tail pv cp :
  all_digits n = true -> n <> [] ->
  forall s0,
  run U no_flags (Seq (opt (Cls false apostrophes)) Wb)
    (prev_after pv n) (93%N :: tail) cp (accept false s0)
  = accept false s0 (prev_after pv n) (93%N :: tail) cp.
Proof.
  intros Hd Hne s0. rewrite run_seq. unfold opt. rewrite run_alt, run_cls_cons.
  change (cls_match U no_flags false apostrophes 93%N) with false. cbv iota.
  rewrite run_eps, run_wb.
  rewrite (@after_digits_word _ _ Hd Hne).
  change (at_word U (hd_error (93%N :: tail))) with false. reflexivity.
Qed.

(** The inline pattern on the minute of a tag. *)
Lemma inline_match_tag k extra tail :
  all_digits k = true -> k <> [] -> length k <= 3 ->
  extra_ok extra = true ->
  match_at U no_flags MIN_INLINE false (Some 61%N)
    (k ++ plus_text extra ++ 93%N :: tail)
  = Some {| m_text := k ++ plus_text extra;
            m_caps := minute_caps k extra;
            m_prev := prev_after (Some 61%N) (k ++ plus_text extra);
            m_rest := 93%N :: tail |}.
Proof.
  intros Hd Hne Hlen Hex. unfold match_at, MIN_INLINE. cbn [seqs].
  rewrite run_seq, run_wb.
  assert (Hh : at_word U (hd_error (k ++ plus_text extra ++ 93%N :: tail))
               = true).
  { destruct k as [|d k]; [contradiction|]. simpl in Hd.
    apply andb_true_iff in Hd as [Hd _]. simpl. apply digit_is_word, Hd. }
  rewrite Hh. change (at_word U (Some 61%N)) with false. cbn [xorb].
  rewrite run_seq.
  destruct extra as [m|]; cbn [plus_text minute_caps app].
  - destruct (@extra_parts _ Hex) as (Hmd & Hmne & Hm2).
    change ((lit "+" ++ m) ++ 93%N :: tail) with (43%N :: m ++ 93%N :: tail).
    apply run_group_digits; try assumption; try reflexivity.
    rewrite run_seq. unfold opt at 1. apply run_alt_first.
    rewrite run_seq. change (word "+") with (Chr 43%N).
    rewrite run_chr_cons. change (chr_match no_flags 43%N 43%N) with true.
    cbv iota.
    apply run_group_digits; try assumption; try reflexivity.
    rewrite (@inline_closes _ tail (Some 43%N) _ Hmd Hmne).
    unfold accept. cbn [andb].
    replace (k ++ 43%N :: m ++ 93%N :: tail)
      with ((k ++ lit "+" ++ m) ++ 93%N :: tail)
      by (rewrite <- !app_assoc; reflexivity).
    rewrite firstn_prefix. unfold cap_set.
    rewrite <- prev_after_app. reflexivity.
  - apply run_group_digits; try assumption; try reflexivity.
    rewrite run_seq. unfold opt at 1. rewrite run_alt, run_seq.
    change (word "+") with (Chr 43%N). rewrite run_chr_cons.
    change (chr_match no_flags 43%N 93%N) with false. cbv iota.
    rewrite run_eps.
    rewrite (@inline_closes _ tail (Some 61%N) _ Hd Hne).
    unfold accept. cbn [andb].
    rewrite firstn_prefix, app_nil_r. reflexivity.
Qed.

(** The line pass on a line that opens with a minute and an
    apostrophe. *)
Lemma line_pass_minute n extra q ws rest :
  all_digits n = true -> n <> [] -> length n <= 3 ->
  extra_ok extra = true ->
  apostrophe q = true ->
  forallb blank_in_line ws = true ->
  one_line rest = true -> starts_solid rest = true ->
  line_pass U (n ++ plus_text extra ++ q :: ws ++ rest)
  = lit "[MIN=" ++ str_of_N (int_of U n) ++ plus_text extra
    ++ lit "] " ++ rest.
Proof.
  intros Hn Hne Hn3 Hex Hq Hws Hl Hrest.
  pose proof (@match_minute_line U n extra q ws rest Hn Hne Hn3 Hex Hq
                Hws Hrest) as Hm.
  cbv zeta in Hm.
  destruct (@apostrophe_closes U q Hq) as (_ & _ & _ & Hq10).
  destruct (@prev_after_in_line ws q Hws Hq10) as [p [Hp Hp10]].
  unfold line_pass.
  rewrite (@sub_first_only U flag_M MIN_LINE (repl_line U) _ _ Hm).
  - cbn [m_rest]. unfold repl_line, _tag, group_or_empty, group.
    cbn [m_caps].
    destruct extra as [m|];
      cbn [minute_caps cap_get Nat.eqb plus_text truthy_opt].
    + destruct (@extra_parts _ Hex) as (_ & Hmne & _).
      destruct m as [|d m]; [contradiction|]. cbn [truthy].
      rewrite <- !app_assoc. reflexivity.
    + rewrite <- !app_assoc. reflexivity.
  - cbn [m_text].
    replace (n ++ plus_text extra ++ q :: ws ++ rest)
      with ((n ++ plus_text extra ++ q :: ws) ++ rest)
      by (rewrite <- !app_assoc; reflexivity).
    rewrite firstn_prefix. destruct n; [contradiction | discriminate].
  - cbn [m_prev m_rest]. unfold MIN_LINE. cbn [seqs].
    eapply search_from_after; [exact Hp | exact Hp10 | exact Hl].
Qed.

(** The inline pass on the tagged line: the minute inside the tag is
    tagged again. *)
Lemma inline_pass_tagged k extra rest :
  all_digits k = true -> k <> [] -> length k <= 3 ->
  str_of_N (int_of U k) = k ->
  extra_ok extra = true ->
  digitless U rest ->
  inline_pass U (lit "[MIN=" ++ k ++ plus_text extra ++ lit "] " ++ rest)
  = lit "[MIN=[MIN=" ++ k ++ plus_text extra ++ lit "]] " ++ rest.
Proof.
  intros Hd Hne Hlen Hk Hex Hrest. unfold inline_pass.
  set (m := {| m_text := k ++ plus_text extra;
               m_caps := minute_caps k extra;
               m_prev := prev_after (Some 61%N) (k ++ plus_text extra);
               m_rest := 93%N :: 32%N :: rest |}).
  rewrite (@sub_one_match U no_flags MIN_INLINE (repl_inline U)
             (lit "[MIN=" ++ k ++ plus_text extra ++ lit "] " ++ rest)
             (lit "[MIN=") m).
  - unfold repl_inline, _tag, group_or_empty, group. cbn [m_caps m m_rest].
    destruct extra as [x|];
      cbn [minute_caps cap_get Nat.eqb plus_text truthy_opt].
    + destruct (@extra_parts _ Hex) as (_ & Hxne & _).
      destruct x as [|d x]; [contradiction|]. cbn [truthy].
      rewrite Hk. cbn [app]. rewrite <- !app_assoc. reflexivity.
    + rewrite Hk. cbn [app]. rewrite <- !app_assoc. reflexivity.
  - rewrite inline_skips by reflexivity.
    change (prev_after None (lit "[MIN=")) with (Some 61%N).
    change (lit "] " ++ rest) with (93%N :: 32%N :: rest).
    rewrite (@search_from_here U no_flags MIN_INLINE _ _ _ _
               (@inline_match_tag _ _ (32%N :: rest) Hd Hne Hlen Hex)).
    rewrite app_nil_r. reflexivity.
  - cbn [m_text m]. destruct k; [contradiction | discriminate].
  - apply no_digit_no_search; [reflexivity|].
    cbn [m_rest m]. unfold digitless in Hrest.
    cbn [forallb]. rewrite Hrest. reflexivity.
Qed.

(** The leading tag of the normalised line, read by the classifier. *)
Lemma start_min_reads_tag k extra rest :
  all_digits k = true -> k <> [] -> length k <= 3 ->
  extra_ok extra = true ->
  exists m0,
    search U no_flags START_MIN
      (lit "[MIN=[MIN=" ++ k ++ plus_text extra ++ lit "]] " ++ rest)
    = Some m0
    /\ group 1 m0 = Some (k ++ plus_text extra).
Proof.
  intros Hd Hne Hlen Hex.
  set (s := lit "[MIN=[MIN=" ++ k ++ plus_text extra ++ lit "]] " ++ rest).
  assert (Hm : exists m0, match_at U no_flags START_MIN false None s = Some m0
                          /\ group 1 m0 = Some (k ++ plus_text extra)).
  { unfold match_at, START_MIN. cbn [seqs]. subst s.
    change (lit "]] " ++ rest) with (93%N :: 93%N :: 32%N :: rest).
    destruct extra as [x|]; cbn [plus_text].
    - destruct (@extra_parts _ Hex) as (Hxd & Hxne & Hx2).
      change ((lit "+" ++ x) ++ 93%N :: 93%N :: 32%N :: rest)
        with (43%N :: x ++ 93%N :: 93%N :: 32%N :: rest).
      eexists. split.
      + rewrite run_seq, run_bol_none, run_seq.
        rewrite run_spaces_stop by reflexivity.
        rewrite run_seq, run_word_tag2, run_seq. unfold opt at 1.
        apply run_alt_first. rewrite run_word_tag.
        rewrite run_seq, run_grp. unfold MINUTE. rewrite run_seq.
        apply run_rep1_digits;
          [reflexivity | assumption | assumption | assumption |].
        unfold opt. apply run_alt_first. rewrite run_seq.
        change (word "+") with (Chr 43%N). rewrite run_chr_cons.
        change (chr_match no_flags 43%N 43%N) with true. cbv iota.
        apply run_rep1_digits;
          [reflexivity | assumption | assumption | assumption |].
        replace (k ++ 43%N :: x ++ 93%N :: 93%N :: 32%N :: rest)
          with ((k ++ lit "+" ++ x) ++ 93%N :: 93%N :: 32%N :: rest)
          by (rewrite <- !app_assoc; reflexivity).
        rewrite firstn_prefix.
        change (word "]") with (Chr 93%N). rewrite run_chr_cons.
        change (chr_match no_flags 93%N 93%N) with true. cbv iota.
        unfold accept. cbn [andb]. reflexivity.
      + reflexivity.
    - cbn [app]. rewrite app_nil_r.
      eexists. split.
      + rewrite run_seq, run_bol_none, run_seq.
        rewrite run_spaces_stop by reflexivity.
        rewrite run_seq, run_word_tag2, run_seq. unfold opt at 1.
        apply run_alt_first. rewrite run_word_tag.
        rewrite run_seq, run_grp. unfold MINUTE. rewrite run_seq.
        apply run_rep1_digits;
          [reflexivity | assumption | assumption | assumption |].
        unfold opt. rewrite run_alt, run_seq.
        change (word "+") with (Chr 43%N). rewrite run_chr_cons.
        change (chr_match no_flags 43%N 93%N) with false. cbv iota.
        rewrite run_eps. rewrite firstn_prefix.
        change (word "]") with (Chr 93%N). rewrite run_chr_cons.
        change (chr_match no_flags 93%N 93%N) with true. cbv iota.
        unfold accept. cbn [andb]. reflexivity.
      + reflexivity. }
  destruct Hm as (m0 & Hm & Hg). exists m0. split; [|exact Hg].
  unfold search.
  rewrite (@search_from_here U no_flags START_MIN _ _ _ _ Hm). reflexivity.
Qed.

Lemma plus_matches_plus fl x : chr_match fl 43%N x = true -> x = 43%N.
Proof.
  unfold chr_match. destruct (ignorecase fl); intros H; apply N.eqb_eq in H.
  - apply casefold_low; [reflexivity | symmetry; exact H].
  - symmetry. exact H.
Qed.

Lemma bracket_matches_bracket fl x : chr_match fl 91%N x = true -> x = 91%N.
Proof.
  unfold chr_match. destruct (ignorecase fl); intros H; apply N.eqb_eq in H.
  - apply casefold_low; [reflexivity | symmetry; exact H].
  - symmetry. exact H.
Qed.

Lemma same_char fl c x :
  ignorecase fl = false -> chr_match fl c x = true -> x = c.
Proof.
  unfold chr_match. intros ->. intros H. apply N.eqb_eq in H.
  symmetry. exact H.
Qed.

(** ** The pair pattern needs a plus sign before a bracket *)

Lemma lang_seq_inv fl r1 r2 t :
  lang U fl (Seq r1 r2) t ->
  exists a b, t = a ++ b /\ lang U fl r1 a /\ lang U fl r2 b.
Proof. intros H. inversion H; subst. eauto. Qed.

Lemma lang_chr_inv fl l t :
  lang U fl (Chr l) t -> exists c, t = [c] /\ chr_match fl l c = true.
Proof. intros H. inversion H; subst. eauto. Qed.

Lemma added_pair_adjacent fl t :
  lang U fl ADDED_PAIR t -> exists a b, t = a ++ 43%N :: 91%N :: b.
Proof.
  unfold ADDED_PAIR. cbn [seqs]. intros H.
  apply lang_seq_inv in H as (a1 & t1 & -> & _ & H).
  apply lang_seq_inv in H as (a2 & t2 & -> & _ & H).
  apply lang_seq_inv in H as (a3 & t3 & -> & _ & H).
  apply lang_seq_inv in H as (a4 & t4 & -> & _ & H).
  apply lang_seq_inv in H as (a5 & t5 & -> & _ & H).
  apply lang_seq_inv in H as (a6 & t6 & -> & _ & H).
  apply lang_seq_inv in H as (a7 & t7 & -> & Hp & H).
  apply lang_seq_inv in H as (a8 & t8 & -> & Hm & _).
  change (word "+") with (Chr 43%N) in Hp.
  apply lang_chr_inv in Hp as (c & -> & Hc).
  apply plus_matches_plus in Hc as ->.
  change (word "[MIN=") with (Seq (Chr 91%N) (word "MIN=")) in Hm.
  apply lang_seq_inv in Hm as (b1 & b2 & -> & Hb & _).
  apply lang_chr_inv in Hb as (d & -> & Hd).
  apply bracket_matches_bracket in Hd as ->.
  exists (a1 ++ a2 ++ a3 ++ a4 ++ a5 ++ a6), (b2 ++ t8).
  rewrite <- !app_assoc. reflexivity.
Qed.

Lemma no_added_pair fl s :
  (forall a b, s <> a ++ 43%N :: 91%N :: b) ->
  search U fl ADDED_PAIR s = None.
Proof.
  intros Hs. unfold search.
  destruct (search_from U fl ADDED_PAIR false None s) as [[sk m]|] eqn:E;
    [|reflexivity].
  exfalso.
  destruct (@search_from_reads U fl ADDED_PAIR s false None sk m E)
    as (Es & _).
  destruct (@search_from_lang U fl ADDED_PAIR s false None sk m E)
    as (L & _).
  apply added_pair_adjacent in L as (a & b & Ea).
  apply (Hs (sk ++ a) (b ++ m_rest m)).
  rewrite Es, Ea, <- !app_assoc. reflexivity.
Qed.

(** The one place of a character that a text holds once. *)
Lemma one_place (x : char) p : forall q a b,
  ~ In x p -> ~ In x q -> p ++ x :: q = a ++ x :: b -> p = a /\ q = b.
Proof.
  induction p as [|z p IH]; intros q a b Hp Hq E.
  - destruct a as [|y a]; cbn [app] in E.
    + injection E as <-. split; reflexivity.
    + injection E as <- ->. exfalso. apply Hq, in_or_app. right. left.
      reflexivity.
  - destruct a as [|y a]; cbn [app] in E.
    + injection E as -> _. exfalso. apply Hp. left. reflexivity.
    + injection E as <- E.
      destruct (IH q a b) as [-> ->];
        [intros H; apply Hp; right; exact H | exact Hq | exact E |].
      split; reflexivity.
Qed.

Lemma digits_exclude x s :
  all_digits s = true -> ascii_digit x = false -> ~ In x s.
Proof.
  intros Hs Hx H. unfold all_digits in Hs. rewrite forallb_forall in Hs.
  rewrite (Hs _ H) in Hx. discriminate.
Qed.

Lemma plus_text_exclude x extra :
  extra_ok extra = true -> ascii_digit x = false -> x <> 43%N ->
  ~ In x (plus_text extra).
Proof.
  intros Hex Hx H43. destruct extra as [m|]; cbn [plus_text]; [|intros []].
  destruct (@extra_parts _ Hex) as (Hmd & _ & _).
  intros [H|H]; [apply H43; symmetry; exact H|].
  exact (@digits_exclude x m Hmd Hx H).
Qed.

(** A tagged line whose text holds no plus sign holds no plus sign
    before a bracket. *)
Lemma tagged_has_no_pair k extra rest :
  all_digits k = true -> extra_ok extra = true -> ~ In 43%N rest ->
  forall a b,
    lit "[MIN=[MIN=" ++ k ++ plus_text extra ++ lit "]] " ++ rest
    <> a ++ 43%N :: 91%N :: b.
Proof.
  intros Hk Hex Hrest a b E.
  assert (Hp : ~ In 43%N (lit "[MIN=[MIN=" ++ k)).
  { intros H. apply in_app_iff in H as [H|H].
    - simpl in H. repeat (destruct H as [H|H]; [discriminate|]). exact H.
    - exact (@digits_exclude 43%N k Hk eq_refl H). }
  assert (Hq : ~ In 43%N (lit "]] " ++ rest)).
  { intros H. apply in_app_iff in H as [H|H].
    - simpl in H. repeat (destruct H as [H|H]; [discriminate|]). exact H.
    - exact (Hrest H). }
  destruct extra as [m|]; cbn [plus_text] in E.
  - destruct (@extra_parts _ Hex) as (Hmd & Hmne & _).
    assert (Hq' : ~ In 43%N (m ++ lit "]] " ++ rest)).
    { intros H. apply in_app_iff in H as [H|H]; [|exact (Hq H)].
      exact (@digits_exclude 43%N m Hmd eq_refl H). }
    replace (lit "[MIN=[MIN=" ++ k ++ (lit "+" ++ m) ++ lit "]] " ++ rest)
      with ((lit "[MIN=[MIN=" ++ k) ++ 43%N :: (m ++ lit "]] " ++ rest)) in E
      by (rewrite <- !app_assoc; reflexivity).
    apply one_place in E as [_ E]; [|exact Hp|exact Hq'].
    destruct m as [|d m]; [contradiction|].
    cbn [app] in E. injection E as -> _.
    simpl in Hmd. discriminate.
  - cbn [app] in E.
    apply (f_equal (fun l => existsb (N.eqb 43%N) l)) in E.
    assert (Hl : existsb (N.eqb 43%N)
                   (lit "[MIN=[MIN=" ++ k ++ lit "]] " ++ rest) = false).
    { destruct (existsb _ _) eqn:Ee; [|reflexivity].
      apply existsb_exists in Ee as (x & Hin & Hx). apply N.eqb_eq in Hx.
      subst x. exfalso.
      rewrite app_assoc in Hin. apply in_app_iff in Hin as [H|H];
        [exact (Hp H) | exact (Hq H)]. }
    rewrite Hl in E. symmetry in E.
    rewrite existsb_app in E. cbn [existsb] in E.
    rewrite N.eqb_refl in E. cbn [orb] in E.
    rewrite orb_true_r in E. discriminate.
Qed.

(** ** What the dashes leave alone *)

Lemma dash_keeps c :
  c <> 8211%N -> c <> 8212%N -> dash_to_hyphen c = c.
Proof.
  intros H1 H2. unfold dash_to_hyphen.
  destruct (N.eqb_spec c 8212); [contradiction|].
  destruct (N.eqb_spec c 8211); [contradiction|]. reflexivity.
Qed.

Lemma dash_keeps_all (P : char -> bool) s :
  P 8211%N = false -> P 8212%N = false ->
  forallb P s = true -> map dash_to_hyphen s = s.
Proof.
  intros H1 H2. induction s as [|c s IH]; intros H; [reflexivity|].
  simpl in H. apply andb_true_iff in H as [Hc Hs].
  simpl. rewrite (IH Hs), dash_keeps; [reflexivity| |];
    intros ->; congruence.
Qed.

Lemma dash_image c x :
  dash_to_hyphen c = x -> x <> 45%N -> c = x.
Proof.
  unfold dash_to_hyphen. destruct ((c =? 8212) || (c =? 8211))%N.
  - intros <- H. contradiction.
  - intros <- _. reflexivity.
Qed.

Lemma dash_In x s :
  x <> 45%N -> In x (map dash_to_hyphen s) -> In x s.
Proof.
  intros Hx H. apply in_map_iff in H as [c [Hc Hin]].
  apply dash_image in Hc; [|exact Hx]. subst c. exact Hin.
Qed.

Lemma dash_forallb (P : char -> bool) s :
  P 45%N = true ->
  forallb P s = true -> forallb P (map dash_to_hyphen s) = true.
Proof.
  intros H45. induction s as [|c s IH]; intros H; [reflexivity|].
  simpl in H. apply andb_true_iff in H as [Hc Hs].
  simpl. rewrite (IH Hs), andb_true_r.
  unfold dash_to_hyphen. destruct ((c =? 8212) || (c =? 8211))%N; assumption.
Qed.

Lemma dash_plus_text extra :
  extra_ok extra = true ->
  map dash_to_hyphen (plus_text extra) = plus_text extra.
Proof.
  intros Hex. destruct extra as [m|]; [|reflexivity].
  destruct (@extra_parts _ Hex) as (Hmd & _ & _).
  cbn [plus_text]. rewrite map_app.
  rewrite (@dash_keeps_all ascii_digit m eq_refl eq_refl Hmd). reflexivity.
Qed.

Lemma dash_line n extra q ws rest :
  all_digits n = true -> extra_ok extra = true -> apostrophe q = true ->
  forallb blank_in_line ws = true ->
  map dash_to_hyphen (n ++ plus_text extra ++ q :: ws ++ rest)
  = n ++ plus_text extra ++ q :: ws ++ map dash_to_hyphen rest.
Proof.
  intros Hn Hex Hq Hws. rewrite !map_app. cbn [map]. rewrite map_app.
  rewrite (@dash_keeps_all ascii_digit n eq_refl eq_refl Hn).
  rewrite (@dash_keeps_all blank_in_line ws eq_refl eq_refl Hws).
  rewrite (@dash_plus_text _ Hex).
  rewrite dash_keeps; [reflexivity| |];
    intros ->; discriminate.
Qed.

(** The whole of [clean] on a line that opens with a minute and an
    apostrophe, and holds no other digit. *)
Lemma clean_minute_line n extra q ws rest :
  all_digits n = true -> n <> [] -> length n <= 3 ->
  extra_ok extra = true ->
  apostrophe q = true ->
  forallb blank_in_line ws = true ->
  one_line rest = true -> starts_solid rest = true ->
  digitless U rest -> ~ In 13%N (ws ++ rest) ->
  clean U (n ++ plus_text extra ++ q :: ws ++ rest)
  = lit "[MIN=[MIN=" ++ str_of_N (int_of U n) ++ plus_text extra
    ++ lit "]] " ++ map dash_to_hyphen rest.
Proof.
  intros Hn Hne Hn3 Hex Hq Hws Hl Hrest Hdl H13.
  unfold clean. rewrite (@dash_line n extra q ws rest Hn Hex Hq Hws).
  set (rest' := map dash_to_hyphen rest).
  assert (Hl' : one_line rest' = true)
    by (apply dash_forallb; [reflexivity | exact Hl]).
  assert (Hdl' : digitless U rest')
    by (apply dash_forallb; [reflexivity | exact Hdl]).
  assert (Hrest' : starts_solid rest' = true).
  { subst rest'. destruct rest as [|c rest]; [reflexivity|].
    simpl in *. unfold dash_to_hyphen.
    destruct ((c =? 8212) || (c =? 8211))%N; [reflexivity|exact Hrest]. }
  assert (Hq13 : q <> 13%N /\ q <> 10%N).
  { destruct (@apostrophe_cases q Hq) as [->| ->]; split; discriminate. }
  assert (Hno13 : ~ In 13%N (n ++ plus_text extra ++ q :: ws ++ rest')).
  { intros H. apply in_app_iff in H as [H|H];
      [exact (@digits_exclude 13%N n Hn eq_refl H)|].
    apply in_app_iff in H as [H|H].
    { refine (@plus_text_exclude 13%N extra Hex eq_refl _ H). discriminate. }
    destruct H as [H|H]; [apply (proj1 Hq13); exact H|].
    apply H13. apply in_app_iff in H as [H|H].
    - apply in_or_app. left. exact H.
    - apply in_or_app. right. apply dash_In in H; [exact H | discriminate]. }
  assert (Hno10 : ~ In 10%N (n ++ plus_text extra ++ q :: ws ++ rest')).
  { intros H. apply in_app_iff in H as [H|H];
      [exact (@digits_exclude 10%N n Hn eq_refl H)|].
    apply in_app_iff in H as [H|H].
    { refine (@plus_text_exclude 10%N extra Hex eq_refl _ H). discriminate. }
    destruct H as [H|H]; [apply (proj2 Hq13); exact H|].
    apply in_app_iff in H as [H|H].
    - rewrite forallb_forall in Hws. specialize (Hws _ H).
      unfold blank_in_line in Hws. rewrite andb_comm in Hws. discriminate.
    - unfold one_line in Hl'. rewrite forallb_forall in Hl'.
      specialize (Hl' _ H). discriminate. }
  rewrite (@sub_no_match U no_flags CRLF (fun _ => [10%N]) _
             (@no_char_no_search U no_flags CRLF 13%N _
                (fun x => @same_char no_flags 13%N x eq_refl) eq_refl
                Hno13 false None)).
  rewrite (@sub_no_match U no_flags NL3 (fun _ => [10%N; 10%N]) _
             (@no_char_no_search U no_flags NL3 10%N _
                (fun x => @same_char no_flags 10%N x eq_refl) eq_refl
                Hno10 false None)).
  unfold normalise_minutes.
  rewrite (@line_pass_minute n extra q ws rest' Hn Hne Hn3 Hex Hq Hws Hl'
             Hrest').
  destruct (@tag_number_ok U n Hn Hne Hn3) as (K1 & K2 & K3 & K4).
  exact (@inline_pass_tagged _ extra rest' K1 K2 K3 K4 Hex Hdl').
Qed.

End MinuteRoundTrip.

(** X25.  From the normaliser to the classifier.  A line that opens
    with a minute of one to three digits, with or without a stoppage
    part [+M] of one or two digits, and an apostrophe, and whose text
    holds no digit, no plus sign and no carriage return, comes out of
    [clean] with its minute tagged twice, the number printed without
    leading zeros and the stoppage part as written; and
    [_extract_minute] reads from the cleaned line that very minute,
    whatever minute is carried. *)
Theorem minute_of_a_line_survives_cleaning (U : unicode)
    (n : str) (extra : option str) (q : char) (ws rest : str)
    (fallback : option str) :
  Notions.all_digits n = true -> 1 <= length n <= 3 ->
  Notions.extra_ok extra = true ->
  Notions.apostrophe q = true ->
  forallb Notions.blank_in_line ws = true ->
  Notions.one_line rest = true -> Notions.starts_solid rest = true ->
  MoreNotions.digitless U rest ->
  ~ In 43%N rest -> ~ In 13%N (ws ++ rest) ->
  let line := n ++ Notions.plus_text extra ++ q :: ws ++ rest in
  let k := str_of_N (int_of U n) ++ Notions.plus_text extra in
  Preproc.clean U line
  = lit "[MIN=[MIN=" ++ k ++ lit "]] " ++ map Preproc.dash_to_hyphen rest
  /\ Parser._extract_minute U (Preproc.clean U line) fallback = Some k.
Proof.
  intros Hn [Hn1 Hn3] Hex Hq Hws Hl Hrest Hdl H43 H13 line k.
  assert (Hne : n <> []) by (destruct n; [simpl in Hn1; lia | discriminate]).
  set (rest' := map Preproc.dash_to_hyphen rest).
  set (s := lit "[MIN=[MIN=" ++ str_of_N (int_of U n)
            ++ Notions.plus_text extra ++ lit "]] " ++ rest').
  assert (Hc : Preproc.clean U line = s)
    by (apply clean_minute_line; assumption).
  assert (Es : lit "[MIN=[MIN=" ++ k ++ lit "]] " ++ rest' = s)
    by (subst k s; rewrite <- !app_assoc; reflexivity).
  rewrite Es. split; [exact Hc|]. rewrite Hc.
  destruct (@tag_number_ok U n Hn Hne Hn3) as (K1 & K2 & K3 & _).
  unfold Parser._extract_minute.
  change (negb (truthy s)) with false. cbv iota.
  assert (H43' : ~ In 43%N rest').
  { intros H. apply H43. apply dash_In in H; [exact H | discriminate]. }
  rewrite (@no_added_pair U flag_I s
             (@tagged_has_no_pair _ extra rest' K1 Hex H43')).
  destruct (@start_min_reads_tag U _ extra rest' K1 K2 K3 Hex)
    as (m0 & Hm0 & Hg).
  fold s in Hm0. rewrite Hm0.
  exact Hg.
Qed.

Lemma minute_of_a_line_survives_cleaning_witness :
  Preproc.clean Sample.ascii_only (lit "045+2' Corner, Leeds United.")
  = lit "[MIN=[MIN=45+2]] Corner, Leeds United."
  /\ Parser._extract_minute Sample.ascii_only
       (Preproc.clean Sample.ascii_only
          (lit "045+2' Corner, Leeds United."))
       (Some (lit "44"))
     = Some (lit "45+2").
Proof.
  apply (@minute_of_a_line_survives_cleaning Sample.ascii_only
           (lit "045") (Some (lit "2")) 39%N (lit " ")
           (lit "Corner, Leeds United.")
           (Some (lit "44"))); try reflexivity.
  - simpl. lia.
  - vm_compute. intros H.
    repeat (destruct H as [H|H]; [discriminate|]). exact H.
  - vm_compute. intros H.
    repeat (destruct H as [H|H]; [discriminate|]). exact H.
Defined.
